(** * Bluetooth Mesh application keys (NimBLE host, mesh/app_keys.c)

    A shallow embedding of the AppKey table, of the pending-write tracker
    and of the operations on them, followed by the properties of the
    lifecycle engine and of the TX/RX key resolvers.

    Conventions of the embedding:
    - [uint16_t], [uint8_t], [size_t], [off_t] and [int] values are [Z];
    - the static array [apps] and the static array [app_key_updates] are
      lists, a [struct app_key *] is the slot number it points to, and a
      store through such a pointer is [alter] on that slot (the program
      only forms pointers into the arrays; a slot number outside the list
      leaves the state as it is);
    - calls that leave the file (listener callbacks, the settings store)
      are appended, in program order, to a trace of effects;
    - what the file takes from headers and from other modules (constants,
      configuration switches, the subnet table, the AID derivation, the
      node database) is collected in the class [Mesh]. *)

From Stdlib Require Import ZArith List Bool Lia.
From stdpp Require Import base numbers list.

Local Open Scope Z_scope.

(** ** Data model *)

(** [enum bt_mesh_key_evt]. *)
Inductive bt_mesh_key_evt :=
| BT_MESH_KEY_ADDED
| BT_MESH_KEY_DELETED
| BT_MESH_KEY_UPDATED
| BT_MESH_KEY_SWAPPED
| BT_MESH_KEY_REVOKED.

(** The foundation status codes the file returns (one [uint8_t] macro each
    in the foundation header). *)
Inductive status :=
| STATUS_SUCCESS
| STATUS_INVALID_APPKEY
| STATUS_INVALID_NETKEY
| STATUS_INSUFF_RESOURCES
| STATUS_IDX_ALREADY_STORED
| STATUS_CANNOT_UPDATE
| STATUS_CANNOT_SET
| STATUS_INVALID_BINDING.

(** [enum bt_mesh_net_if], as far as the file looks at it. *)
Inductive bt_mesh_net_if :=
| BT_MESH_NET_IF_ADV
| BT_MESH_NET_IF_LOCAL
| BT_MESH_NET_IF_PROXY
| BT_MESH_NET_IF_PROXY_CFG.

(** <errno.h>. *)
Definition EIO : Z := 5.
Definition ENOMEM : Z := 12.
Definition EINVAL : Z := 22.

(** [struct bt_mesh_app_cred]: one key generation. *)
Record bt_mesh_app_cred := {
  cred_id : Z;            (* uint8_t id *)
  cred_val : list Z       (* uint8_t val[16] *)
}.

(** [struct app_key]; [keys0] and [keys1] are [keys[0]] and [keys[1]]. *)
Record app_key := {
  net_idx : Z;
  app_idx : Z;
  updated : bool;
  keys0 : bt_mesh_app_cred;
  keys1 : bt_mesh_app_cred
}.

(** [struct app_key_update], a slot of the pending-write tracker.
    [key_idx] is a 12-bit field. *)
Record app_key_update := {
  key_idx : Z;
  valid : bool;
  clear : bool
}.

(** [struct app_key_val], the record handed to the settings store. *)
Record app_key_val := {
  val_net_idx : Z;
  val_updated : bool;
  val_0 : list Z;
  val_1 : list Z
}.

(** What the file reads of [struct bt_mesh_subnet]. *)
Record bt_mesh_subnet := {
  sub_net_idx : Z;
  kr_phase : Z
}.

(** What the file reads of [struct bt_mesh_cdb_node]. *)
Record bt_mesh_cdb_node := {
  dev_key : list Z
}.

(** What the file reads of [struct bt_mesh_msg_ctx]. *)
Record bt_mesh_msg_ctx := {
  ctx_net_idx : Z;
  ctx_app_idx : Z;
  ctx_addr : Z;
  ctx_recv_dst : Z
}.

(** What the file reads of [struct bt_mesh_net_rx]. *)
Record bt_mesh_net_rx := {
  rx_sub : bt_mesh_subnet;
  rx_ctx : bt_mesh_msg_ctx;
  rx_new_key : bool;
  rx_net_if : bt_mesh_net_if
}.

(** The occupant of [bt_mesh_subnet_cb_list[0]]. *)
Inductive subnet_cb :=
| cb_subnet_evt
| cb_other (n : nat).

(** Calls that leave the file. The settings path ["bt_mesh/AppKey/%x"] is
    represented by the index it is printed from. *)
Inductive effect :=
| KeyEvt (listener : nat) (app net : Z) (evt : bt_mesh_key_evt)
| SettingsSaveOne (app : Z) (v : option app_key_val)
| SettingsStoreSchedule.

(** The state of the file: the two static arrays, the first slot of the
    subnet listener list, and the trace. *)
Record mesh_state := {
  apps : list app_key;
  app_key_updates : list app_key_update;
  subnet_cb_0 : option subnet_cb;
  trace : list effect
}.

(** Constants, configuration and collaborators. *)
Class Mesh := {
  BT_MESH_KEY_UNUSED : Z;
  BT_MESH_KEY_ANY : Z;
  BT_MESH_KEY_DEV_LOCAL : Z;
  BT_MESH_KEY_DEV_REMOTE : Z;
  BT_MESH_KR_PHASE_1 : Z;
  BT_MESH_KR_PHASE_2 : Z;
  BT_MESH_IS_DEV_KEY : Z -> bool;
  BT_MESH_ADDR_IS_UNICAST : Z -> bool;
  CONFIG_BT_MESH_APP_KEY_COUNT : nat;
  CONFIG_BT_SETTINGS : bool;
  BLE_MESH_SETTINGS : bool;
  CONFIG_BT_MESH_CDB : bool;
  (* one entry per slot of bt_mesh_app_key_cb_list: is it non-NULL *)
  bt_mesh_app_key_cb_list : list bool;
  bt_mesh_subnet_get : Z -> option bt_mesh_subnet;
  (* bt_mesh_app_id key out: the error code and the content of [*out]
     afterwards, given its content before *)
  bt_mesh_app_id : list Z -> Z -> Z * Z;
  bt_mesh_has_addr : Z -> bool;
  bt_mesh_cdb_node_get : Z -> option bt_mesh_cdb_node;
  bt_mesh_dev_key : list Z
}.

(** ** Bytes *)

Fixpoint memcmp (a b : list Z) (n : nat) : Z :=
  match n with
  | O => 0
  | S n' =>
      match a, b with
      | x :: a', y :: b' => if x =? y then memcmp a' b' n' else x - y
      | _, _ => 0
      end
  end.

Definition memcpy (dst src : list Z) (n : nat) : list Z :=
  take n src ++ drop n dst.

(** [memset(&cred, 0, sizeof(cred))]. *)
Definition cred_zero : bt_mesh_app_cred :=
  {| cred_id := 0; cred_val := replicate 16 0 |}.

(** ** Field stores *)

Definition set_clear (c : bool) (u : app_key_update) : app_key_update :=
  {| key_idx := key_idx u; valid := valid u; clear := c |}.

Definition set_cred_id (i : Z) (c : bt_mesh_app_cred) : bt_mesh_app_cred :=
  {| cred_id := i; cred_val := cred_val c |}.

Definition set_cred_val (v : list Z) (c : bt_mesh_app_cred) : bt_mesh_app_cred :=
  {| cred_id := cred_id c; cred_val := v |}.

Definition set_keys0 (c : bt_mesh_app_cred) (a : app_key) : app_key :=
  {| net_idx := net_idx a; app_idx := app_idx a; updated := updated a;
     keys0 := c; keys1 := keys1 a |}.

Definition set_keys1 (c : bt_mesh_app_cred) (a : app_key) : app_key :=
  {| net_idx := net_idx a; app_idx := app_idx a; updated := updated a;
     keys0 := keys0 a; keys1 := c |}.

Definition set_net_idx (n : Z) (a : app_key) : app_key :=
  {| net_idx := n; app_idx := app_idx a; updated := updated a;
     keys0 := keys0 a; keys1 := keys1 a |}.

Definition set_app_idx (n : Z) (a : app_key) : app_key :=
  {| net_idx := net_idx a; app_idx := n; updated := updated a;
     keys0 := keys0 a; keys1 := keys1 a |}.

Definition set_updated (b : bool) (a : app_key) : app_key :=
  {| net_idx := net_idx a; app_idx := app_idx a; updated := b;
     keys0 := keys0 a; keys1 := keys1 a |}.

Definition with_apps (l : list app_key) (st : mesh_state) : mesh_state :=
  {| apps := l; app_key_updates := app_key_updates st;
     subnet_cb_0 := subnet_cb_0 st; trace := trace st |}.

Definition with_updates (l : list app_key_update) (st : mesh_state) : mesh_state :=
  {| apps := apps st; app_key_updates := l;
     subnet_cb_0 := subnet_cb_0 st; trace := trace st |}.

Definition with_subnet_cb (c : option subnet_cb) (st : mesh_state) : mesh_state :=
  {| apps := apps st; app_key_updates := app_key_updates st;
     subnet_cb_0 := c; trace := trace st |}.

Definition emit (e : list effect) (st : mesh_state) : mesh_state :=
  {| apps := apps st; app_key_updates := app_key_updates st;
     subnet_cb_0 := subnet_cb_0 st; trace := trace st ++ e |}.

(** A store through [app] ([app] is a slot number). *)
Definition store_app (app : nat) (f : app_key -> app_key) (st : mesh_state) : mesh_state :=
  with_apps (alter f app (apps st)) st.

Section AppKeys.
Context `{M : Mesh}.

(** ** Initial state *)

(** The initializer of [apps]: both indices unused, the rest zero. *)
Definition apps_init_slot : app_key :=
  {| net_idx := BT_MESH_KEY_UNUSED; app_idx := BT_MESH_KEY_UNUSED;
     updated := false; keys0 := cred_zero; keys1 := cred_zero |}.

(** The static arrays with [n] slots each, before any call. *)
Definition init_state (n : nat) : mesh_state :=
  {| apps := replicate n apps_init_slot;
     app_key_updates := replicate n {| key_idx := 0; valid := false; clear := false |};
     subnet_cb_0 := None;
     trace := [] |}.

Definition mesh_init : mesh_state := init_state CONFIG_BT_MESH_APP_KEY_COUNT.

(** ** Key table *)

(** The loop of [app_get], from slot [i] on. *)
Fixpoint app_get_loop (l : list app_key) (i : nat) (idx : Z) : option nat :=
  match l with
  | [] => None
  | a :: l' => if app_idx a =? idx then Some i else app_get_loop l' (S i) idx
  end.

Definition app_get (st : mesh_state) (idx : Z) : option nat :=
  app_get_loop (apps st) 0%nat idx.

(** The loop of [app_key_alloc]; [app] is the local of that name. *)
Fixpoint app_key_alloc_loop (l : list app_key) (i : nat) (app : option nat)
    (idx : Z) : option nat :=
  match l with
  | [] => app
  | a :: l' =>
      if app_idx a =? idx then Some i
      else
        let app' :=
          match app with
          | None => if app_idx a =? BT_MESH_KEY_UNUSED then Some i else None
          | Some _ => app
          end in
        app_key_alloc_loop l' (S i) app' idx
  end.

Definition app_key_alloc (st : mesh_state) (idx : Z) : option nat :=
  app_key_alloc_loop (apps st) 0%nat None idx.

Fixpoint bt_mesh_app_key_exists_loop (l : list app_key) (idx : Z) : bool :=
  match l with
  | [] => false
  | a :: l' => if app_idx a =? idx then true else bt_mesh_app_key_exists_loop l' idx
  end.

Definition bt_mesh_app_key_exists (st : mesh_state) (idx : Z) : bool :=
  bt_mesh_app_key_exists_loop (apps st) idx.

(** ** Settings store and pending-write tracker *)

Definition clear_app_key (idx : Z) (st : mesh_state) : mesh_state :=
  if BLE_MESH_SETTINGS then emit [SettingsSaveOne idx None] st else st.

(** The local [key] that [store_app_key] fills from [app]. *)
Definition app_key_val_of (app : app_key) : app_key_val :=
  {| val_net_idx := net_idx app;
     val_updated := updated app;
     val_0 := memcpy (replicate 16 0) (cred_val (keys0 app)) 16;
     val_1 := memcpy (replicate 16 0) (cred_val (keys1 app)) 16 |}.

Definition store_app_key (idx : Z) (st : mesh_state) : mesh_state :=
  if BLE_MESH_SETTINGS then
    match app_get st idx with
    | None => st
    | Some i =>
        match apps st !! i with
        | None => st
        | Some app => emit [SettingsSaveOne idx (Some (app_key_val_of app))] st
        end
    end
  else st.

(** The loop of [app_key_update_find]; the result is [(match, *free_slot)]. *)
Fixpoint app_key_update_find_loop (l : list app_key_update) (i : nat)
    (mtch free_slot : option nat) (idx : Z) : option nat * option nat :=
  match l with
  | [] => (mtch, free_slot)
  | update :: l' =>
      if negb (valid update) then
        app_key_update_find_loop l' (S i) mtch (Some i) idx
      else if key_idx update =? idx then
        app_key_update_find_loop l' (S i) (Some i) free_slot idx
      else
        app_key_update_find_loop l' (S i) mtch free_slot idx
  end.

Definition app_key_update_find (st : mesh_state) (idx : Z) : option nat * option nat :=
  app_key_update_find_loop (app_key_updates st) 0%nat None None idx.

Definition update_app_key_settings (idx : Z) (store : bool) (st : mesh_state)
    : mesh_state :=
  if BLE_MESH_SETTINGS then
    let clr := if store then false else true in
    match app_key_update_find st idx with
    | (Some update, _) =>
        emit [SettingsStoreSchedule]
          (with_updates (alter (set_clear clr) update (app_key_updates st)) st)
    | (None, None) =>
        if store then store_app_key idx st else clear_app_key idx st
    | (None, Some free_slot) =>
        emit [SettingsStoreSchedule]
          (with_updates
             (alter (fun _ => {| key_idx := Z.land idx 4095; valid := true; clear := clr |})
                free_slot (app_key_updates st)) st)
    end
  else st.

Definition bt_mesh_app_key_pending_store_step (st : mesh_state) (i : nat)
    : mesh_state :=
  match app_key_updates st !! i with
  | None => st
  | Some update =>
      if negb (valid update) then st
      else
        let st1 := if clear update then clear_app_key (key_idx update) st
                   else store_app_key (key_idx update) st in
        with_updates
          (alter (fun u => {| key_idx := key_idx u; valid := false; clear := clear u |})
             i (app_key_updates st1)) st1
  end.

Definition bt_mesh_app_key_pending_store (st : mesh_state) : mesh_state :=
  fold_left bt_mesh_app_key_pending_store_step
    (seq 0 (length (app_key_updates st))) st.

(** ** Events *)

(** The loop of [app_key_evt] over the listener list, from slot [i] on. *)
Fixpoint app_key_evt_loop (cbs : list bool) (i : nat) (a n : Z)
    (evt : bt_mesh_key_evt) : list effect :=
  match cbs with
  | [] => []
  | cb :: cbs' =>
      (if cb then [KeyEvt i a n evt] else []) ++ app_key_evt_loop cbs' (S i) a n evt
  end.

Definition app_key_evt (app : nat) (evt : bt_mesh_key_evt) (st : mesh_state)
    : mesh_state :=
  match apps st !! app with
  | None => st
  | Some a =>
      emit (app_key_evt_loop bt_mesh_app_key_cb_list 0%nat (app_idx a) (net_idx a) evt) st
  end.

(** ** Lifecycle engine: internal operations *)

Definition app_key_del (app : nat) (st : mesh_state) : mesh_state :=
  match apps st !! app with
  | None => st
  | Some a =>
      let st1 := if CONFIG_BT_SETTINGS
                 then update_app_key_settings (app_idx a) false st else st in
      let st2 := app_key_evt app BT_MESH_KEY_DELETED st1 in
      let st3 := store_app app (set_net_idx BT_MESH_KEY_UNUSED) st2 in
      let st4 := store_app app (set_app_idx BT_MESH_KEY_UNUSED) st3 in
      store_app app (fun x => set_keys1 cred_zero (set_keys0 cred_zero x)) st4
  end.

Definition app_key_revoke (app : nat) (st : mesh_state) : mesh_state :=
  match apps st !! app with
  | None => st
  | Some a =>
      if negb (updated a) then st
      else
        let st1 := store_app app (fun x => set_keys0 (keys1 x) x) st in
        let st2 := store_app app (set_keys1 cred_zero) st1 in
        let st3 := store_app app (set_updated false) st2 in
        let st4 := if CONFIG_BT_SETTINGS
                   then update_app_key_settings (app_idx a) true st3 else st3 in
        app_key_evt app BT_MESH_KEY_REVOKED st4
  end.

(** The body of the loop of [subnet_evt], at slot [i]. *)
Definition subnet_evt_step (sub : bt_mesh_subnet) (evt : bt_mesh_key_evt)
    (st : mesh_state) (i : nat) : mesh_state :=
  match apps st !! i with
  | None => st
  | Some app =>
      if app_idx app =? BT_MESH_KEY_UNUSED then st
      else if negb (net_idx app =? sub_net_idx sub) then st
      else
        match evt with
        | BT_MESH_KEY_DELETED => app_key_del i st
        | BT_MESH_KEY_REVOKED => app_key_revoke i st
        | BT_MESH_KEY_SWAPPED =>
            if updated app then app_key_evt i BT_MESH_KEY_SWAPPED st else st
        | _ => st
        end
  end.

Definition subnet_evt (sub : bt_mesh_subnet) (evt : bt_mesh_key_evt)
    (st : mesh_state) : mesh_state :=
  match evt with
  | BT_MESH_KEY_UPDATED | BT_MESH_KEY_ADDED => st
  | _ => fold_left (subnet_evt_step sub evt) (seq 0 (length (apps st))) st
  end.

(** ** Lifecycle engine: public operations *)

Definition bt_mesh_app_key_add (idx net : Z) (key : list Z) (st0 : mesh_state)
    : status * mesh_state :=
  let st := match subnet_cb_0 st0 with
            | None => with_subnet_cb (Some cb_subnet_evt) st0
            | Some _ => st0
            end in
  match bt_mesh_subnet_get net with
  | None => (STATUS_INVALID_NETKEY, st)
  | Some _ =>
      match app_key_alloc st idx with
      | None => (STATUS_INSUFF_RESOURCES, st)
      | Some app =>
          match apps st !! app with
          | None => (STATUS_INSUFF_RESOURCES, st)
          | Some a =>
              if app_idx a =? idx then
                if negb (net_idx a =? net) then (STATUS_INVALID_NETKEY, st)
                else if negb (memcmp key (cred_val (keys0 a)) 16 =? 0)
                then (STATUS_IDX_ALREADY_STORED, st)
                else (STATUS_SUCCESS, st)
              else
                let (err, id0) := bt_mesh_app_id key (cred_id (keys0 a)) in
                let st1 := store_app app (fun x => set_keys0 (set_cred_id id0 (keys0 x)) x) st in
                if negb (err =? 0) then (STATUS_CANNOT_SET, st1)
                else
                  let st2 := store_app app (set_net_idx net) st1 in
                  let st3 := store_app app (set_app_idx idx) st2 in
                  let st4 := store_app app (set_updated false) st3 in
                  let st5 := store_app app
                    (fun x => set_keys0 (set_cred_val (memcpy (cred_val (keys0 x)) key 16) (keys0 x)) x)
                    st4 in
                  let st6 := if CONFIG_BT_SETTINGS
                             then update_app_key_settings idx true st5 else st5 in
                  (STATUS_SUCCESS, app_key_evt app BT_MESH_KEY_ADDED st6)
          end
      end
  end.

Definition bt_mesh_app_key_update (idx net : Z) (key : list Z) (st : mesh_state)
    : status * mesh_state :=
  match app_get st idx with
  | None => (STATUS_INVALID_APPKEY, st)
  | Some app =>
      match apps st !! app with
      | None => (STATUS_INVALID_APPKEY, st)
      | Some a =>
          if negb (net =? BT_MESH_KEY_UNUSED) && negb (net_idx a =? net)
          then (STATUS_INVALID_BINDING, st)
          else
            match bt_mesh_subnet_get (net_idx a) with
            | None => (STATUS_INVALID_NETKEY, st)
            | Some sub =>
                if negb (kr_phase sub =? BT_MESH_KR_PHASE_1)
                then (STATUS_CANNOT_UPDATE, st)
                else if updated a then
                  if negb (memcmp (cred_val (keys1 a)) key 16 =? 0)
                  then (STATUS_IDX_ALREADY_STORED, st)
                  else (STATUS_SUCCESS, st)
                else
                  let (err, id1) := bt_mesh_app_id key (cred_id (keys1 a)) in
                  let st1 := store_app app (fun x => set_keys1 (set_cred_id id1 (keys1 x)) x) st in
                  if negb (err =? 0) then (STATUS_CANNOT_UPDATE, st1)
                  else
                    let st2 := store_app app (set_updated true) st1 in
                    let st3 := store_app app
                      (fun x => set_keys1 (set_cred_val (memcpy (cred_val (keys1 x)) key 16) (keys1 x)) x)
                      st2 in
                    let st4 := if CONFIG_BT_SETTINGS
                               then update_app_key_settings (app_idx a) true st3 else st3 in
                    (STATUS_SUCCESS, app_key_evt app BT_MESH_KEY_UPDATED st4)
            end
      end
  end.

Definition bt_mesh_app_key_del (idx net : Z) (st : mesh_state)
    : status * mesh_state :=
  if negb (net =? BT_MESH_KEY_UNUSED)
     && negb (bool_decide (is_Some (bt_mesh_subnet_get net)))
  then (STATUS_INVALID_NETKEY, st)
  else
    match app_get st idx with
    | None => (STATUS_SUCCESS, st)
    | Some app =>
        match apps st !! app with
        | None => (STATUS_SUCCESS, st)
        | Some a =>
            if negb (net =? BT_MESH_KEY_UNUSED) && negb (net =? net_idx a)
            then (STATUS_INVALID_BINDING, st)
            else (STATUS_SUCCESS, app_key_del app st)
        end
    end.

(** [new_key] is [None] for a [NULL] pointer. *)
Definition bt_mesh_app_key_set (idx net : Z) (old_key : list Z)
    (new_key : option (list Z)) (st : mesh_state) : Z * mesh_state :=
  match app_key_alloc st idx with
  | None => (- ENOMEM, st)
  | Some app =>
      match apps st !! app with
      | None => (- ENOMEM, st)
      | Some a =>
          if app_idx a =? idx then (0, st)
          else
            let st1 := store_app app
              (fun x => set_keys0 (set_cred_val (memcpy (cred_val (keys0 x)) old_key 16) (keys0 x)) x)
              st in
            let (err0, id0) := bt_mesh_app_id old_key (cred_id (keys0 a)) in
            let st2 := store_app app (fun x => set_keys0 (set_cred_id id0 (keys0 x)) x) st1 in
            if negb (err0 =? 0) then (- EIO, st2)
            else
              let finish (s : mesh_state) :=
                let s1 := store_app app (set_net_idx net) s in
                let s2 := store_app app (set_app_idx idx) s1 in
                (0, store_app app (set_updated (bool_decide (is_Some new_key))) s2) in
              match new_key with
              | None => finish st2
              | Some nk =>
                  let st3 := store_app app
                    (fun x => set_keys1 (set_cred_val (memcpy (cred_val (keys1 x)) nk 16) (keys1 x)) x)
                    st2 in
                  let (err1, id1) := bt_mesh_app_id nk (cred_id (keys1 a)) in
                  let st4 := store_app app (fun x => set_keys1 (set_cred_id id1 (keys1 x)) x) st3 in
                  if negb (err1 =? 0) then (- EIO, st4) else finish st4
              end
      end
  end.

(** The loop of [bt_mesh_app_keys_get]; the result is the return value and
    the caller's buffer [app_idxs]. *)
Fixpoint bt_mesh_app_keys_get_loop (l : list app_key) (net : Z)
    (app_idxs : list Z) (max skip count : Z) : Z * list Z :=
  match l with
  | [] => (count, app_idxs)
  | app :: l' =>
      if app_idx app =? BT_MESH_KEY_UNUSED then
        bt_mesh_app_keys_get_loop l' net app_idxs max skip count
      else if negb (net =? BT_MESH_KEY_ANY) && negb (net_idx app =? net) then
        bt_mesh_app_keys_get_loop l' net app_idxs max skip count
      else if negb (skip =? 0) then
        bt_mesh_app_keys_get_loop l' net app_idxs max (skip - 1) count
      else if count >=? max then (- ENOMEM, app_idxs)
      else
        bt_mesh_app_keys_get_loop l' net
          (<[Z.to_nat count := app_idx app]> app_idxs) max skip (count + 1)
  end.

Definition bt_mesh_app_keys_get (st : mesh_state) (net : Z) (app_idxs : list Z)
    (max skip : Z) : Z * list Z :=
  bt_mesh_app_keys_get_loop (apps st) net app_idxs max skip 0.

Definition bt_mesh_app_keys_reset_step (st : mesh_state) (i : nat) : mesh_state :=
  match apps st !! i with
  | None => st
  | Some app =>
      if negb (app_idx app =? BT_MESH_KEY_UNUSED) then app_key_del i st else st
  end.

Definition bt_mesh_app_keys_reset (st : mesh_state) : mesh_state :=
  fold_left bt_mesh_app_keys_reset_step (seq 0 (length (apps st))) st.

(** ** Resolver *)

(** The targets of the [const uint8_t *] that [bt_mesh_keys_resolve] hands
    back through [app_key]. *)
Inductive key_ptr :=
| ptr_cdb_dev_key (addr : Z)           (* bt_mesh_cdb_node_get(addr)->dev_key *)
| ptr_local_dev_key                    (* bt_mesh.dev_key *)
| ptr_app_key_val (app : nat) (gen : nat).   (* apps[app].keys[gen].val *)

(** The credential [apps[app].keys[gen]]. *)
Definition app_cred (st : mesh_state) (app gen : nat) : option bt_mesh_app_cred :=
  match apps st !! app with
  | None => None
  | Some a =>
      match gen with
      | O => Some (keys0 a)
      | 1%nat => Some (keys1 a)
      | _ => None
      end
  end.

(** The 16 bytes a [key_ptr] points to. *)
Definition key_at (st : mesh_state) (p : key_ptr) : option (list Z) :=
  match p with
  | ptr_cdb_dev_key addr => dev_key <$> bt_mesh_cdb_node_get addr
  | ptr_local_dev_key => Some bt_mesh_dev_key
  | ptr_app_key_val app gen => cred_val <$> app_cred st app gen
  end.

(** The out-parameters [*sub], [*app_key] and [*aid]: their content before
    the call goes in, their content after the call comes out. *)
Record resolve_out := {
  out_sub : option bt_mesh_subnet;
  out_app_key : option key_ptr;
  out_aid : Z
}.

Definition bt_mesh_keys_resolve (st : mesh_state) (ctx : bt_mesh_msg_ctx)
    (o : resolve_out) : Z * resolve_out :=
  if BT_MESH_IS_DEV_KEY (ctx_app_idx ctx) then
    let sub := bt_mesh_subnet_get (ctx_net_idx ctx) in
    let o1 := {| out_sub := sub; out_app_key := out_app_key o; out_aid := out_aid o |} in
    match sub with
    | None => (- EINVAL, o1)
    | Some _ =>
        if (ctx_app_idx ctx =? BT_MESH_KEY_DEV_REMOTE)
           && negb (bt_mesh_has_addr (ctx_addr ctx)) then
          if negb CONFIG_BT_MESH_CDB then (- EINVAL, o1)
          else
            match bt_mesh_cdb_node_get (ctx_addr ctx) with
            | None => (- EINVAL, o1)
            | Some _ =>
                (0, {| out_sub := sub;
                       out_app_key := Some (ptr_cdb_dev_key (ctx_addr ctx));
                       out_aid := 0 |})
            end
        else
          (0, {| out_sub := sub; out_app_key := Some ptr_local_dev_key; out_aid := 0 |})
    end
  else
    match app_get st (ctx_app_idx ctx) with
    | None => (- EINVAL, o)
    | Some app =>
        match apps st !! app with
        | None => (- EINVAL, o)
        | Some a =>
            let sub := bt_mesh_subnet_get (net_idx a) in
            let o1 := {| out_sub := sub; out_app_key := out_app_key o; out_aid := out_aid o |} in
            match sub with
            | None => (- EINVAL, o1)
            | Some s =>
                if (kr_phase s =? BT_MESH_KR_PHASE_2) && updated a then
                  (0, {| out_sub := sub;
                         out_app_key := Some (ptr_app_key_val app 1);
                         out_aid := cred_id (keys1 a) |})
                else
                  (0, {| out_sub := sub;
                         out_app_key := Some (ptr_app_key_val app 0);
                         out_aid := cred_id (keys0 a) |})
            end
        end
    end.

Definition is_net_if_local (i : bt_mesh_net_if) : bool :=
  match i with BT_MESH_NET_IF_LOCAL => true | _ => false end.

Section Find.
(** The caller's callback with what it may change ([cb_data], the receive
    buffers) as a state of type [D]: it gets the candidate key and returns
    its error code. The loop reads [rx->sub->net_idx] and [rx->new_key]
    again in every round; the callback is taken not to store to them. *)
Context {D : Type} (cb : D -> list Z -> Z * D).

(** The app-key loop of [bt_mesh_app_key_find]. *)
Fixpoint bt_mesh_app_key_find_loop (l : list app_key) (aid : Z)
    (rx : bt_mesh_net_rx) (s : D) : Z * D :=
  match l with
  | [] => (BT_MESH_KEY_UNUSED, s)
  | app :: l' =>
      if app_idx app =? BT_MESH_KEY_UNUSED then
        bt_mesh_app_key_find_loop l' aid rx s
      else if negb (net_idx app =? sub_net_idx (rx_sub rx)) then
        bt_mesh_app_key_find_loop l' aid rx s
      else
        let cred := if rx_new_key rx && updated app then keys1 app else keys0 app in
        if negb (cred_id cred =? aid) then
          bt_mesh_app_key_find_loop l' aid rx s
        else
          let (err, s') := cb s (cred_val cred) in
          if negb (err =? 0) then bt_mesh_app_key_find_loop l' aid rx s'
          else (app_idx app, s')
  end.

Definition bt_mesh_app_key_find (st : mesh_state) (is_dev_key : bool) (aid : Z)
    (rx : bt_mesh_net_rx) (s : D) : Z * D :=
  if is_dev_key then
    let local (s1 : D) : Z * D :=
      if BT_MESH_ADDR_IS_UNICAST (ctx_recv_dst (rx_ctx rx)) then
        let (err, s2) := cb s1 bt_mesh_dev_key in
        if negb (err =? 0) then (BT_MESH_KEY_UNUSED, s2)
        else (BT_MESH_KEY_DEV_LOCAL, s2)
      else (BT_MESH_KEY_UNUSED, s1) in
    if CONFIG_BT_MESH_CDB && negb (is_net_if_local (rx_net_if rx)) then
      match bt_mesh_cdb_node_get (ctx_addr (rx_ctx rx)) with
      | None => local s
      | Some node =>
          let (err, s1) := cb s (dev_key node) in
          if negb (err =? 0) then local s1 else (BT_MESH_KEY_DEV_REMOTE, s1)
      end
    else local s
  else bt_mesh_app_key_find_loop (apps st) aid rx s.

End Find.

End AppKeys.

(** ** Predicates of the statements *)

Section Predicates.
Context `{M : Mesh}.

(** The slot is in use. *)
Definition in_use (a : app_key) : bool := negb (app_idx a =? BT_MESH_KEY_UNUSED).

(** The slot is in use and bound to the subnet [net]. *)
Definition bound_to (net : Z) (a : app_key) : bool :=
  in_use a && (net_idx a =? net).

(** What [app_key_del] leaves in a slot that held [a]. *)
Definition deleted_slot (a : app_key) : app_key :=
  {| net_idx := BT_MESH_KEY_UNUSED; app_idx := BT_MESH_KEY_UNUSED;
     updated := updated a; keys0 := cred_zero; keys1 := cred_zero |}.

(** What [app_key_revoke] leaves in a slot that held an updated [a]. *)
Definition revoked_slot (a : app_key) : app_key :=
  {| net_idx := net_idx a; app_idx := app_idx a;
     updated := false; keys0 := keys1 a; keys1 := cred_zero |}.

(** The listener calls of one [app_key_evt]. *)
Definition key_evts_of (a : app_key) (evt : bt_mesh_key_evt) : list effect :=
  app_key_evt_loop bt_mesh_app_key_cb_list 0%nat (app_idx a) (net_idx a) evt.

(** What the DELETED round does to one slot, and whom it notifies. *)
Definition cascade_slot (net : Z) (a : app_key) : app_key :=
  if bound_to net a then deleted_slot a else a.

Definition cascade_evts (net : Z) (a : app_key) : list effect :=
  if bound_to net a then key_evts_of a BT_MESH_KEY_DELETED else [].

(** At most one slot in use per AppKey index. *)
Definition unique_app_idx (l : list app_key) : Prop :=
  forall i j a b,
    l !! i = Some a -> l !! j = Some b ->
    in_use a = true -> app_idx a = app_idx b -> i = j.

(** Every slot in use is bound to a subnet that [get] knows. *)
Definition bound_subnets_exist (get : Z -> option bt_mesh_subnet)
    (l : list app_key) : Prop :=
  forall i a, l !! i = Some a -> in_use a = true -> is_Some (get (net_idx a)).

(** At most one valid tracker entry per key index. *)
Definition unique_key_idx (l : list app_key_update) : Prop :=
  forall i j u v,
    l !! i = Some u -> l !! j = Some v ->
    valid u = true -> valid v = true -> key_idx u = key_idx v -> i = j.

(** The slots [bt_mesh_app_keys_get] counts for the filter [net]. *)
Definition listed (net : Z) (a : app_key) : bool :=
  in_use a && ((net =? BT_MESH_KEY_ANY) || (net_idx a =? net)).

(** The credential the receive path selects in a record. *)
Definition rx_cred (rx : bt_mesh_net_rx) (a : app_key) : bt_mesh_app_cred :=
  if rx_new_key rx && updated a then keys1 a else keys0 a.

(** The records the receive path tries for [aid]. *)
Definition rx_candidate (aid : Z) (rx : bt_mesh_net_rx) (a : app_key) : bool :=
  bound_to (sub_net_idx (rx_sub rx)) a && (cred_id (rx_cred rx a) =? aid).

(** The receive path as the specification words it: the callback is tried
    on the candidates in table order until it accepts one. *)
Fixpoint try_candidates {D : Type} (cb : D -> list Z -> Z * D)
    (cands : list app_key) (rx : bt_mesh_net_rx) (s : D) : Z * D :=
  match cands with
  | [] => (BT_MESH_KEY_UNUSED, s)
  | a :: rest =>
      let (err, s') := cb s (cred_val (rx_cred rx a)) in
      if err =? 0 then (app_idx a, s') else try_candidates cb rest rx s'
  end.

End Predicates.

Definition is_key_evt (e : effect) : bool :=
  match e with KeyEvt _ _ _ _ => true | _ => false end.

(** The listener calls in a trace. *)
Definition key_evts (t : list effect) : list effect := List.filter is_key_evt t.

(** ** A concrete configuration for the examples *)

Definition sample_subnets : list bt_mesh_subnet :=
  [ {| sub_net_idx := 0; kr_phase := 0 |};
    {| sub_net_idx := 1; kr_phase := 1 |};
    {| sub_net_idx := 2; kr_phase := 2 |} ].

Fixpoint sample_subnet_get (l : list bt_mesh_subnet) (n : Z) : option bt_mesh_subnet :=
  match l with
  | [] => None
  | s :: l' => if sub_net_idx s =? n then Some s else sample_subnet_get l' n
  end.

(** A stand-in for the AID derivation: it fails on a key that starts with
    255 and otherwise keeps six bits of the first byte. *)
Definition sample_app_id (key : list Z) (out : Z) : Z * Z :=
  match key with
  | [] => (- EINVAL, out)
  | b :: _ => if b =? 255 then (- EIO, out) else (0, Z.land b 63)
  end.

Definition sample_mesh : Mesh :=
  {| BT_MESH_KEY_UNUSED := 65535;
     BT_MESH_KEY_ANY := 65535;
     BT_MESH_KEY_DEV_LOCAL := 65534;
     BT_MESH_KEY_DEV_REMOTE := 65533;
     BT_MESH_KR_PHASE_1 := 1;
     BT_MESH_KR_PHASE_2 := 2;
     BT_MESH_IS_DEV_KEY := fun k => (k =? 65534) || (k =? 65533);
     BT_MESH_ADDR_IS_UNICAST := fun a => negb (a =? 0) && (a <? 32768);
     CONFIG_BT_MESH_APP_KEY_COUNT := 4;
     CONFIG_BT_SETTINGS := true;
     BLE_MESH_SETTINGS := true;
     CONFIG_BT_MESH_CDB := false;
     bt_mesh_app_key_cb_list := [true];
     bt_mesh_subnet_get := sample_subnet_get sample_subnets;
     bt_mesh_app_id := sample_app_id;
     bt_mesh_has_addr := fun a => a =? 1;
     bt_mesh_cdb_node_get := fun _ => None;
     bt_mesh_dev_key := replicate 16 0 |}.

(** The same configuration with another subnet table. *)
Definition sample_mesh_subnets (l : list bt_mesh_subnet) : Mesh :=
  {| BT_MESH_KEY_UNUSED := 65535;
     BT_MESH_KEY_ANY := 65535;
     BT_MESH_KEY_DEV_LOCAL := 65534;
     BT_MESH_KEY_DEV_REMOTE := 65533;
     BT_MESH_KR_PHASE_1 := 1;
     BT_MESH_KR_PHASE_2 := 2;
     BT_MESH_IS_DEV_KEY := fun k => (k =? 65534) || (k =? 65533);
     BT_MESH_ADDR_IS_UNICAST := fun a => negb (a =? 0) && (a <? 32768);
     CONFIG_BT_MESH_APP_KEY_COUNT := 4;
     CONFIG_BT_SETTINGS := true;
     BLE_MESH_SETTINGS := true;
     CONFIG_BT_MESH_CDB := false;
     bt_mesh_app_key_cb_list := [true];
     bt_mesh_subnet_get := sample_subnet_get l;
     bt_mesh_app_id := sample_app_id;
     bt_mesh_has_addr := fun a => a =? 1;
     bt_mesh_cdb_node_get := fun _ => None;
     bt_mesh_dev_key := replicate 16 0 |}.

Definition unused_slot : app_key :=
  {| net_idx := 65535; app_idx := 65535; updated := false;
     keys0 := cred_zero; keys1 := cred_zero |}.

Definition free_update : app_key_update :=
  {| key_idx := 0; valid := false; clear := false |}.

Definition key_of (b : Z) : list Z := replicate 16 b.

(** A record holding [k0] (and [k1] when [upd]) with the AIDs of the
    stand-in derivation. *)
Definition sample_key (app net : Z) (upd : bool) (k0 k1 : Z) : app_key :=
  {| net_idx := net; app_idx := app; updated := upd;
     keys0 := {| cred_id := Z.land k0 63; cred_val := key_of k0 |};
     keys1 := if upd then {| cred_id := Z.land k1 63; cred_val := key_of k1 |}
              else cred_zero |}.

Definition sample_state (l : list app_key) (u : list app_key_update) : mesh_state :=
  {| apps := l; app_key_updates := u; subnet_cb_0 := Some cb_subnet_evt; trace := [] |}.

(** The arrays as the program starts with them, [n] slots each. *)
Definition sample_init (n : nat) : mesh_state := @init_state sample_mesh n.

(** A callback that accepts the key [accept] only and counts its calls. *)
Definition sample_cb (accept : list Z) (calls : nat) (key : list Z) : Z * nat :=
  if decide (key = accept) then (0, S calls) else (- 1, S calls).

Definition sample_rx (net : Z) (new_key : bool) : bt_mesh_net_rx :=
  {| rx_sub := {| sub_net_idx := net; kr_phase := 0 |};
     rx_ctx := {| ctx_net_idx := net; ctx_app_idx := 0; ctx_addr := 5; ctx_recv_dst := 1 |};
     rx_new_key := new_key;
     rx_net_if := BT_MESH_NET_IF_ADV |}.

(** ** Records left by the successful operations *)

Section Outcomes.
Context `{M : Mesh}.

(** What Add writes into the slot [a] it takes. *)
Definition added_slot (idx net id0 : Z) (key : list Z) (a : app_key) : app_key :=
  {| net_idx := net; app_idx := idx; updated := false;
     keys0 := {| cred_id := id0; cred_val := memcpy (cred_val (keys0 a)) key 16 |};
     keys1 := keys1 a |}.

(** What Update makes of the record [a]. *)
Definition updated_slot (id1 : Z) (key : list Z) (a : app_key) : app_key :=
  {| net_idx := net_idx a; app_idx := app_idx a; updated := true;
     keys0 := keys0 a;
     keys1 := {| cred_id := id1; cred_val := memcpy (cred_val (keys1 a)) key 16 |} |}.

(** What the restore operation writes into the slot [a] it takes; [new] is
    the new key with its AID, if there is one. *)
Definition restored_slot (idx net id0 : Z) (old_key : list Z)
    (new : option (Z * list Z)) (a : app_key) : app_key :=
  {| net_idx := net; app_idx := idx;
     updated := bool_decide (is_Some new);
     keys0 := {| cred_id := id0; cred_val := memcpy (cred_val (keys0 a)) old_key 16 |};
     keys1 := match new with
              | Some (id1, nk) =>
                  {| cred_id := id1; cred_val := memcpy (cred_val (keys1 a)) nk 16 |}
              | None => keys1 a
              end |}.

(** What the REVOKED round does to one slot, and whom it notifies. *)
Definition revoke_round_slot (net : Z) (a : app_key) : app_key :=
  if bound_to net a && updated a then revoked_slot a else a.

Definition revoke_round_evts (net : Z) (a : app_key) : list effect :=
  if bound_to net a && updated a then key_evts_of a BT_MESH_KEY_REVOKED else [].

(** Whom the SWAPPED round notifies for one slot. *)
Definition swap_round_evts (net : Z) (a : app_key) : list effect :=
  if bound_to net a && updated a then key_evts_of a BT_MESH_KEY_SWAPPED else [].

(** What the reset does to one slot, and whom it notifies. *)
Definition reset_slot (a : app_key) : app_key :=
  if in_use a then deleted_slot a else a.

Definition reset_evts (a : app_key) : list effect :=
  if in_use a then key_evts_of a BT_MESH_KEY_DELETED else [].

(** The settings call the flush makes for one tracker entry, the table
    being [l]. *)
Definition flush_call (l : list app_key) (u : app_key_update) : list effect :=
  if valid u then
    if clear u then [SettingsSaveOne (key_idx u) None]
    else
      match app_get_loop l 0%nat (key_idx u) with
      | None => []
      | Some i =>
          match l !! i with
          | None => []
          | Some app => [SettingsSaveOne (key_idx u) (Some (app_key_val_of app))]
          end
      end
  else [].

(** A tracker entry after the flush. *)
Definition flushed (u : app_key_update) : app_key_update :=
  {| key_idx := key_idx u; valid := false; clear := clear u |}.

(** Every key in the table has its sixteen bytes. *)
Definition keys_16 (l : list app_key) : Prop :=
  forall i a, l !! i = Some a ->
    length (cred_val (keys0 a)) = 16%nat /\ length (cred_val (keys1 a)) = 16%nat.

End Outcomes.

(** The two arrays have the sizes they had. *)
Definition same_size (st st' : mesh_state) : Prop :=
  length (apps st') = length (apps st) /\
  length (app_key_updates st') = length (app_key_updates st).

(** Every record in use in [l'] is, in the same slot of [l], a record in
    use with the same binding. *)
Definition keeps_records `{M : Mesh} (l l' : list app_key) : Prop :=
  forall i a', l' !! i = Some a' -> in_use a' = true ->
    exists a, l !! i = Some a /\ in_use a = true /\ net_idx a = net_idx a'.

(** ** Hex digits (host/src/ble_uuid.c)

    A [char] is its code, a [const char *] is the list of the characters
    from the pointer on, up to the terminating NUL, which is not in the
    list. *)

Section Hex.
(** [BLE_HS_EINVAL], from the host header. *)
Variable BLE_HS_EINVAL : Z.

(** [hex2val c value]: the return code and the content of [*value]
    afterwards, given its content before. 48 is ['0'], 57 is ['9'], 97 is
    ['a'], 102 is ['f'], 65 is ['A'], 70 is ['F']. *)
Definition hex2val (c : Z) (value : Z) : Z * Z :=
  if (c >=? 48) && (c <=? 57) then (0, c - 48)
  else if (c >=? 97) && (c <=? 102) then (0, c - 97 + 10)
  else if (c >=? 65) && (c <=? 70) then (0, c - 65 + 10)
  else (BLE_HS_EINVAL, value).

(** The loop of [hex2bin]; [tmp_val] and [len] are the locals of these
    names, and the result is the return value with the content of [bin]
    afterwards. *)
Fixpoint hex2bin_loop (hex : list Z) (bin : list Z) (bin_len : Z)
    (tmp_val len : Z) : Z * list Z :=
  match hex with
  | [] => (len, bin)
  | c1 :: hex1 =>
      if (c1 =? 0) || negb (len <? bin_len) then (len, bin)
      else
        let (rc1, tmp1) := hex2val c1 tmp_val in
        if negb (rc1 =? 0) then (0, bin)
        else
          let bin1 := <[Z.to_nat len := Z.land (Z.shiftl tmp1 4) 255]> bin in
          match hex1 with
          | [] => (len + 1, bin1)
          | c2 :: hex2 =>
              if c2 =? 0 then (len + 1, bin1)
              else
                let (rc2, tmp2) := hex2val c2 tmp1 in
                if negb (rc2 =? 0) then (0, bin1)
                else
                  let bin2 :=
                    <[Z.to_nat len :=
                        Z.lor (default 0 (bin1 !! Z.to_nat len)) tmp2]> bin1 in
                  hex2bin_loop hex2 bin2 bin_len tmp2 (len + 1)
          end
  end.

(** [tmp_val] is not initialized; it is read only after [hex2val] has
    written it. *)
Definition hex2bin (hex : list Z) (bin : list Z) (bin_len : Z) : Z * list Z :=
  hex2bin_loop hex bin bin_len 0 0.

End Hex.

(** The digit that ["%x"] prints for a value below 16. *)
Definition hex_digit (v : Z) : Z := if v <? 10 then 48 + v else 87 + v.

(** What ["%02x"] prints for a byte. *)
Definition print_02x (b : Z) : list Z := [hex_digit (b / 16); hex_digit (b mod 16)].

(** The code is that of a hexadecimal digit. *)
Definition is_hex_digit (c : Z) : bool :=
  ((c >=? 48) && (c <=? 57)) || ((c >=? 97) && (c <=? 102)) || ((c >=? 65) && (c <=? 70)).

(** ** Key table lookups *)

Section Lookups.
Context `{M : Mesh}.

Lemma app_get_loop_Some l i idx j :
  app_get_loop l i idx = Some j ->
  exists a, (i <= j)%nat /\ l !! (j - i)%nat = Some a /\ app_idx a = idx /\
    forall k b, (k < j - i)%nat -> l !! k = Some b -> app_idx b <> idx.
Proof.
  revert i. induction l as [|x l IH]; intros i H; simpl in H; [discriminate|].
  destruct (app_idx x =? idx) eqn:E.
  - injection H as <-. exists x. rewrite Nat.sub_diag. apply Z.eqb_eq in E.
    repeat split; auto. intros k b Hk. lia.
  - apply IH in H as (a & Hle & Hl & Ha & Hmin). exists a.
    replace (j - i)%nat with (S (j - S i)) by lia.
    repeat split; auto; [lia|].
    intros [|k] b Hk Hb; simpl in Hb.
    + injection Hb as <-. apply Z.eqb_neq in E. exact E.
    + apply (Hmin k b); [lia|exact Hb].
Qed.

Lemma app_get_loop_None l i idx :
  app_get_loop l i idx = None <-> (forall k b, l !! k = Some b -> app_idx b <> idx).
Proof.
  revert i. induction l as [|x l IH]; intros i; simpl.
  - split; [intros _ k b Hb; discriminate|reflexivity].
  - destruct (app_idx x =? idx) eqn:E.
    + split; [discriminate|]. intros H. exfalso.
      apply (H 0%nat x); [reflexivity|]. apply Z.eqb_eq in E. exact E.
    + rewrite IH. apply Z.eqb_neq in E. split.
      * intros H [|k] b Hb; simpl in Hb; [injection Hb as <-; exact E|eauto].
      * intros H k b Hb. apply (H (S k) b). exact Hb.
Qed.

Lemma app_get_Some st idx j :
  app_get st idx = Some j ->
  exists a, apps st !! j = Some a /\ app_idx a = idx /\
    forall k b, (k < j)%nat -> apps st !! k = Some b -> app_idx b <> idx.
Proof.
  intros H. apply app_get_loop_Some in H as (a & _ & Hl & Ha & Hmin).
  rewrite Nat.sub_0_r in Hl, Hmin. exists a. auto.
Qed.

Lemma exists_loop_false l idx :
  bt_mesh_app_key_exists_loop l idx = false <->
  (forall k b, l !! k = Some b -> app_idx b <> idx).
Proof.
  induction l as [|x l IH]; simpl.
  - split; [intros _ k b Hb; discriminate|reflexivity].
  - destruct (app_idx x =? idx) eqn:E.
    + split; [discriminate|]. intros H. exfalso.
      apply (H 0%nat x); [reflexivity|]. apply Z.eqb_eq in E. exact E.
    + rewrite IH. apply Z.eqb_neq in E. split.
      * intros H [|k] b Hb; simpl in Hb; [injection Hb as <-; exact E|eauto].
      * intros H k b Hb. apply (H (S k) b). exact Hb.
Qed.

(** [Exists] is false exactly when [app_get] finds nothing. *)
Lemma exists_false_app_get st idx :
  bt_mesh_app_key_exists st idx = false <-> app_get st idx = None.
Proof.
  unfold bt_mesh_app_key_exists, app_get.
  rewrite exists_loop_false, app_get_loop_None. reflexivity.
Qed.

(** [Exists] only reads the [app_idx] fields. *)
Lemma exists_loop_ext l l' idx :
  map app_idx l = map app_idx l' ->
  bt_mesh_app_key_exists_loop l idx = bt_mesh_app_key_exists_loop l' idx.
Proof.
  revert l'. induction l as [|x l IH]; intros [|y l'] H; simpl in *;
    try discriminate; [reflexivity|].
  injection H as Hx Hl. rewrite Hx, (IH l' Hl). reflexivity.
Qed.

(** With an existing record, [app_key_alloc] finds what [app_get] finds. *)
Lemma app_key_alloc_loop_found l i app idx j :
  app_get_loop l i idx = Some j -> app_key_alloc_loop l i app idx = Some j.
Proof.
  revert i app. induction l as [|x l IH]; intros i app H; simpl in *; [discriminate|].
  destruct (app_idx x =? idx); [exact H|]. apply IH. exact H.
Qed.

Lemma app_key_alloc_found st idx j :
  app_get st idx = Some j -> app_key_alloc st idx = Some j.
Proof. apply app_key_alloc_loop_found. Qed.

(** Without one, it returns a slot that is not in use, if it returns one. *)
Lemma app_key_alloc_loop_fresh l i app idx j :
  app_get_loop l i idx = None ->
  app_key_alloc_loop l i app idx = Some j ->
  app = Some j \/
  (app = None /\ exists a, (i <= j)%nat /\ l !! (j - i)%nat = Some a /\
                           app_idx a = BT_MESH_KEY_UNUSED /\ app_idx a <> idx).
Proof.
  revert i app. induction l as [|x l IH]; intros i app Hg H; simpl in *.
  - left. exact H.
  - destruct (app_idx x =? idx) eqn:E; [discriminate|].
    apply IH in H; [|exact Hg]. destruct app as [p|].
    + destruct H as [H|[H _]]; [left; exact H|discriminate].
    + destruct (app_idx x =? BT_MESH_KEY_UNUSED) eqn:U.
      * destruct H as [H|[H _]]; [|discriminate]. injection H as <-.
        right. split; [reflexivity|]. exists x. rewrite Nat.sub_diag.
        apply Z.eqb_eq in U. apply Z.eqb_neq in E. auto.
      * destruct H as [H|[_ (a & Hle & Hl & Hu & Hn)]]; [discriminate|].
        right. split; [reflexivity|]. exists a.
        replace (j - i)%nat with (S (j - S i)) by lia. simpl.
        repeat split; auto. lia.
Qed.

Lemma app_key_alloc_fresh st idx j :
  app_get st idx = None -> app_key_alloc st idx = Some j ->
  exists a, apps st !! j = Some a /\ app_idx a = BT_MESH_KEY_UNUSED /\ app_idx a <> idx.
Proof.
  intros Hg H. apply app_key_alloc_loop_fresh in H; [|exact Hg].
  destruct H as [H|[_ (a & _ & Hl & Hu & Hn)]]; [discriminate|].
  rewrite Nat.sub_0_r in Hl. eauto.
Qed.

End Lookups.

(** ** Update: the phase gate *)

Section Update.
Context `{M : Mesh}.

(** C1, amended. For a record found under [idx] whose bound subnet exists:
    Update succeeds only when the subnet is in Key Refresh Phase 1; in every
    other phase it leaves the whole state (so the record: both key
    generations, AIDs, updated flag and binding) as it was, and the status
    is cannot-update when [net] is the unused index or the bound NetKey
    index, and invalid-binding when [net] names another NetKey index. *)
Theorem update_phase_gate idx net key st app a sub :
  app_get st idx = Some app ->
  apps st !! app = Some a ->
  bt_mesh_subnet_get (net_idx a) = Some sub ->
  (fst (bt_mesh_app_key_update idx net key st) = STATUS_SUCCESS ->
     kr_phase sub = BT_MESH_KR_PHASE_1) /\
  (kr_phase sub <> BT_MESH_KR_PHASE_1 ->
     snd (bt_mesh_app_key_update idx net key st) = st /\
     (net = BT_MESH_KEY_UNUSED \/ net = net_idx a ->
        fst (bt_mesh_app_key_update idx net key st) = STATUS_CANNOT_UPDATE) /\
     (net <> BT_MESH_KEY_UNUSED -> net <> net_idx a ->
        fst (bt_mesh_app_key_update idx net key st) = STATUS_INVALID_BINDING)).
Proof.
  intros Hget Ha Hsub. unfold bt_mesh_app_key_update.
  rewrite Hget, Ha, Hsub.
  destruct (Z.eqb_spec net BT_MESH_KEY_UNUSED) as [Eu|Eu];
    destruct (Z.eqb_spec (net_idx a) net) as [En|En]; simpl;
    destruct (Z.eqb_spec (kr_phase sub) BT_MESH_KR_PHASE_1) as [Ep|Ep]; simpl;
    split; try (intros _; exact Ep); try discriminate; try contradiction;
    intros _; (split; [reflexivity|]); split; intros; try reflexivity;
    try congruence; intuition congruence.
Qed.

End Update.

Lemma update_phase_gate_witness :
  let st := sample_state [sample_key 1 0 false 7 0] [free_update] in
  @bt_mesh_app_key_update sample_mesh 1 0 (key_of 9) st = (STATUS_CANNOT_UPDATE, st).
Proof.
  intros st.
  pose proof (@update_phase_gate sample_mesh 1 0 (key_of 9) st 0%nat
                (sample_key 1 0 false 7 0) {| sub_net_idx := 0; kr_phase := 0 |}
                eq_refl eq_refl eq_refl) as [_ H].
  assert (Hp : (0 : Z) <> 1) by lia.
  destruct (H Hp) as (Hs & Hc & _).
  rewrite (surjective_pairing (bt_mesh_app_key_update 1 0 (key_of 9) st)).
  rewrite Hs, (Hc (or_intror eq_refl)). reflexivity.
Defined.

(** C1 as stated fails: the record 1 is bound to the existing subnet 0,
    which is not in Phase 1, and Update with the NetKey index 2 answers
    invalid-binding, not cannot-update. *)
Lemma update_phase_gate_as_stated_fails :
  let st := sample_state [sample_key 1 0 false 7 0] [free_update] in
  app_get st 1 = Some 0%nat /\
  @bt_mesh_subnet_get sample_mesh 0 = Some {| sub_net_idx := 0; kr_phase := 0 |} /\
  (0 : Z) <> @BT_MESH_KR_PHASE_1 sample_mesh /\
  @bt_mesh_app_key_update sample_mesh 1 2 (key_of 9) st = (STATUS_INVALID_BINDING, st) /\
  fst (@bt_mesh_app_key_update sample_mesh 1 2 (key_of 9) st) <> STATUS_CANNOT_UPDATE.
Proof.
  repeat split; try reflexivity; simpl; [lia|discriminate].
Qed.

(** ** Outbound resolution *)

Section Resolve.
Context `{M : Mesh}.

(** C2. For an AppKey index that is not a device-key index, whose record
    is found and whose bound subnet exists, [bt_mesh_keys_resolve] succeeds
    and hands back a pointer to the key of one generation of that record
    together with the AID of the same generation; the generation is 1
    exactly when the subnet is in Key Refresh Phase 2 and the record is
    updated, and it is 0 otherwise. *)
Theorem keys_resolve_generation st ctx o app a sub :
  BT_MESH_IS_DEV_KEY (ctx_app_idx ctx) = false ->
  app_get st (ctx_app_idx ctx) = Some app ->
  apps st !! app = Some a ->
  bt_mesh_subnet_get (net_idx a) = Some sub ->
  exists gen c,
    bt_mesh_keys_resolve st ctx o =
      (0, {| out_sub := Some sub;
             out_app_key := Some (ptr_app_key_val app gen);
             out_aid := cred_id c |}) /\
    app_cred st app gen = Some c /\
    key_at st (ptr_app_key_val app gen) = Some (cred_val c) /\
    (gen = 1%nat <-> kr_phase sub = BT_MESH_KR_PHASE_2 /\ updated a = true) /\
    (gen = 0%nat <-> ~ (kr_phase sub = BT_MESH_KR_PHASE_2 /\ updated a = true)) /\
    (gen = 1%nat -> c = keys1 a) /\
    (gen = 0%nat -> c = keys0 a).
Proof.
  intros Hdev Hget Ha Hsub. unfold bt_mesh_keys_resolve.
  rewrite Hdev, Hget, Ha, Hsub.
  destruct (Z.eqb_spec (kr_phase sub) BT_MESH_KR_PHASE_2) as [Ep|Ep];
    destruct (updated a) eqn:Eu; simpl.
  - exists 1%nat, (keys1 a). unfold app_cred. rewrite Ha. simpl.
    repeat split; intuition (try discriminate; congruence).
  - exists 0%nat, (keys0 a). unfold app_cred. rewrite Ha. simpl.
    repeat split; intuition (try discriminate; congruence).
  - exists 0%nat, (keys0 a). unfold app_cred. rewrite Ha. simpl.
    repeat split; intuition (try discriminate; congruence).
  - exists 0%nat, (keys0 a). unfold app_cred. rewrite Ha. simpl.
    repeat split; intuition (try discriminate; congruence).
Qed.

End Resolve.

Lemma keys_resolve_generation_witness :
  let st := sample_state [sample_key 1 2 true 7 9] [free_update] in
  let ctx := {| ctx_net_idx := 0; ctx_app_idx := 1; ctx_addr := 5; ctx_recv_dst := 0 |} in
  let o := {| out_sub := None; out_app_key := None; out_aid := 0 |} in
  exists gen c,
    @bt_mesh_keys_resolve sample_mesh st ctx o =
      (0, {| out_sub := Some {| sub_net_idx := 2; kr_phase := 2 |};
             out_app_key := Some (ptr_app_key_val 0 gen);
             out_aid := cred_id c |}) /\
    gen = 1%nat /\ cred_val c = key_of 9.
Proof.
  intros st ctx o.
  destruct (@keys_resolve_generation sample_mesh st ctx o 0%nat
              (sample_key 1 2 true 7 9) {| sub_net_idx := 2; kr_phase := 2 |}
              eq_refl eq_refl eq_refl eq_refl)
    as (gen & c & Hr & _ & _ & Hg & _ & Hc & _).
  exists gen, c. split; [exact Hr|].
  assert (Hgen : gen = 1%nat) by (apply Hg; split; reflexivity).
  split; [exact Hgen|]. rewrite (Hc Hgen). reflexivity.
Defined.

(** ** Delete of an unknown index *)

Section Delete.
Context `{M : Mesh}.

(** C7, amended. For an AppKey index that is not in the table, Delete
    changes nothing (no table slot, no tracker slot, no event); it answers
    success when [net] is the unused index or names an existing subnet,
    and invalid-netkey when [net] names a subnet that does not exist. *)
Theorem del_unknown idx net st :
  bt_mesh_app_key_exists st idx = false ->
  snd (bt_mesh_app_key_del idx net st) = st /\
  (net = BT_MESH_KEY_UNUSED \/ is_Some (bt_mesh_subnet_get net) ->
     fst (bt_mesh_app_key_del idx net st) = STATUS_SUCCESS) /\
  (net <> BT_MESH_KEY_UNUSED -> bt_mesh_subnet_get net = None ->
     fst (bt_mesh_app_key_del idx net st) = STATUS_INVALID_NETKEY).
Proof.
  intros Hex. apply exists_false_app_get in Hex.
  unfold bt_mesh_app_key_del. rewrite Hex.
  destruct (Z.eqb_spec net BT_MESH_KEY_UNUSED) as [Eu|Eu]; simpl.
  - repeat split; auto. intros H. contradiction.
  - destruct (bt_mesh_subnet_get net) as [s|] eqn:Es.
    + rewrite bool_decide_eq_true_2 by eauto. simpl.
      repeat split; auto. discriminate.
    + rewrite bool_decide_eq_false_2 by (intros [x Hx]; discriminate). simpl.
      repeat split; auto. intros [H|[x Hx]]; [contradiction|discriminate].
Qed.

End Delete.

Lemma del_unknown_witness :
  let st := sample_state [sample_key 1 0 false 7 0; unused_slot] [free_update] in
  @bt_mesh_app_key_del sample_mesh 3 0 st = (STATUS_SUCCESS, st).
Proof.
  intros st.
  destruct (@del_unknown sample_mesh 3 0 st eq_refl) as (Hs & Hok & _).
  rewrite (surjective_pairing (bt_mesh_app_key_del 3 0 st)).
  rewrite Hs, Hok; [reflexivity|]. right. eexists. reflexivity.
Defined.

(** C7 as stated fails: the index 3 is not in the table, and Delete with
    the NetKey index 7, which names no subnet, answers invalid-netkey. *)
Lemma del_unknown_as_stated_fails :
  let st := sample_state [sample_key 1 0 false 7 0; unused_slot] [free_update] in
  bt_mesh_app_key_exists st 3 = false /\
  app_get st 3 = None /\
  @bt_mesh_app_key_del sample_mesh 3 7 st = (STATUS_INVALID_NETKEY, st) /\
  fst (@bt_mesh_app_key_del sample_mesh 3 7 st) <> STATUS_SUCCESS.
Proof.
  repeat split; try reflexivity. simpl. discriminate.
Qed.

(** ** Stores through a slot pointer *)

Lemma map_alter_preserve {A B : Type} (g : A -> B) (f : A -> A) (i : nat) (l : list A) :
  (forall x, g (f x) = g x) -> map g (alter f i l) = map g l.
Proof.
  intros Hf. revert i. induction l as [|x l IH]; intros [|i]; simpl; auto.
  - rewrite Hf. reflexivity.
  - f_equal. apply IH.
Qed.

Lemma store_app_app_idx app f st :
  (forall x, app_idx (f x) = app_idx x) ->
  map app_idx (apps (store_app app f st)) = map app_idx (apps st).
Proof. intros Hf. unfold store_app. simpl. apply map_alter_preserve. exact Hf. Qed.

(** ** Restore *)

Section Restore.
Context `{M : Mesh}.

(** On every path that returns an error, [bt_mesh_app_key_set] leaves the
    [app_idx] field of every slot as it was. *)
Lemma set_error_app_idx idx net old_key new_key st :
  fst (bt_mesh_app_key_set idx net old_key new_key st) <> 0 ->
  map app_idx (apps (snd (bt_mesh_app_key_set idx net old_key new_key st))) =
  map app_idx (apps st).
Proof.
  unfold bt_mesh_app_key_set.
  destruct (app_key_alloc st idx) as [app|]; [|reflexivity].
  destruct (apps st !! app) as [a|]; [|reflexivity].
  destruct (app_idx a =? idx); [simpl; congruence|].
  destruct (bt_mesh_app_id old_key (cred_id (keys0 a))) as [err0 id0].
  destruct (err0 =? 0); cbn [negb fst snd].
  2:{ intros _. rewrite !store_app_app_idx; auto. }
  destruct new_key as [nk|]; [|cbn [fst]; congruence].
  destruct (bt_mesh_app_id nk (cred_id (keys1 a))) as [err1 id1].
  destruct (err1 =? 0); cbn [negb fst snd]; [congruence|].
  intros _. rewrite !store_app_app_idx; auto.
Qed.

(** C10. When the index is not in the table and the restore operation
    returns an error, the index is still not in the table afterwards. *)
Theorem set_failure_invisible idx net old_key new_key st :
  bt_mesh_app_key_exists st idx = false ->
  fst (bt_mesh_app_key_set idx net old_key new_key st) <> 0 ->
  bt_mesh_app_key_exists (snd (bt_mesh_app_key_set idx net old_key new_key st)) idx
    = false.
Proof.
  intros Hex Herr. unfold bt_mesh_app_key_exists in *.
  rewrite (exists_loop_ext _ (apps st)); [exact Hex|].
  apply set_error_app_idx. exact Herr.
Qed.

End Restore.

(** The AID derivation fails for the new key: the key bytes of both
    generations are in the slot, and the index 4 is still unknown. *)
Lemma set_failure_invisible_witness :
  let st := sample_state [sample_key 1 0 false 7 0; unused_slot] [free_update] in
  let r := @bt_mesh_app_key_set sample_mesh 4 0 (key_of 8) (Some (key_of 255)) st in
  fst r = - EIO /\
  bt_mesh_app_key_exists (snd r) 4 = false /\
  (cred_val <$> app_cred (snd r) 1 0) = Some (key_of 8).
Proof.
  intros st r. split; [reflexivity|]. split; [|reflexivity].
  apply (@set_failure_invisible sample_mesh 4 0 (key_of 8) (Some (key_of 255)) st).
  - reflexivity.
  - simpl. discriminate.
Defined.

(** ** Add over an existing record *)

Lemma memcmp_eq (a b : list Z) (n : nat) :
  length a = n -> length b = n -> (memcmp a b n = 0 <-> a = b).
Proof.
  revert a b. induction n as [|n IH]; intros [|x a] [|y b] Ha Hb;
    simpl in *; try discriminate.
  - split; reflexivity.
  - destruct (Z.eqb_spec x y) as [->|Hxy].
    + rewrite IH by lia. split; [intros ->; reflexivity|congruence].
    + split; [lia|congruence].
Qed.

Section Add.
Context `{M : Mesh}.

(** C6, amended. When a record with the index exists, Add leaves the
    table, the tracker and the trace as they were, and its status is:
    success when the record is bound to [net] (an existing subnet) and
    holds the same generation-0 key; already-stored when it is bound to
    [net] and the key differs; invalid-netkey when it is bound to another
    NetKey index. *)
Theorem add_existing idx net key st app a :
  app_get st idx = Some app ->
  apps st !! app = Some a ->
  length key = 16%nat ->
  length (cred_val (keys0 a)) = 16%nat ->
  apps (snd (bt_mesh_app_key_add idx net key st)) = apps st /\
  app_key_updates (snd (bt_mesh_app_key_add idx net key st)) = app_key_updates st /\
  trace (snd (bt_mesh_app_key_add idx net key st)) = trace st /\
  (net_idx a = net -> is_Some (bt_mesh_subnet_get net) ->
     key = cred_val (keys0 a) ->
     fst (bt_mesh_app_key_add idx net key st) = STATUS_SUCCESS) /\
  (net_idx a = net -> is_Some (bt_mesh_subnet_get net) ->
     key <> cred_val (keys0 a) ->
     fst (bt_mesh_app_key_add idx net key st) = STATUS_IDX_ALREADY_STORED) /\
  (net_idx a <> net ->
     fst (bt_mesh_app_key_add idx net key st) = STATUS_INVALID_NETKEY).
Proof.
  intros Hget Ha Hk Hk0. unfold bt_mesh_app_key_add.
  set (st1 := match subnet_cb_0 st with
              | None => with_subnet_cb (Some cb_subnet_evt) st
              | Some _ => st
              end).
  assert (Hst1 : apps st1 = apps st /\ app_key_updates st1 = app_key_updates st /\
                 trace st1 = trace st)
    by (unfold st1; destruct (subnet_cb_0 st); auto).
  destruct Hst1 as (Hap & Hup & Htr).
  assert (Hal : app_key_alloc st1 idx = Some app).
  { apply app_key_alloc_found. unfold app_get. rewrite Hap. exact Hget. }
  assert (Hidx : app_idx a = idx).
  { apply app_get_Some in Hget as (a' & Ha' & Hi & _). congruence. }
  pose proof (memcmp_eq key (cred_val (keys0 a)) 16 Hk Hk0) as Hcmp.
  destruct (bt_mesh_subnet_get net) as [s|] eqn:Es.
  - rewrite Hal, Hap, Ha. rewrite (proj2 (Z.eqb_eq _ _) Hidx).
    destruct (Z.eqb_spec (net_idx a) net) as [En|En]; simpl.
    + destruct (Z.eqb_spec (memcmp key (cred_val (keys0 a)) 16) 0) as [Ec|Ec]; simpl;
        repeat split; auto; intros; try contradiction; try tauto.
    + repeat split; auto; intros; contradiction.
  - simpl. repeat split; auto.
    + intros _ [x Hx]. discriminate.
    + intros _ [x Hx]. discriminate.
Qed.

End Add.

Lemma add_existing_witness :
  let st := sample_state [sample_key 1 0 false 7 0; unused_slot] [free_update] in
  @bt_mesh_app_key_add sample_mesh 1 0 (key_of 7) st = (STATUS_SUCCESS, st) /\
  fst (@bt_mesh_app_key_add sample_mesh 1 0 (key_of 9) st) = STATUS_IDX_ALREADY_STORED /\
  fst (@bt_mesh_app_key_add sample_mesh 1 2 (key_of 7) st) = STATUS_INVALID_NETKEY.
Proof.
  intros st.
  pose proof (fun net key Hk =>
    @add_existing sample_mesh 1 net key st 0%nat (sample_key 1 0 false 7 0)
      eq_refl eq_refl Hk eq_refl) as H.
  split; [|split].
  - destruct (H 0 (key_of 7) eq_refl) as (_ & _ & _ & Hs & _).
    rewrite (surjective_pairing (bt_mesh_app_key_add 1 0 (key_of 7) st)).
    rewrite Hs; [reflexivity|reflexivity|eexists; reflexivity|reflexivity].
  - destruct (H 0 (key_of 9) eq_refl) as (_ & _ & _ & _ & Hs & _).
    apply Hs; [reflexivity|eexists; reflexivity|discriminate].
  - destruct (H 2 (key_of 7) eq_refl) as (_ & _ & _ & _ & _ & Hs).
    apply Hs. simpl. lia.
Defined.

(** C6 as stated fails: the record 1 is bound to the subnet 0, and Add
    with the NetKey index 2 (an existing subnet) answers invalid-netkey,
    not invalid-binding. *)
Lemma add_existing_as_stated_fails :
  let st := sample_state [sample_key 1 0 false 7 0; unused_slot] [free_update] in
  app_get st 1 = Some 0%nat /\
  @bt_mesh_subnet_get sample_mesh 2 = Some {| sub_net_idx := 2; kr_phase := 2 |} /\
  @bt_mesh_app_key_add sample_mesh 1 2 (key_of 7) st = (STATUS_INVALID_NETKEY, st) /\
  fst (@bt_mesh_app_key_add sample_mesh 1 2 (key_of 7) st) <> STATUS_INVALID_BINDING.
Proof.
  repeat split; try reflexivity. simpl. discriminate.
Qed.

(** ** Pending-write tracker *)

Lemma app_key_update_find_loop_spec l i mtch free_slot idx m' f' :
  app_key_update_find_loop l i mtch free_slot idx = (m', f') ->
  match m' with
  | Some j => mtch = Some j \/
      exists u, (i <= j)%nat /\ l !! (j - i)%nat = Some u /\
                valid u = true /\ key_idx u = idx
  | None => mtch = None /\
      forall k u, l !! k = Some u -> valid u = true -> key_idx u <> idx
  end /\
  match f' with
  | Some j => free_slot = Some j \/
      exists u, (i <= j)%nat /\ l !! (j - i)%nat = Some u /\ valid u = false
  | None => free_slot = None /\ forall k u, l !! k = Some u -> valid u = true
  end.
Proof.
  revert i mtch free_slot.
  induction l as [|x l IH]; intros i mtch free_slot H; simpl in H.
  - injection H as <- <-. split.
    + destruct mtch; [left; reflexivity|]. split; [reflexivity|]. intros k u Hk. discriminate.
    + destruct free_slot; [left; reflexivity|]. split; [reflexivity|]. intros k u Hk. discriminate.
  - assert (Hshift : forall j, (S i <= j)%nat -> (j - i)%nat = S (j - S i)) by (intros; lia).
    destruct (valid x) eqn:Ev; simpl in H.
    + destruct (Z.eqb_spec (key_idx x) idx) as [Ek|Ek].
      * apply IH in H as [Hm Hf]. split.
        -- destruct m' as [j|].
           ++ destruct Hm as [Hm|(u & Hle & Hl & Hv & Hk)].
              ** injection Hm as <-. right. exists x. rewrite Nat.sub_diag. auto.
              ** right. exists u. rewrite (Hshift j Hle). repeat split; auto. lia.
           ++ destruct Hm as [Hm _]. discriminate.
        -- destruct f' as [j|].
           ++ destruct Hf as [Hf|(u & Hle & Hl & Hv)]; [left; exact Hf|].
              right. exists u. rewrite (Hshift j Hle). repeat split; auto. lia.
           ++ destruct Hf as [Hf Hall]. split; [exact Hf|].
              intros [|k] u Hu; simpl in Hu; [congruence|eauto].
      * apply IH in H as [Hm Hf]. split.
        -- destruct m' as [j|].
           ++ destruct Hm as [Hm|(u & Hle & Hl & Hv & Hk)]; [left; exact Hm|].
              right. exists u. rewrite (Hshift j Hle). repeat split; auto. lia.
           ++ destruct Hm as [Hm Hall]. split; [exact Hm|].
              intros [|k] u Hu Hv; simpl in Hu; [congruence|eauto].
        -- destruct f' as [j|].
           ++ destruct Hf as [Hf|(u & Hle & Hl & Hv)]; [left; exact Hf|].
              right. exists u. rewrite (Hshift j Hle). repeat split; auto. lia.
           ++ destruct Hf as [Hf Hall]. split; [exact Hf|].
              intros [|k] u Hu; simpl in Hu; [congruence|eauto].
    + apply IH in H as [Hm Hf]. split.
      * destruct m' as [j|].
        -- destruct Hm as [Hm|(u & Hle & Hl & Hv & Hk)]; [left; exact Hm|].
           right. exists u. rewrite (Hshift j Hle). repeat split; auto. lia.
        -- destruct Hm as [Hm Hall]. split; [exact Hm|].
           intros [|k] u Hu Hv; simpl in Hu; [congruence|eauto].
      * destruct f' as [j|].
        -- destruct Hf as [Hf|(u & Hle & Hl & Hv)].
           ++ injection Hf as <-. right. exists x. rewrite Nat.sub_diag. auto.
           ++ right. exists u. rewrite (Hshift j Hle). repeat split; auto. lia.
        -- destruct Hf as [Hf _]. discriminate.
Qed.

(** What [app_key_update_find] returns: a valid entry for the index if
    there is one, and a slot that is not valid if there is one. *)
Lemma app_key_update_find_spec st idx m' f' :
  app_key_update_find st idx = (m', f') ->
  match m' with
  | Some j => exists u, app_key_updates st !! j = Some u /\
                        valid u = true /\ key_idx u = idx
  | None => forall k u, app_key_updates st !! k = Some u ->
                        valid u = true -> key_idx u <> idx
  end /\
  match f' with
  | Some j => exists u, app_key_updates st !! j = Some u /\ valid u = false
  | None => forall k u, app_key_updates st !! k = Some u -> valid u = true
  end.
Proof.
  intros H. apply app_key_update_find_loop_spec in H as [Hm Hf]. split.
  - destruct m' as [j|].
    + destruct Hm as [Hm|(u & _ & Hl & Hv & Hk)]; [discriminate|].
      rewrite Nat.sub_0_r in Hl. eauto.
    + apply Hm.
  - destruct f' as [j|].
    + destruct Hf as [Hf|(u & _ & Hl & Hv)]; [discriminate|].
      rewrite Nat.sub_0_r in Hl. eauto.
    + apply Hf.
Qed.

Lemma key_evts_app t1 t2 : key_evts (t1 ++ t2) = key_evts t1 ++ key_evts t2.
Proof. unfold key_evts. apply List.filter_app. Qed.

Lemma land_4095 idx : 0 <= idx < 4096 -> Z.land idx 4095 = idx.
Proof.
  intros H. change 4095 with (Z.ones 12). rewrite Z.land_ones by lia.
  apply Z.mod_small. exact H.
Qed.

Section Tracker.
Context `{M : Mesh}.

(** The settings calls touch neither array and call no listener. *)
Lemma clear_app_key_frame idx st :
  apps (clear_app_key idx st) = apps st /\
  app_key_updates (clear_app_key idx st) = app_key_updates st /\
  exists es, trace (clear_app_key idx st) = trace st ++ es /\ key_evts es = [].
Proof.
  unfold clear_app_key. destruct BLE_MESH_SETTINGS; simpl.
  - repeat split; auto. eexists. split; reflexivity.
  - repeat split; auto. exists []. rewrite app_nil_r. auto.
Qed.

Lemma store_app_key_frame idx st :
  apps (store_app_key idx st) = apps st /\
  app_key_updates (store_app_key idx st) = app_key_updates st /\
  exists es, trace (store_app_key idx st) = trace st ++ es /\ key_evts es = [].
Proof.
  assert (Hid : apps st = apps st /\ app_key_updates st = app_key_updates st /\
                exists es, trace st = trace st ++ es /\ key_evts es = []).
  { repeat split; auto. exists []. rewrite app_nil_r. auto. }
  unfold store_app_key. destruct BLE_MESH_SETTINGS; [|exact Hid].
  destruct (app_get st idx) as [i|]; [|exact Hid].
  destruct (apps st !! i) as [a|]; [|exact Hid]. simpl.
  repeat split; auto. eexists. split; reflexivity.
Qed.

Lemma update_app_key_settings_frame idx store st :
  apps (update_app_key_settings idx store st) = apps st /\
  exists es, trace (update_app_key_settings idx store st) = trace st ++ es /\
             key_evts es = [].
Proof.
  unfold update_app_key_settings. destruct BLE_MESH_SETTINGS.
  2:{ split; auto. exists []. rewrite app_nil_r. auto. }
  destruct (app_key_update_find st idx) as [[u|] [f|]]; simpl;
    try (split; [reflexivity|eexists; split; reflexivity]).
  destruct store.
  - destruct (store_app_key_frame idx st) as (Ha & _ & He). auto.
  - destruct (clear_app_key_frame idx st) as (Ha & _ & He). auto.
Qed.

Lemma update_app_key_settings_apps idx store st :
  apps (update_app_key_settings idx store st) = apps st.
Proof. apply update_app_key_settings_frame. Qed.

(** Changing only [clear] in one slot keeps the entries apart. *)
Lemma unique_key_idx_set_clear c k l :
  unique_key_idx l -> unique_key_idx (alter (set_clear c) k l).
Proof.
  intros Hu i j u v Hi Hj Hvu Hvv Hk.
  assert (Hsame : forall n w, alter (set_clear c) k l !! n = Some w ->
            exists w0, l !! n = Some w0 /\ valid w0 = valid w /\ key_idx w0 = key_idx w).
  { intros n w Hn. destruct (decide (k = n)) as [->|Hne].
    - rewrite list_lookup_alter_eq in Hn. destruct (l !! n) as [w0|]; [|discriminate].
      simpl in Hn. injection Hn as <-. exists w0. auto.
    - rewrite list_lookup_alter_ne in Hn by exact Hne. exists w. auto. }
  destruct (Hsame i u Hi) as (u0 & Hu0 & Hv0 & Hk0).
  destruct (Hsame j v Hj) as (v0 & Hv1 & Hv2 & Hk1).
  apply (Hu i j u0 v0); congruence.
Qed.


End Tracker.



(** ** Events and slot stores *)

Lemma alter_at {A : Type} (f : A -> A) (i : nat) (l : list A) (a : A) :
  l !! i = Some a -> alter f i l = <[i := f a]> l.
Proof.
  revert i. induction l as [|x l IH]; intros [|i] H; simpl in *; try discriminate.
  - injection H as ->. reflexivity.
  - f_equal. apply IH. exact H.
Qed.

Lemma alter_out {A : Type} (f : A -> A) (i : nat) (l : list A) :
  l !! i = None -> alter f i l = l.
Proof.
  revert i. induction l as [|x l IH]; intros [|i] H; simpl in *;
    try discriminate; [reflexivity|reflexivity|].
  f_equal. apply IH. exact H.
Qed.

Lemma app_get_loop_ext l l' i idx :
  map app_idx l = map app_idx l' -> app_get_loop l i idx = app_get_loop l' i idx.
Proof.
  revert l' i. induction l as [|x l IH]; intros [|y l'] i H; simpl in *;
    try discriminate; [reflexivity|].
  injection H as Hx Hl. rewrite Hx. destruct (app_idx y =? idx); [reflexivity|].
  apply IH. exact Hl.
Qed.

Lemma map_insert_same {A B : Type} (g : A -> B) (i : nat) (l : list A) (a b : A) :
  l !! i = Some a -> g b = g a -> map g (<[i := b]> l) = map g l.
Proof.
  revert i. induction l as [|x l IH]; intros [|i] H Hg; simpl in *; try discriminate.
  - injection H as ->. rewrite Hg. reflexivity.
  - f_equal. apply IH; assumption.
Qed.

Section Events.
Context `{M : Mesh}.

Lemma app_key_evt_spec app evt st a :
  apps st !! app = Some a ->
  app_key_evt app evt st = emit (key_evts_of a evt) st.
Proof. intros H. unfold app_key_evt. rewrite H. reflexivity. Qed.

Lemma key_evts_of_all a evt : key_evts (key_evts_of a evt) = key_evts_of a evt.
Proof.
  unfold key_evts_of. generalize 0%nat.
  induction bt_mesh_app_key_cb_list as [|cb cbs IH]; intros i; simpl; [reflexivity|].
  destruct cb; simpl.
  - unfold key_evts in *. simpl. f_equal. apply IH.
  - apply IH.
Qed.

End Events.

(** ** Revoke *)

Section Revoke.
Context `{M : Mesh}.

(** The three ways a dirty mark ends, in a build with the settings store. *)
Lemma update_app_key_settings_cases idx store st :
  BLE_MESH_SETTINGS = true ->
  (exists k u, app_key_updates st !! k = Some u /\ valid u = true /\ key_idx u = idx /\
     update_app_key_settings idx store st =
       emit [SettingsStoreSchedule]
         (with_updates (alter (set_clear (negb store)) k (app_key_updates st)) st)) \/
  (exists k u, app_key_updates st !! k = Some u /\ valid u = false /\
     update_app_key_settings idx store st =
       emit [SettingsStoreSchedule]
         (with_updates
            (<[k := {| key_idx := Z.land idx 4095; valid := true; clear := negb store |}]>
               (app_key_updates st)) st)) \/
  ((forall k u, app_key_updates st !! k = Some u -> valid u = true /\ key_idx u <> idx) /\
     update_app_key_settings idx store st =
       if store then store_app_key idx st else clear_app_key idx st).
Proof.
  intros Hcfg. unfold update_app_key_settings. rewrite Hcfg.
  destruct (app_key_update_find st idx) as [m f] eqn:Hfind.
  apply app_key_update_find_spec in Hfind as [Hm Hf].
  assert (Hclr : (if store then false else true) = negb store) by (destruct store; auto).
  rewrite Hclr.
  destruct m as [j|].
  - left. destruct Hm as (u & Hj & Hv & Hk). exists j, u. auto.
  - destruct f as [j|].
    + right. left. destruct Hf as (u & Hj & Hv). exists j, u.
      rewrite list_insert_alter. auto.
    + right. right. split; [|reflexivity]. intros k u Hk.
      split; [eapply Hf; eauto|]. eapply Hm; eauto.
Qed.

Lemma app_key_revoke_unfold app a st :
  apps st !! app = Some a -> updated a = true ->
  app_key_revoke app st =
    emit (key_evts_of a BT_MESH_KEY_REVOKED)
      (let st3 := with_apps (<[app := revoked_slot a]> (apps st)) st in
       if CONFIG_BT_SETTINGS then update_app_key_settings (app_idx a) true st3 else st3).
Proof.
  intros Ha Hu. unfold app_key_revoke. rewrite Ha, Hu. cbn [negb].
  assert (Hlt : (app < length (apps st))%nat) by (apply lookup_lt_is_Some; eauto).
  assert (H3 : store_app app (set_updated false)
             (store_app app (set_keys1 cred_zero)
                (store_app app (fun x => set_keys0 (keys1 x) x) st)) =
           with_apps (<[app := revoked_slot a]> (apps st)) st).
  { unfold store_app, with_apps. cbn [apps app_key_updates subnet_cb_0 trace].
    rewrite !list_alter_alter_eq. rewrite (alter_at _ _ _ a Ha). reflexivity. }
  rewrite H3. cbv zeta.
  apply app_key_evt_spec with (a := revoked_slot a).
  destruct CONFIG_BT_SETTINGS.
  - rewrite update_app_key_settings_apps. cbn [apps with_apps].
    apply list_lookup_insert_eq. exact Hlt.
  - cbn [apps with_apps]. apply list_lookup_insert_eq. exact Hlt.
Qed.

(** C4, amended. For every record: Revoke on a record that is not updated
    changes nothing. On an updated record, whatever the build and the
    index, generation 0 becomes the former generation 1, key and AID,
    generation 1 is zero, [updated] is false, no other slot changes, and
    REVOKED goes to the listeners, after the settings calls [es] of the
    store request. Without the settings store there is none and the
    tracker is left alone. With it, the store of the record is requested:
    the flush is scheduled and a valid tracker entry for the index (its 12
    bits) has [clear] off, or, when every tracker slot is valid and none is
    for the index, the record is stored at once and nothing is
    scheduled. *)
Theorem revoke_promotes app a st :
  apps st !! app = Some a ->
  (updated a = false -> app_key_revoke app st = st) /\
  (updated a = true ->
     apps (app_key_revoke app st) = <[app := revoked_slot a]> (apps st) /\
     exists es,
       trace (app_key_revoke app st) =
         trace st ++ es ++ key_evts_of a BT_MESH_KEY_REVOKED /\
       (CONFIG_BT_SETTINGS = false \/ BLE_MESH_SETTINGS = false ->
          es = [] /\
          app_key_updates (app_key_revoke app st) = app_key_updates st) /\
       (CONFIG_BT_SETTINGS = true -> BLE_MESH_SETTINGS = true ->
        (es = [SettingsStoreSchedule] /\
         exists k u, app_key_updates (app_key_revoke app st) !! k = Some u /\
                     valid u = true /\ clear u = false /\
                     Z.land (key_idx u) 4095 = Z.land (app_idx a) 4095 /\
                     (0 <= app_idx a < 4096 -> key_idx u = app_idx a)) \/
        ((forall k u, app_key_updates st !! k = Some u ->
                      valid u = true /\ key_idx u <> app_idx a) /\
         app_key_updates (app_key_revoke app st) = app_key_updates st /\
         exists v, es = [SettingsSaveOne (app_idx a) (Some v)] /\
                   (app_get st (app_idx a) = Some app ->
                    v = app_key_val_of (revoked_slot a))))).
Proof.
  intros Ha. split.
  - intros Hu. unfold app_key_revoke. rewrite Ha, Hu. reflexivity.
  - intros Hu.
    rewrite (app_key_revoke_unfold app a st Ha Hu). cbv zeta.
    set (st3 := with_apps (<[app := revoked_slot a]> (apps st)) st).
    assert (Hlt : (app < length (apps st))%nat) by (apply lookup_lt_is_Some; eauto).
    assert (H3 : apps st3 !! app = Some (revoked_slot a))
      by (apply list_lookup_insert_eq; exact Hlt).
    split.
    { cbn [apps emit]. destruct CONFIG_BT_SETTINGS; [|reflexivity].
      rewrite update_app_key_settings_apps. reflexivity. }
    destruct CONFIG_BT_SETTINGS eqn:Hcfg.
    2:{ exists []. split.
        { reflexivity. }
        split; [intros _; split; reflexivity|]. intros Hc; discriminate Hc. }
    destruct BLE_MESH_SETTINGS eqn:Hset.
    2:{ exists []. unfold update_app_key_settings. rewrite Hset. split.
        { reflexivity. }
        split; [intros _; split; reflexivity|]. intros _ Hc; discriminate Hc. }
    destruct (update_app_key_settings_cases (app_idx a) true st3 Hset)
      as [(k & u & Hk & Hv & Hi & ->)|[(k & u & Hk & Hv & ->)|(Hfull & ->)]].
    + exists [SettingsStoreSchedule]. split.
      { cbn [trace emit with_updates st3 with_apps]. rewrite <- app_assoc. reflexivity. }
      split; [intros [Hc|Hc]; discriminate Hc|]. intros _ _.
      left. split; [reflexivity|]. exists k, (set_clear false u).
      cbn [app_key_updates emit with_updates negb].
      rewrite list_lookup_alter_eq. change (app_key_updates st3) with (app_key_updates st) in *.
      rewrite Hk. cbn [set_clear valid clear key_idx]. rewrite Hi. auto.
    + exists [SettingsStoreSchedule]. split.
      { cbn [trace emit with_updates st3 with_apps]. rewrite <- app_assoc. reflexivity. }
      split; [intros [Hc|Hc]; discriminate Hc|]. intros _ _.
      left. split; [reflexivity|]. eexists k, _.
      cbn [app_key_updates emit with_updates negb].
      rewrite list_lookup_insert_eq by (apply lookup_lt_is_Some; eauto).
      split; [reflexivity|]. cbn [valid key_idx clear].
      split; [reflexivity|]. split; [reflexivity|].
      split; [rewrite <- Z.land_assoc, Z.land_diag; reflexivity|].
      intros Hidx. apply land_4095. exact Hidx.
    + destruct (app_get st3 (app_idx a)) as [j|] eqn:Hget.
      2:{ exfalso. unfold app_get in Hget.
          apply app_get_loop_None with (k := app) (b := revoked_slot a) in Hget;
            [|exact H3]. apply Hget. reflexivity. }
      destruct (app_get_Some _ _ _ Hget) as (b & Hb & _).
      assert (Hst : store_app_key (app_idx a) st3 =
                    emit [SettingsSaveOne (app_idx a) (Some (app_key_val_of b))] st3).
      { unfold store_app_key. rewrite Hset, Hget, Hb. reflexivity. }
      rewrite Hst. exists [SettingsSaveOne (app_idx a) (Some (app_key_val_of b))]. split.
      { cbn [trace emit with_updates st3 with_apps]. rewrite <- app_assoc. reflexivity. }
      split; [intros [Hc|Hc]; discriminate Hc|]. intros _ _.
      right. split; [exact Hfull|]. split; [reflexivity|].
      exists (app_key_val_of b). split; [reflexivity|].
      intros Hfirst.
      assert (Hj : app_get st3 (app_idx a) = Some app).
      { unfold app_get in *. rewrite <- Hfirst. apply app_get_loop_ext.
        cbn [apps st3 with_apps]. apply (map_insert_same _ _ _ a); auto. }
      assert (j = app) by congruence. subst j. congruence.
Qed.

End Revoke.

Lemma revoke_promotes_witness :
  let st := sample_state [sample_key 1 2 true 7 9] [free_update] in
  apps (@app_key_revoke sample_mesh 0 st) =
    [ {| net_idx := 2; app_idx := 1; updated := false;
         keys0 := {| cred_id := 9; cred_val := key_of 9 |};
         keys1 := cred_zero |} ] /\
  trace (@app_key_revoke sample_mesh 0 st) =
    [SettingsStoreSchedule; KeyEvt 0 1 2 BT_MESH_KEY_REVOKED] /\
  exists k u, app_key_updates (@app_key_revoke sample_mesh 0 st) !! k = Some u /\
              valid u = true /\ clear u = false /\ key_idx u = 1.
Proof.
  intros st.
  destruct (@revoke_promotes sample_mesh 0%nat (sample_key 1 2 true 7 9) st eq_refl)
    as [_ H].
  destruct (H eq_refl) as (Hap & es & Htr & _ & Hes).
  split; [rewrite Hap; reflexivity|].
  destruct (Hes eq_refl eq_refl)
    as [(-> & k & u & Hk & Hv & Hc & _ & Hi)|(Hfull & _)].
  - split; [exact Htr|]. exists k, u.
    split; [exact Hk|]. split; [exact Hv|]. split; [exact Hc|].
    apply Hi. simpl. lia.
  - destruct (Hfull 0%nat free_update eq_refl) as [Hv _]. discriminate Hv.
Defined.

(** C4 as stated fails. With one slot per array: Add 5, Delete 5, Add 1,
    Update 1 (the subnet 1 is in Phase 1) leave the only tracker slot valid
    for the index 5. Revoke on the record 1 then stores the record at once:
    the flush is not scheduled and no tracker entry is made for it. *)
Lemma revoke_as_stated_fails :
  let s1 := snd (@bt_mesh_app_key_add sample_mesh 5 1 (key_of 3) (sample_init 1)) in
  let s2 := snd (@bt_mesh_app_key_del sample_mesh 5 65535 s1) in
  let s3 := snd (@bt_mesh_app_key_add sample_mesh 1 1 (key_of 7) s2) in
  let s4 := snd (@bt_mesh_app_key_update sample_mesh 1 1 (key_of 9) s3) in
  let s5 := @app_key_revoke sample_mesh 0 s4 in
  apps s4 = [sample_key 1 1 true 7 9] /\
  app_key_updates s4 = [ {| key_idx := 5; valid := true; clear := true |} ] /\
  apps s5 = [ revoked_slot (sample_key 1 1 true 7 9) ] /\
  app_key_updates s5 = app_key_updates s4 /\
  drop (length (trace s4)) (trace s5) =
    [ SettingsSaveOne 1 (Some (app_key_val_of (revoked_slot (sample_key 1 1 true 7 9))));
      KeyEvt 0 1 1 BT_MESH_KEY_REVOKED ] /\
  ~ In SettingsStoreSchedule (drop (length (trace s4)) (trace s5)).
Proof.
  vm_compute. repeat split; try reflexivity.
  intros [H|[H|[]]]; discriminate.
Qed.

(** ** Subnet deletion *)

Section Cascade.
Context `{M : Mesh}.

Lemma app_key_del_unfold app a st :
  apps st !! app = Some a ->
  app_key_del app st =
    with_apps (<[app := deleted_slot a]> (apps st))
      (emit (key_evts_of a BT_MESH_KEY_DELETED)
         (if CONFIG_BT_SETTINGS
          then update_app_key_settings (app_idx a) false st else st)).
Proof.
  intros Ha. unfold app_key_del. rewrite Ha. cbv zeta.
  set (st1 := if CONFIG_BT_SETTINGS
              then update_app_key_settings (app_idx a) false st else st).
  assert (H1 : apps st1 = apps st).
  { unfold st1. destruct CONFIG_BT_SETTINGS; [apply update_app_key_settings_apps|reflexivity]. }
  rewrite (app_key_evt_spec app _ st1 a) by (rewrite H1; exact Ha).
  unfold store_app, with_apps. cbn [apps app_key_updates subnet_cb_0 trace emit].
  rewrite !list_alter_alter_eq, H1. rewrite (alter_at _ _ _ a Ha). reflexivity.
Qed.

Lemma app_key_del_apps app a st :
  apps st !! app = Some a ->
  apps (app_key_del app st) = <[app := deleted_slot a]> (apps st).
Proof. intros Ha. rewrite (app_key_del_unfold app a st Ha). reflexivity. Qed.

Lemma app_key_del_key_evts app a st :
  apps st !! app = Some a ->
  key_evts (trace (app_key_del app st)) =
    key_evts (trace st) ++ key_evts_of a BT_MESH_KEY_DELETED.
Proof.
  intros Ha. rewrite (app_key_del_unfold app a st Ha).
  cbn [trace with_apps emit]. rewrite key_evts_app, key_evts_of_all. f_equal.
  destruct CONFIG_BT_SETTINGS; [|reflexivity].
  destruct (update_app_key_settings_frame (app_idx a) false st) as (_ & es & -> & Hes).
  rewrite key_evts_app, Hes, app_nil_r. reflexivity.
Qed.

Lemma subnet_evt_step_deleted sub st pre a l :
  apps st = pre ++ a :: l ->
  apps (subnet_evt_step sub BT_MESH_KEY_DELETED st (length pre)) =
    (pre ++ [cascade_slot (sub_net_idx sub) a]) ++ l /\
  key_evts (trace (subnet_evt_step sub BT_MESH_KEY_DELETED st (length pre))) =
    key_evts (trace st) ++ cascade_evts (sub_net_idx sub) a.
Proof.
  intros Hap.
  assert (Ha : apps st !! length pre = Some a)
    by (rewrite Hap; apply list_lookup_middle; reflexivity).
  unfold subnet_evt_step, cascade_slot, cascade_evts, bound_to, in_use.
  rewrite Ha. rewrite <- app_assoc. simpl.
  destruct (app_idx a =? BT_MESH_KEY_UNUSED); simpl.
  { rewrite app_nil_r. auto. }
  destruct (net_idx a =? sub_net_idx sub); simpl.
  2:{ rewrite app_nil_r. auto. }
  rewrite (app_key_del_apps _ a st Ha), (app_key_del_key_evts _ a st Ha).
  split; [|reflexivity].
  rewrite Hap. rewrite insert_app_r_alt by lia. rewrite Nat.sub_diag. reflexivity.
Qed.

Lemma subnet_evt_loop_deleted sub l : forall st pre,
  apps st = pre ++ l ->
  apps (fold_left (subnet_evt_step sub BT_MESH_KEY_DELETED)
          (seq (length pre) (length l)) st) =
    pre ++ map (cascade_slot (sub_net_idx sub)) l /\
  key_evts (trace (fold_left (subnet_evt_step sub BT_MESH_KEY_DELETED)
                     (seq (length pre) (length l)) st)) =
    key_evts (trace st) ++ flat_map (cascade_evts (sub_net_idx sub)) l.
Proof.
  induction l as [|a l IH]; intros st pre Hap; simpl.
  - rewrite !app_nil_r. rewrite app_nil_r in Hap. auto.
  - destruct (subnet_evt_step_deleted sub st pre a l Hap) as [H1 H2].
    specialize (IH _ _ H1). rewrite length_app in IH. simpl in IH.
    rewrite Nat.add_1_r in IH. destruct IH as [IH1 IH2].
    rewrite IH1, IH2, H2. rewrite <- !app_assoc. auto.
Qed.

(** C5. The DELETED event of the subnet [sub] empties every slot in use
    that is bound to [sub] (both indices unused, both generations zero),
    leaves the other slots alone and calls the listeners with DELETED once
    per emptied record, in slot order. Then, in a table with at most one
    record per index, no index that was bound to [sub] exists any more; and
    if every record was bound to a known subnet, every record is bound to
    a subnet that is still known when [sub] is gone. *)
Theorem subnet_deleted_cascade sub st :
  apps (subnet_evt sub BT_MESH_KEY_DELETED st) =
    map (cascade_slot (sub_net_idx sub)) (apps st) /\
  key_evts (trace (subnet_evt sub BT_MESH_KEY_DELETED st)) =
    key_evts (trace st) ++ flat_map (cascade_evts (sub_net_idx sub)) (apps st) /\
  (unique_app_idx (apps st) ->
   forall i a, apps st !! i = Some a -> bound_to (sub_net_idx sub) a = true ->
     bt_mesh_app_key_exists (subnet_evt sub BT_MESH_KEY_DELETED st) (app_idx a) = false) /\
  (forall get get' : Z -> option bt_mesh_subnet,
     (forall n, n <> sub_net_idx sub -> get' n = get n) ->
     bound_subnets_exist get (apps st) ->
     bound_subnets_exist get' (apps (subnet_evt sub BT_MESH_KEY_DELETED st))).
Proof.
  destruct (subnet_evt_loop_deleted sub (apps st) st [] eq_refl) as [Hap Hev].
  simpl in Hap, Hev. unfold subnet_evt.
  split; [exact Hap|]. split; [exact Hev|]. split.
  - intros Huniq i a Hi Hb. unfold bt_mesh_app_key_exists. rewrite Hap.
    apply exists_loop_false. intros k b' Hk.
    assert (Hin : in_use a = true)
      by (unfold bound_to in Hb; apply andb_true_iff in Hb; tauto).
    assert (Hne : app_idx a <> BT_MESH_KEY_UNUSED).
    { unfold in_use in Hin. apply negb_true_iff, Z.eqb_neq in Hin. exact Hin. }
    change (map (cascade_slot (sub_net_idx sub)) (apps st))
      with (cascade_slot (sub_net_idx sub) <$> apps st) in Hk.
    rewrite list_lookup_fmap in Hk.
    destruct (apps st !! k) as [b|] eqn:Hbk; [|discriminate].
    simpl in Hk. injection Hk as <-. unfold cascade_slot.
    destruct (bound_to (sub_net_idx sub) b) eqn:Hbb; simpl; [congruence|].
    intros Heq. assert (i = k) by (apply (Huniq i k a b); auto).
    subst k. congruence.
  - intros get get' Hget Hinv i b' Hi Hin. rewrite Hap in Hi.
    change (map (cascade_slot (sub_net_idx sub)) (apps st))
      with (cascade_slot (sub_net_idx sub) <$> apps st) in Hi.
    rewrite list_lookup_fmap in Hi.
    destruct (apps st !! i) as [b|] eqn:Hbi; [|discriminate].
    simpl in Hi. injection Hi as <-. unfold cascade_slot in *.
    destruct (bound_to (sub_net_idx sub) b) eqn:Hbb.
    + unfold in_use in Hin. simpl in Hin. rewrite Z.eqb_refl in Hin. discriminate.
    + rewrite Hget; [apply (Hinv i b Hbi Hin)|].
      unfold bound_to in Hbb. rewrite Hin in Hbb. simpl in Hbb.
      apply Z.eqb_neq in Hbb. exact Hbb.
Qed.

End Cascade.

Lemma subnet_deleted_cascade_witness :
  let st := sample_state
              [sample_key 1 1 false 7 0; sample_key 2 0 false 8 0;
               sample_key 3 1 true 7 9; unused_slot]
              [free_update; free_update; free_update; free_update] in
  let st' := @subnet_evt sample_mesh {| sub_net_idx := 1; kr_phase := 1 |}
               BT_MESH_KEY_DELETED st in
  bt_mesh_app_key_exists st' 1 = false /\
  bt_mesh_app_key_exists st' 3 = false /\
  bt_mesh_app_key_exists st' 2 = true /\
  key_evts (trace st') =
    [KeyEvt 0 1 1 BT_MESH_KEY_DELETED; KeyEvt 0 3 1 BT_MESH_KEY_DELETED].
Proof.
  intros st st'.
  destruct (@subnet_deleted_cascade sample_mesh {| sub_net_idx := 1; kr_phase := 1 |} st)
    as (_ & Hev & Hex & _).
  assert (Hu : @unique_app_idx sample_mesh (apps st)).
  { intros i j a b Hi Hj Hin Heq.
    destruct i as [|[|[|[|i]]]]; simpl in Hi; try discriminate;
      injection Hi as <-;
      destruct j as [|[|[|[|j]]]]; simpl in Hj; try discriminate;
      injection Hj as <-; try reflexivity; try discriminate Heq; discriminate Hin. }
  split; [apply (Hex Hu 0%nat (sample_key 1 1 false 7 0)); reflexivity|].
  split; [apply (Hex Hu 2%nat (sample_key 3 1 true 7 9)); reflexivity|].
  split; [reflexivity|]. exact Hev.
Defined.

(** ** Enumeration *)

Section Enumerate.
Context `{M : Mesh}.

Lemma bt_mesh_app_keys_get_loop_cons a l net buf max skip count :
  bt_mesh_app_keys_get_loop (a :: l) net buf max skip count =
    if listed net a then
      if negb (skip =? 0) then bt_mesh_app_keys_get_loop l net buf max (skip - 1) count
      else if count >=? max then (- ENOMEM, buf)
      else bt_mesh_app_keys_get_loop l net
             (<[Z.to_nat count := app_idx a]> buf) max skip (count + 1)
    else bt_mesh_app_keys_get_loop l net buf max skip count.
Proof.
  simpl. unfold listed, in_use.
  destruct (app_idx a =? BT_MESH_KEY_UNUSED); [reflexivity|].
  destruct (net =? BT_MESH_KEY_ANY); [reflexivity|].
  destruct (net_idx a =? net); reflexivity.
Qed.




End Enumerate.


(** ** Inbound resolution *)

Section Inbound.
Context `{M : Mesh}.
Context {D : Type} (cb : D -> list Z -> Z * D).

Lemma bt_mesh_app_key_find_loop_spec l aid rx : forall s,
  bt_mesh_app_key_find_loop cb l aid rx s =
    try_candidates cb (List.filter (rx_candidate aid rx) l) rx s.
Proof.
  induction l as [|a l IH]; intros s; [reflexivity|].
  cbn [bt_mesh_app_key_find_loop List.filter].
  unfold rx_candidate at 1, bound_to, in_use.
  destruct (app_idx a =? BT_MESH_KEY_UNUSED); cbn [negb andb]; [apply IH|].
  destruct (net_idx a =? sub_net_idx (rx_sub rx)); cbn [negb andb]; [|apply IH].
  fold (rx_cred rx a).
  destruct (cred_id (rx_cred rx a) =? aid); cbn [negb]; [|apply IH].
  cbn [try_candidates].
  destruct (cb s (cred_val (rx_cred rx a))) as [err s'].
  destruct (err =? 0); cbn [negb]; [reflexivity|apply IH].
Qed.

Lemma try_candidates_first rx pre b post :
  (forall s k, fst (cb s k) = 0 <-> k = cred_val (rx_cred rx b)) ->
  Forall (fun a => cred_val (rx_cred rx a) <> cred_val (rx_cred rx b)) pre ->
  forall s, fst (try_candidates cb (pre ++ b :: post) rx s) = app_idx b.
Proof.
  intros Hcb Hpre. induction Hpre as [|a pre Ha Hpre IH]; intros s; cbn [app try_candidates].
  - pose proof (proj2 (Hcb s (cred_val (rx_cred rx b))) eq_refl) as Hok.
    destruct (cb s (cred_val (rx_cred rx b))) as [err s']. cbn [fst] in Hok.
    rewrite Hok. reflexivity.
  - pose proof (Hcb s (cred_val (rx_cred rx a))) as Hrej.
    destruct (cb s (cred_val (rx_cred rx a))) as [err s']. cbn [fst] in Hrej.
    destruct (Z.eqb_spec err 0) as [He|He]; [|apply IH].
    exfalso. apply Ha. apply Hrej. exact He.
Qed.

(** C3. For an AppKey ([dev_key] false) [bt_mesh_app_key_find] is the
    trial, in slot order, of the records in use that are bound to the
    receiving subnet and whose selected credential (generation 1 when the
    new-key flag is set and the record is updated, generation 0 otherwise)
    has the given AID: the callback gets the selected key of each such
    record in turn until it returns 0, and the index of that record is
    returned (the unused index when none is accepted). In particular, when
    the callback accepts one key value only, the index returned is that of
    the first candidate holding that value, whatever AID-colliding
    candidates with other values come before it. *)
Theorem app_key_find_tries_in_order st aid rx s :
  bt_mesh_app_key_find cb st false aid rx s =
    try_candidates cb (List.filter (rx_candidate aid rx) (apps st)) rx s /\
  (forall pre b post,
     List.filter (rx_candidate aid rx) (apps st) = pre ++ b :: post ->
     (forall s' k, fst (cb s' k) = 0 <-> k = cred_val (rx_cred rx b)) ->
     Forall (fun a => cred_val (rx_cred rx a) <> cred_val (rx_cred rx b)) pre ->
     fst (bt_mesh_app_key_find cb st false aid rx s) = app_idx b).
Proof.
  assert (H : bt_mesh_app_key_find cb st false aid rx s =
              try_candidates cb (List.filter (rx_candidate aid rx) (apps st)) rx s)
    by apply bt_mesh_app_key_find_loop_spec.
  split; [exact H|].
  intros pre b post Hf Hcb Hpre. rewrite H, Hf.
  apply try_candidates_first; assumption.
Qed.

End Inbound.

(** The keys 7 and 71 have the AID 7; the callback accepts the second. *)
Lemma app_key_find_tries_in_order_witness :
  let st := sample_state [sample_key 1 0 false 7 0; sample_key 2 0 false 71 0] [] in
  cred_id (keys0 (sample_key 1 0 false 7 0)) = cred_id (keys0 (sample_key 2 0 false 71 0)) /\
  fst (@bt_mesh_app_key_find sample_mesh nat (sample_cb (key_of 71)) st false 7
         (sample_rx 0 false) 0%nat) = 2 /\
  @bt_mesh_app_key_find sample_mesh nat (sample_cb (key_of 71)) st false 7
         (sample_rx 0 false) 0%nat = (2, 2%nat).
Proof.
  intros st. split; [reflexivity|]. split; [|reflexivity].
  destruct (@app_key_find_tries_in_order sample_mesh nat (sample_cb (key_of 71)) st 7
              (sample_rx 0 false) 0%nat) as [_ H].
  apply (H [sample_key 1 0 false 7 0] (sample_key 2 0 false 71 0) []).
  - reflexivity.
  - intros s' k. unfold sample_cb.
    change (cred_val (rx_cred (sample_rx 0 false) (sample_key 2 0 false 71 0)))
      with (key_of 71).
    destruct (decide (k = key_of 71)) as [E|E]; simpl; split; auto; intros; try lia;
      contradiction.
  - constructor; [|constructor]. vm_compute. discriminate.
Defined.

(** ** Table invariants *)

Section Invariants.
Context `{M : Mesh}.

Lemma unique_app_idx_insert_same l i a b :
  l !! i = Some a ->
  app_idx b = app_idx a \/ in_use b = false ->
  unique_app_idx l -> unique_app_idx (<[i := b]> l).
Proof.
  intros Ha Hb Hu x y c d Hx Hy Hin Heq.
  assert (Hold : forall n e, <[i := b]> l !! n = Some e -> in_use e = true ->
            exists e0, l !! n = Some e0 /\ app_idx e0 = app_idx e).
  { intros n e Hn He. destruct (decide (i = n)) as [<-|Hne].
    - rewrite list_lookup_insert_eq in Hn by (apply lookup_lt_is_Some; eauto).
      injection Hn as <-. destruct Hb as [Hb|Hb]; [eauto|congruence].
    - rewrite list_lookup_insert_ne in Hn by exact Hne. eauto. }
  assert (Hd : in_use d = true) by (unfold in_use in *; rewrite <- Heq; exact Hin).
  destruct (Hold x c Hx Hin) as (c0 & Hc0 & Ec).
  destruct (Hold y d Hy Hd) as (d0 & Hd0 & Ed).
  apply (Hu x y c0 d0); auto; [|congruence].
  unfold in_use in *. rewrite Ec. exact Hin.
Qed.

Lemma unique_app_idx_insert_fresh l i a b :
  l !! i = Some a ->
  (forall k c, l !! k = Some c -> app_idx c <> app_idx b) ->
  unique_app_idx l -> unique_app_idx (<[i := b]> l).
Proof.
  intros Ha Hfresh Hu x y c d Hx Hy Hin Heq.
  assert (Hlt : (i < length l)%nat) by (apply lookup_lt_is_Some; eauto).
  destruct (decide (i = x)) as [<-|Hix]; destruct (decide (i = y)) as [<-|Hiy].
  - reflexivity.
  - exfalso. rewrite list_lookup_insert_eq in Hx by exact Hlt. injection Hx as <-.
    rewrite list_lookup_insert_ne in Hy by exact Hiy. apply (Hfresh y d Hy). congruence.
  - exfalso. rewrite list_lookup_insert_eq in Hy by exact Hlt. injection Hy as <-.
    rewrite list_lookup_insert_ne in Hx by exact Hix. apply (Hfresh x c Hx). congruence.
  - rewrite list_lookup_insert_ne in Hx by exact Hix.
    rewrite list_lookup_insert_ne in Hy by exact Hiy. apply (Hu x y c d); auto.
Qed.

Lemma unique_app_idx_alter_same l i f :
  (forall x, app_idx (f x) = app_idx x) ->
  unique_app_idx l -> unique_app_idx (alter f i l).
Proof.
  intros Hf Hu. destruct (l !! i) as [a|] eqn:Ha.
  - rewrite (alter_at f i l a Ha). apply (unique_app_idx_insert_same l i a); auto.
  - rewrite (alter_out f i l Ha). exact Hu.
Qed.

Lemma app_key_evt_apps app evt st : apps (app_key_evt app evt st) = apps st.
Proof. unfold app_key_evt. destruct (apps st !! app); reflexivity. Qed.

Lemma app_key_alloc_not_found st idx app a :
  app_key_alloc st idx = Some app -> apps st !! app = Some a ->
  app_idx a <> idx -> app_get st idx = None.
Proof.
  intros Hal Ha Hne. destruct (app_get st idx) as [j|] eqn:Hg; [|reflexivity].
  rewrite (app_key_alloc_found st idx j Hg) in Hal. injection Hal as ->.
  apply app_get_Some in Hg as (a' & Ha' & Hi & _). congruence.
Qed.

(** Delete and Revoke keep the indices apart. *)
Lemma app_key_del_unique app st :
  unique_app_idx (apps st) -> unique_app_idx (apps (app_key_del app st)).
Proof.
  intros Hu. destruct (apps st !! app) as [a|] eqn:Ha.
  - rewrite (app_key_del_apps app a st Ha).
    apply (unique_app_idx_insert_same _ _ a); auto. right.
    unfold in_use. simpl. rewrite Z.eqb_refl. reflexivity.
  - unfold app_key_del. rewrite Ha. exact Hu.
Qed.

Lemma app_key_revoke_unique app st :
  unique_app_idx (apps st) -> unique_app_idx (apps (app_key_revoke app st)).
Proof.
  intros Hu. destruct (apps st !! app) as [a|] eqn:Ha.
  - destruct (updated a) eqn:Hup.
    + rewrite (app_key_revoke_unfold app a st Ha Hup). cbn [apps emit].
      destruct CONFIG_BT_SETTINGS; [rewrite update_app_key_settings_apps|];
        cbn [apps with_apps]; apply (unique_app_idx_insert_same _ _ a); auto.
    + unfold app_key_revoke. rewrite Ha, Hup. exact Hu.
  - unfold app_key_revoke. rewrite Ha. exact Hu.
Qed.

(** Every subnet event keeps the indices apart. *)
Lemma subnet_evt_unique sub evt st :
  unique_app_idx (apps st) -> unique_app_idx (apps (subnet_evt sub evt st)).
Proof.
  assert (Hstep : forall s i, unique_app_idx (apps s) ->
            unique_app_idx (apps (subnet_evt_step sub evt s i))).
  { intros s i Hs. unfold subnet_evt_step.
    destruct (apps s !! i) as [a|]; [|exact Hs].
    destruct (app_idx a =? BT_MESH_KEY_UNUSED); [exact Hs|].
    destruct (negb (net_idx a =? sub_net_idx sub)); [exact Hs|].
    destruct evt; try exact Hs.
    - apply app_key_del_unique. exact Hs.
    - destruct (updated a); [rewrite app_key_evt_apps|]; exact Hs.
    - apply app_key_revoke_unique. exact Hs. }
  assert (Hfold : forall idxs s, unique_app_idx (apps s) ->
            unique_app_idx (apps (fold_left (subnet_evt_step sub evt) idxs s))).
  { induction idxs as [|i idxs IH]; intros s Hs; simpl; [exact Hs|].
    apply IH, Hstep, Hs. }
  intros Hu. unfold subnet_evt. destruct evt; try exact Hu; apply Hfold, Hu.
Qed.

(** Add keeps the indices apart. *)
Lemma bt_mesh_app_key_add_unique idx net key st :
  unique_app_idx (apps st) ->
  unique_app_idx (apps (snd (bt_mesh_app_key_add idx net key st))).
Proof.
  intros Hu. unfold bt_mesh_app_key_add.
  set (st1 := match subnet_cb_0 st with
              | None => with_subnet_cb (Some cb_subnet_evt) st
              | Some _ => st
              end).
  assert (Hap : apps st1 = apps st) by (unfold st1; destruct (subnet_cb_0 st); auto).
  assert (Hu1 : unique_app_idx (apps st1)) by (rewrite Hap; exact Hu).
  clearbody st1. clear Hap Hu.
  destruct (bt_mesh_subnet_get net); [|exact Hu1].
  destruct (app_key_alloc st1 idx) as [app|] eqn:Hal; [|exact Hu1].
  destruct (apps st1 !! app) as [a|] eqn:Ha; [|exact Hu1].
  destruct (Z.eqb_spec (app_idx a) idx) as [He|Hne].
  { destruct (negb (net_idx a =? net)); [exact Hu1|].
    destruct (negb (memcmp key (cred_val (keys0 a)) 16 =? 0)); exact Hu1. }
  destruct (bt_mesh_app_id key (cred_id (keys0 a))) as [err id0].
  destruct (negb (err =? 0)); cbn [snd].
  { unfold store_app. cbn [apps with_apps].
    apply unique_app_idx_alter_same; auto. }
  rewrite app_key_evt_apps.
  assert (Hs : forall s, apps (if CONFIG_BT_SETTINGS
                               then update_app_key_settings idx true s else s) = apps s)
    by (intros s; destruct CONFIG_BT_SETTINGS;
        [apply update_app_key_settings_apps|reflexivity]).
  rewrite Hs. unfold store_app. cbn [apps with_apps].
  rewrite !list_alter_alter_eq. rewrite (alter_at _ _ _ a Ha).
  apply (unique_app_idx_insert_fresh _ _ a); auto.
  intros k c Hk. cbn [compose app_idx set_keys0 set_updated set_app_idx set_net_idx].
  pose proof (app_key_alloc_not_found st1 idx app a Hal Ha Hne) as Hg.
  apply app_get_loop_None with (k := k) (b := c) in Hg; [exact Hg|exact Hk].
Qed.

(** The restore operation keeps the indices apart. *)
Lemma bt_mesh_app_key_set_unique idx net old_key new_key st :
  unique_app_idx (apps st) ->
  unique_app_idx (apps (snd (bt_mesh_app_key_set idx net old_key new_key st))).
Proof.
  intros Hu. unfold bt_mesh_app_key_set.
  destruct (app_key_alloc st idx) as [app|] eqn:Hal; [|exact Hu].
  destruct (apps st !! app) as [a|] eqn:Ha; [|exact Hu].
  destruct (Z.eqb_spec (app_idx a) idx) as [He|Hne]; [exact Hu|].
  pose proof (app_key_alloc_not_found st idx app a Hal Ha Hne) as Hg.
  assert (Hfresh : forall k c, apps st !! k = Some c -> app_idx c <> idx).
  { intros k c Hk. apply app_get_loop_None with (k := k) (b := c) in Hg; auto. }
  destruct (bt_mesh_app_id old_key (cred_id (keys0 a))) as [err0 id0].
  destruct (negb (err0 =? 0)); cbn [snd].
  { unfold store_app. cbn [apps with_apps].
    do 2 (apply unique_app_idx_alter_same; auto). }
  destruct new_key as [nk|].
  - destruct (bt_mesh_app_id nk (cred_id (keys1 a))) as [err1 id1].
    destruct (negb (err1 =? 0)); cbn [snd].
    { unfold store_app. cbn [apps with_apps].
      do 4 (apply unique_app_idx_alter_same; auto). }
    unfold store_app. cbn [apps with_apps].
    rewrite !list_alter_alter_eq. rewrite (alter_at _ _ _ a Ha).
    apply (unique_app_idx_insert_fresh _ _ a); auto.
  - cbn [snd]. unfold store_app. cbn [apps with_apps].
    rewrite !list_alter_alter_eq. rewrite (alter_at _ _ _ a Ha).
    apply (unique_app_idx_insert_fresh _ _ a); auto.
Qed.

(** The flush only turns [valid] off. *)
Lemma bt_mesh_app_key_pending_store_unique st :
  unique_key_idx (app_key_updates st) ->
  unique_key_idx (app_key_updates (bt_mesh_app_key_pending_store st)).
Proof.
  assert (Hoff : forall l i, unique_key_idx l ->
            unique_key_idx
              (alter (fun u => {| key_idx := key_idx u; valid := false; clear := clear u |}) i l)).
  { intros l i Hl x y u v Hx Hy Hvu Hvv Hk.
    assert (Hold : forall n w,
              alter (fun u => {| key_idx := key_idx u; valid := false; clear := clear u |})
                i l !! n = Some w -> valid w = true -> l !! n = Some w).
    { intros n w Hn Hw. destruct (decide (i = n)) as [<-|Hne].
      - rewrite list_lookup_alter_eq in Hn. destruct (l !! i); [|discriminate].
        simpl in Hn. injection Hn as <-. discriminate Hw.
      - rewrite list_lookup_alter_ne in Hn by exact Hne. exact Hn. }
    apply (Hl x y u v); auto. }
  assert (Hstep : forall s i, unique_key_idx (app_key_updates s) ->
            unique_key_idx (app_key_updates (bt_mesh_app_key_pending_store_step s i))).
  { intros s i Hs. unfold bt_mesh_app_key_pending_store_step.
    destruct (app_key_updates s !! i) as [u|]; [|exact Hs].
    destruct (negb (valid u)); [exact Hs|].
    cbn [app_key_updates with_updates]. apply Hoff.
    destruct (clear u).
    - destruct (clear_app_key_frame (key_idx u) s) as (_ & -> & _). exact Hs.
    - destruct (store_app_key_frame (key_idx u) s) as (_ & -> & _). exact Hs. }
  unfold bt_mesh_app_key_pending_store.
  generalize (seq 0 (length (app_key_updates st))). intros idxs. revert st.
  induction idxs as [|i idxs IH]; intros s Hs; simpl; [exact Hs|].
  apply IH, Hstep, Hs.
Qed.

End Invariants.

Section Reachable.
Context `{M : Mesh}.

Lemma bt_mesh_app_key_update_unique idx net key st :
  unique_app_idx (apps st) ->
  unique_app_idx (apps (snd (bt_mesh_app_key_update idx net key st))).
Proof.
  intros Hu. unfold bt_mesh_app_key_update.
  destruct (app_get st idx) as [app|]; [|exact Hu].
  destruct (apps st !! app) as [a|]; [|exact Hu].
  destruct (negb (net =? BT_MESH_KEY_UNUSED) && negb (net_idx a =? net)); [exact Hu|].
  destruct (bt_mesh_subnet_get (net_idx a)) as [sub|]; [|exact Hu].
  destruct (negb (kr_phase sub =? BT_MESH_KR_PHASE_1)); [exact Hu|].
  destruct (updated a).
  { destruct (negb (memcmp (cred_val (keys1 a)) key 16 =? 0)); exact Hu. }
  destruct (bt_mesh_app_id key (cred_id (keys1 a))) as [err id1].
  destruct (negb (err =? 0)); cbn [snd].
  { unfold store_app. cbn [apps with_apps]. apply unique_app_idx_alter_same; auto. }
  rewrite app_key_evt_apps.
  destruct CONFIG_BT_SETTINGS; [rewrite update_app_key_settings_apps|];
    unfold store_app; cbn [apps with_apps];
    do 3 (apply unique_app_idx_alter_same; auto).
Qed.

Lemma bt_mesh_app_key_del_unique idx net st :
  unique_app_idx (apps st) ->
  unique_app_idx (apps (snd (bt_mesh_app_key_del idx net st))).
Proof.
  intros Hu. unfold bt_mesh_app_key_del.
  destruct (negb (net =? BT_MESH_KEY_UNUSED)
            && negb (bool_decide (is_Some (bt_mesh_subnet_get net)))); [exact Hu|].
  destruct (app_get st idx) as [app|]; [|exact Hu].
  destruct (apps st !! app) as [a|]; [|exact Hu].
  destruct (negb (net =? BT_MESH_KEY_UNUSED) && negb (net =? net_idx a)); [exact Hu|].
  apply app_key_del_unique. exact Hu.
Qed.

Lemma bt_mesh_app_keys_reset_unique st :
  unique_app_idx (apps st) ->
  unique_app_idx (apps (bt_mesh_app_keys_reset st)).
Proof.
  unfold bt_mesh_app_keys_reset.
  generalize (seq 0 (length (apps st))). intros idxs. revert st.
  induction idxs as [|i idxs IH]; intros s Hs; simpl; [exact Hs|].
  apply IH. unfold bt_mesh_app_keys_reset_step.
  destruct (apps s !! i) as [a|]; [|exact Hs].
  destruct (negb (app_idx a =? BT_MESH_KEY_UNUSED)); [|exact Hs].
  apply app_key_del_unique. exact Hs.
Qed.

(** The invariants hold before any call. *)
Lemma init_state_invariants n :
  unique_app_idx (apps (init_state n)) /\
  unique_key_idx (app_key_updates (init_state n)) /\
  forall get, bound_subnets_exist get (apps (init_state n)).
Proof.
  assert (Hunused : forall i a, apps (init_state n) !! i = Some a -> in_use a = false).
  { intros i a Hi. cbn [apps init_state] in Hi.
    apply lookup_replicate in Hi as [-> _].
    unfold in_use, apps_init_slot. cbn [app_idx]. rewrite Z.eqb_refl. reflexivity. }
  split; [|split].
  - intros i j a b Hi Hj Hin _. rewrite (Hunused i a Hi) in Hin. discriminate.
  - intros i j u v Hi Hj Hvu _ _. cbn [app_key_updates init_state] in Hi.
    apply lookup_replicate in Hi as [-> _]. discriminate.
  - intros get i a Hi Hin. rewrite (Hunused i a Hi) in Hin. discriminate.
Qed.

End Reachable.

(** * Further properties of the operations *)

(** ** Add of a new index *)

Lemma memcpy_16 (dst src : list Z) :
  length src = 16%nat -> length dst = 16%nat -> memcpy dst src 16 = src.
Proof.
  intros Hs Hd. unfold memcpy.
  rewrite take_ge by lia. rewrite drop_ge by lia. apply app_nil_r.
Qed.

Lemma memcmp_refl (a : list Z) (n : nat) : memcmp a a n = 0.
Proof.
  revert a. induction n as [|n IH]; intros [|x a]; simpl; auto.
  rewrite Z.eqb_refl. apply IH.
Qed.

Section AddNew.
Context `{M : Mesh}.

(** The lazy registration at the head of Add. *)
Lemma add_registration_frame st :
  let st1 := match subnet_cb_0 st with
             | None => with_subnet_cb (Some cb_subnet_evt) st
             | Some _ => st
             end in
  apps st1 = apps st /\ app_key_updates st1 = app_key_updates st /\
  trace st1 = trace st.
Proof. destruct (subnet_cb_0 st); simpl; auto. Qed.

Lemma settings_if_frame idx store st :
  apps (if CONFIG_BT_SETTINGS then update_app_key_settings idx store st else st)
    = apps st /\
  subnet_cb_0 (if CONFIG_BT_SETTINGS then update_app_key_settings idx store st else st)
    = subnet_cb_0 st /\
  exists es,
    trace (if CONFIG_BT_SETTINGS then update_app_key_settings idx store st else st)
      = trace st ++ es /\ key_evts es = [].
Proof.
  destruct CONFIG_BT_SETTINGS.
  - destruct (update_app_key_settings_frame idx store st) as (Ha & He).
    split; [exact Ha|]. split; [|exact He].
    unfold update_app_key_settings. destruct BLE_MESH_SETTINGS; [|reflexivity].
    destruct (app_key_update_find st idx) as [[u|] [f|]]; try reflexivity.
    destruct store; unfold store_app_key, clear_app_key;
      destruct BLE_MESH_SETTINGS; try reflexivity.
    destruct (app_get st idx) as [i|]; [|reflexivity].
    destruct (apps st !! i); reflexivity.
  - repeat split. exists []. rewrite app_nil_r. auto.
Qed.

Lemma bt_mesh_app_key_add_new_unfold idx net key st sub app a id0 :
  bt_mesh_subnet_get net = Some sub ->
  app_get st idx = None ->
  app_key_alloc st idx = Some app ->
  apps st !! app = Some a ->
  bt_mesh_app_id key (cred_id (keys0 a)) = (0, id0) ->
  bt_mesh_app_key_add idx net key st =
    (STATUS_SUCCESS,
     emit (app_key_evt_loop bt_mesh_app_key_cb_list 0%nat idx net BT_MESH_KEY_ADDED)
       (let st5 :=
          with_apps (<[app := added_slot idx net id0 key a]> (apps st))
            (match subnet_cb_0 st with
             | None => with_subnet_cb (Some cb_subnet_evt) st
             | Some _ => st
             end) in
        if CONFIG_BT_SETTINGS then update_app_key_settings idx true st5 else st5)).
Proof.
  intros Hsub Hget Hal Ha Hid. unfold bt_mesh_app_key_add.
  destruct (add_registration_frame st) as (Hap & _ & _). cbv zeta in Hap.
  set (st1 := match subnet_cb_0 st with
              | None => with_subnet_cb (Some cb_subnet_evt) st
              | Some _ => st
              end) in *.
  assert (Hal1 : app_key_alloc st1 idx = Some app)
    by (unfold app_key_alloc; rewrite Hap; exact Hal).
  assert (Hne : app_idx a <> idx).
  { unfold app_get in Hget.
    apply app_get_loop_None with (k := app) (b := a) in Hget; auto. }
  rewrite Hsub, Hal1, Hap, Ha.
  rewrite (proj2 (Z.eqb_neq _ _) Hne), Hid. cbn [Z.eqb negb].
  assert (Hlt : (app < length (apps st))%nat) by (apply lookup_lt_is_Some; eauto).
  assert (H5 : store_app app
             (fun x => set_keys0 (set_cred_val (memcpy (cred_val (keys0 x)) key 16) (keys0 x)) x)
             (store_app app (set_updated false)
                (store_app app (set_app_idx idx)
                   (store_app app (set_net_idx net)
                      (store_app app (fun x => set_keys0 (set_cred_id id0 (keys0 x)) x) st1)))) =
           with_apps (<[app := added_slot idx net id0 key a]> (apps st)) st1).
  { unfold store_app, with_apps. cbn [apps app_key_updates subnet_cb_0 trace].
    rewrite !list_alter_alter_eq, Hap. rewrite (alter_at _ _ _ a Ha). reflexivity. }
  rewrite H5. cbv zeta. f_equal.
  set (st5 := with_apps (<[app := added_slot idx net id0 key a]> (apps st)) st1).
  destruct (settings_if_frame idx true st5) as (Ha6 & _ & _).
  rewrite (app_key_evt_spec app _ _ (added_slot idx net id0 key a)).
  - reflexivity.
  - rewrite Ha6. cbn [apps st5 with_apps]. apply list_lookup_insert_eq. exact Hlt.
Qed.

(** X1. Add of an index that is not in the table, on an existing subnet,
    with a slot to take and a successful AID derivation: the status is
    success, the slot holds the index bound to the subnet with the key and
    its AID as generation 0 and [updated] off, no other slot changes, the
    index exists afterwards, and the listeners get ADDED once. *)
Theorem add_new_record idx net key st sub app a id0 :
  bt_mesh_subnet_get net = Some sub ->
  bt_mesh_app_key_exists st idx = false ->
  app_key_alloc st idx = Some app ->
  apps st !! app = Some a ->
  bt_mesh_app_id key (cred_id (keys0 a)) = (0, id0) ->
  fst (bt_mesh_app_key_add idx net key st) = STATUS_SUCCESS /\
  apps (snd (bt_mesh_app_key_add idx net key st)) =
    <[app := added_slot idx net id0 key a]> (apps st) /\
  bt_mesh_app_key_exists (snd (bt_mesh_app_key_add idx net key st)) idx = true /\
  key_evts (trace (snd (bt_mesh_app_key_add idx net key st))) =
    key_evts (trace st) ++
    app_key_evt_loop bt_mesh_app_key_cb_list 0%nat idx net BT_MESH_KEY_ADDED.
Proof.
  intros Hsub Hex Hal Ha Hid. apply exists_false_app_get in Hex.
  rewrite (bt_mesh_app_key_add_new_unfold idx net key st sub app a id0) by assumption.
  cbv zeta. cbn [fst snd].
  set (st5 := with_apps (<[app := added_slot idx net id0 key a]> (apps st)) _).
  destruct (settings_if_frame idx true st5) as (Ha6 & _ & es & He & Hk).
  assert (Hap : apps (emit (app_key_evt_loop bt_mesh_app_key_cb_list 0%nat idx net
                              BT_MESH_KEY_ADDED)
                        (if CONFIG_BT_SETTINGS
                         then update_app_key_settings idx true st5 else st5)) =
                <[app := added_slot idx net id0 key a]> (apps st))
    by (cbn [apps emit]; rewrite Ha6; reflexivity).
  split; [reflexivity|]. split; [exact Hap|]. split.
  - unfold bt_mesh_app_key_exists. rewrite Hap.
    destruct (bt_mesh_app_key_exists_loop _ idx) eqn:E; [reflexivity|].
    exfalso. apply exists_loop_false with (k := app) (b := added_slot idx net id0 key a) in E.
    + apply E. reflexivity.
    + apply list_lookup_insert_eq. apply lookup_lt_is_Some. eauto.
  - cbn [trace emit]. rewrite He, !key_evts_app, Hk, app_nil_r.
    f_equal.
    + unfold st5. cbn [trace with_apps]. destruct (subnet_cb_0 st); reflexivity.
    + change (app_key_evt_loop bt_mesh_app_key_cb_list 0%nat idx net BT_MESH_KEY_ADDED)
        with (key_evts_of (added_slot idx net id0 key a) BT_MESH_KEY_ADDED).
      apply key_evts_of_all.
Qed.

End AddNew.

(** ** More on the lookups *)

Section MoreLookups.
Context `{M : Mesh}.

Lemma app_get_loop_first l i idx j a :
  l !! j = Some a -> app_idx a = idx ->
  (forall k b, (k < j)%nat -> l !! k = Some b -> app_idx b <> idx) ->
  app_get_loop l i idx = Some (i + j)%nat.
Proof.
  revert i j. induction l as [|x l IH]; intros i j Hj Ha Hmin; [discriminate|].
  simpl. destruct j as [|j]; simpl in Hj.
  - injection Hj as ->. rewrite (proj2 (Z.eqb_eq _ _) Ha). f_equal. lia.
  - assert (Hx : app_idx x <> idx) by (apply (Hmin 0%nat x); [lia|reflexivity]).
    rewrite (proj2 (Z.eqb_neq _ _) Hx).
    rewrite (IH (S i) j Hj Ha); [f_equal; lia|].
    intros k b Hk Hb. apply (Hmin (S k) b); [lia|exact Hb].
Qed.

Lemma app_get_first st idx j a :
  apps st !! j = Some a -> app_idx a = idx ->
  (forall k b, (k < j)%nat -> apps st !! k = Some b -> app_idx b <> idx) ->
  app_get st idx = Some j.
Proof. intros. unfold app_get. rewrite (app_get_loop_first _ 0 idx j a); auto. Qed.

(** A record written over a slot, under an index nobody holds, is what
    [app_get] finds for that index. *)
Lemma app_get_loop_insert_fresh l app a b :
  l !! app = Some a ->
  (forall k c, l !! k = Some c -> app_idx c <> app_idx b) ->
  app_get_loop (<[app := b]> l) 0%nat (app_idx b) = Some app.
Proof.
  intros Ha Hfresh.
  rewrite (app_get_loop_first _ 0 (app_idx b) app b); auto.
  - apply list_lookup_insert_eq. apply lookup_lt_is_Some. eauto.
  - intros k c Hk Hc. rewrite list_lookup_insert_ne in Hc by lia. eauto.
Qed.

Lemma app_key_alloc_loop_None l i app idx :
  app_key_alloc_loop l i app idx = None <->
  app = None /\
  forall k b, l !! k = Some b ->
    app_idx b <> idx /\ app_idx b <> BT_MESH_KEY_UNUSED.
Proof.
  revert i app. induction l as [|x l IH]; intros i app; simpl.
  - split; [intros ->; split; [reflexivity|intros k b Hb; discriminate]|intros [-> _]; reflexivity].
  - destruct (Z.eqb_spec (app_idx x) idx) as [He|Hne].
    + split; [discriminate|]. intros [_ H]. exfalso.
      destruct (H 0%nat x eq_refl) as [H1 _]. contradiction.
    + rewrite IH. destruct app as [p|].
      * split; intros [H _]; discriminate.
      * destruct (Z.eqb_spec (app_idx x) BT_MESH_KEY_UNUSED) as [Hu|Hu].
        -- split; [intros [H _]; discriminate|]. intros [_ H]. exfalso.
           destruct (H 0%nat x eq_refl) as [_ H2]. contradiction.
        -- split; intros [_ H]; (split; [reflexivity|]).
           ++ intros [|k] b Hb; simpl in Hb; [injection Hb as <-; auto|eauto].
           ++ intros k b Hb. apply (H (S k) b). exact Hb.
Qed.

(** [app_key_alloc] gives up exactly when the index is not in the table
    and no slot is unused. *)
Lemma app_key_alloc_None st idx :
  app_key_alloc st idx = None <->
  forall k b, apps st !! k = Some b ->
    app_idx b <> idx /\ app_idx b <> BT_MESH_KEY_UNUSED.
Proof.
  unfold app_key_alloc. rewrite app_key_alloc_loop_None. tauto.
Qed.

(** The slot [app_key_alloc] returns is a slot of the table. *)
Lemma app_key_alloc_in_range st idx app :
  app_key_alloc st idx = Some app -> is_Some (apps st !! app).
Proof.
  intros Hal. destruct (app_get st idx) as [j|] eqn:Hg.
  - rewrite (app_key_alloc_found st idx j Hg) in Hal. injection Hal as <-.
    apply app_get_Some in Hg as (a & Ha & _). eauto.
  - destruct (app_key_alloc_fresh st idx app Hg Hal) as (a & Ha & _). eauto.
Qed.

End MoreLookups.

(** ** Add: rejections and repetition *)

Section AddMore.
Context `{M : Mesh}.

(** X2. An Add that does not answer success calls no listener, requests
    no store, leaves the tracker alone, leaves every record in use as it
    was, and neither creates nor removes an index. *)
Theorem add_rejected_changes_nothing idx net key st :
  fst (bt_mesh_app_key_add idx net key st) <> STATUS_SUCCESS ->
  trace (snd (bt_mesh_app_key_add idx net key st)) = trace st /\
  app_key_updates (snd (bt_mesh_app_key_add idx net key st)) = app_key_updates st /\
  map app_idx (apps (snd (bt_mesh_app_key_add idx net key st))) = map app_idx (apps st) /\
  (forall i, bt_mesh_app_key_exists (snd (bt_mesh_app_key_add idx net key st)) i =
             bt_mesh_app_key_exists st i) /\
  (forall i a, apps st !! i = Some a -> in_use a = true ->
     apps (snd (bt_mesh_app_key_add idx net key st)) !! i = Some a).
Proof.
  intros Hrej.
  assert (Hmain :
    trace (snd (bt_mesh_app_key_add idx net key st)) = trace st /\
    app_key_updates (snd (bt_mesh_app_key_add idx net key st)) = app_key_updates st /\
    map app_idx (apps (snd (bt_mesh_app_key_add idx net key st))) = map app_idx (apps st) /\
    (forall i a, apps st !! i = Some a -> in_use a = true ->
       apps (snd (bt_mesh_app_key_add idx net key st)) !! i = Some a)).
  { revert Hrej. unfold bt_mesh_app_key_add.
    destruct (add_registration_frame st) as (Hap & Hup & Htr). cbv zeta in Hap, Hup, Htr.
    set (st1 := match subnet_cb_0 st with
                | None => with_subnet_cb (Some cb_subnet_evt) st
                | Some _ => st
                end) in *.
    assert (Hsame : trace st1 = trace st /\ app_key_updates st1 = app_key_updates st /\
                    map app_idx (apps st1) = map app_idx (apps st) /\
                    (forall i a, apps st !! i = Some a -> in_use a = true ->
                       apps st1 !! i = Some a))
      by (rewrite Hap; auto).
    destruct (bt_mesh_subnet_get net); [|intros _; exact Hsame].
    destruct (app_key_alloc st1 idx) as [app|] eqn:Hal; [|intros _; exact Hsame].
    destruct (apps st1 !! app) as [a|] eqn:Ha; [|intros _; exact Hsame].
    destruct (Z.eqb_spec (app_idx a) idx) as [He|Hne].
    { destruct (negb (net_idx a =? net)); [intros _; exact Hsame|].
      destruct (negb (memcmp key (cred_val (keys0 a)) 16 =? 0)); intros _; exact Hsame. }
    destruct (bt_mesh_app_id key (cred_id (keys0 a))) as [err id0].
    destruct (negb (err =? 0)); cbn [fst snd]; [intros _|congruence].
    pose proof (app_key_alloc_not_found st1 idx app a Hal Ha Hne) as Hg.
    destruct (app_key_alloc_fresh st1 idx app Hg Hal) as (a' & Ha' & Hunused & _).
    assert (a' = a) by congruence. subst a'.
    unfold store_app. cbn [apps app_key_updates trace with_apps].
    split; [exact Htr|]. split; [exact Hup|]. split.
    - rewrite map_alter_preserve by reflexivity. rewrite Hap. reflexivity.
    - intros i r Hi Hin. rewrite Hap in *.
      destruct (decide (app = i)) as [<-|Hd].
      + exfalso. assert (r = a) by congruence. subst r.
        unfold in_use in Hin. rewrite Hunused, Z.eqb_refl in Hin. discriminate.
      + rewrite list_lookup_alter_ne by exact Hd. exact Hi. }
  destruct Hmain as (Htr & Hup & Hidx & Huse).
  repeat split; auto.
  intros i. unfold bt_mesh_app_key_exists. apply exists_loop_ext. exact Hidx.
Qed.

(** X3. On an existing subnet, Add answers insufficient-resources exactly
    when the index is not in the table and no slot is unused. *)
Theorem add_insufficient_resources_iff idx net key st sub :
  bt_mesh_subnet_get net = Some sub ->
  (fst (bt_mesh_app_key_add idx net key st) = STATUS_INSUFF_RESOURCES <->
   forall k b, apps st !! k = Some b ->
     app_idx b <> idx /\ app_idx b <> BT_MESH_KEY_UNUSED).
Proof.
  intros Hsub. rewrite <- app_key_alloc_None. unfold bt_mesh_app_key_add.
  destruct (add_registration_frame st) as (Hap & _ & _). cbv zeta in Hap.
  set (st1 := match subnet_cb_0 st with
              | None => with_subnet_cb (Some cb_subnet_evt) st
              | Some _ => st
              end) in *.
  assert (Hal1 : app_key_alloc st1 idx = app_key_alloc st idx)
    by (unfold app_key_alloc; rewrite Hap; reflexivity).
  rewrite Hsub, Hal1.
  destruct (app_key_alloc st idx) as [app|] eqn:Hal; [|split; reflexivity].
  destruct (app_key_alloc_in_range st idx app Hal) as [a Ha]. rewrite Hap, Ha.
  split; [|discriminate]. intros H. exfalso. revert H.
  destruct (app_idx a =? idx).
  - destruct (negb (net_idx a =? net)); [discriminate|].
    destruct (negb (memcmp key (cred_val (keys0 a)) 16 =? 0)); discriminate.
  - destruct (bt_mesh_app_id key (cred_id (keys0 a))) as [err id0].
    destruct (negb (err =? 0)); discriminate.
Qed.

(** X4. A second Add with the same arguments, after a successful Add of a
    new index with a 16-byte key into a slot with 16-byte keys, answers
    success and leaves the state exactly as the first Add left it. *)
Theorem add_twice idx net key st sub app a id0 :
  bt_mesh_subnet_get net = Some sub ->
  bt_mesh_app_key_exists st idx = false ->
  app_key_alloc st idx = Some app ->
  apps st !! app = Some a ->
  bt_mesh_app_id key (cred_id (keys0 a)) = (0, id0) ->
  length key = 16%nat ->
  length (cred_val (keys0 a)) = 16%nat ->
  bt_mesh_app_key_add idx net key (snd (bt_mesh_app_key_add idx net key st)) =
    (STATUS_SUCCESS, snd (bt_mesh_app_key_add idx net key st)).
Proof.
  intros Hsub Hex Hal Ha Hid Hk Hk0.
  pose proof (proj1 (exists_false_app_get st idx) Hex) as Hget.
  rewrite (bt_mesh_app_key_add_new_unfold idx net key st sub app a id0) by assumption.
  cbv zeta. cbn [snd].
  set (st5 := with_apps (<[app := added_slot idx net id0 key a]> (apps st)) _).
  set (st7 := emit _ _).
  destruct (settings_if_frame idx true st5) as (Ha6 & Hcb & _).
  assert (Hap7 : apps st7 = <[app := added_slot idx net id0 key a]> (apps st))
    by (unfold st7; cbn [apps emit]; rewrite Ha6; reflexivity).
  assert (Hcb7 : is_Some (subnet_cb_0 st7)).
  { unfold st7. cbn [subnet_cb_0 emit]. rewrite Hcb. unfold st5.
    cbn [subnet_cb_0 with_apps]. destruct (subnet_cb_0 st) eqn:E; [rewrite E|]; eauto. }
  assert (Hfresh : forall k c, apps st !! k = Some c -> app_idx c <> idx).
  { intros k c Hc. unfold app_get in Hget.
    apply app_get_loop_None with (k := k) (b := c) in Hget; auto. }
  assert (Hget7 : app_get st7 idx = Some app).
  { unfold app_get. rewrite Hap7.
    apply (app_get_loop_insert_fresh _ app a (added_slot idx net id0 key a) Ha Hfresh). }
  assert (Ha7 : apps st7 !! app = Some (added_slot idx net id0 key a)).
  { rewrite Hap7. apply list_lookup_insert_eq. apply lookup_lt_is_Some. eauto. }
  unfold bt_mesh_app_key_add.
  destruct Hcb7 as [c Hc]. rewrite Hc, Hsub.
  rewrite (app_key_alloc_found st7 idx app Hget7), Ha7.
  cbn [app_idx net_idx keys0 cred_val added_slot]. rewrite !Z.eqb_refl. cbn [negb].
  rewrite (memcpy_16 _ key Hk Hk0), memcmp_refl. reflexivity.
Qed.

(** Whatever Add answers, afterwards the first slot of the subnet
    listener list is taken: by the listener that was there, or, when it
    was empty, by [subnet_evt]. *)
Lemma add_registers_listener idx net key st :
  subnet_cb_0 (snd (bt_mesh_app_key_add idx net key st)) =
    match subnet_cb_0 st with
    | None => Some cb_subnet_evt
    | Some c => Some c
    end.
Proof.
  unfold bt_mesh_app_key_add.
  set (st1 := match subnet_cb_0 st with
              | None => with_subnet_cb (Some cb_subnet_evt) st
              | Some _ => st
              end).
  assert (H1 : subnet_cb_0 st1 = match subnet_cb_0 st with
                                 | None => Some cb_subnet_evt
                                 | Some c => Some c
                                 end)
    by (unfold st1; destruct (subnet_cb_0 st) eqn:E; [exact E|reflexivity]).
  rewrite <- H1. clearbody st1.
  destruct (bt_mesh_subnet_get net); [|reflexivity].
  destruct (app_key_alloc st1 idx) as [app|]; [|reflexivity].
  destruct (apps st1 !! app) as [a|]; [|reflexivity].
  destruct (app_idx a =? idx).
  { destruct (negb (net_idx a =? net)); [reflexivity|].
    destruct (negb (memcmp key (cred_val (keys0 a)) 16 =? 0)); reflexivity. }
  destruct (bt_mesh_app_id key (cred_id (keys0 a))) as [err id0].
  destruct (negb (err =? 0)); cbn [snd]; [reflexivity|].
  unfold app_key_evt.
  match goal with |- context [apps ?s !! app] => destruct (apps s !! app) end;
    cbn [subnet_cb_0 emit];
    match goal with
    | |- context [update_app_key_settings ?i ?b ?s] =>
        destruct (settings_if_frame i b s) as (_ & Hcb & _); rewrite Hcb; reflexivity
    end.
Qed.

End AddMore.

(** ** Update: the accepted and the rejected cases *)

Section UpdateMore.
Context `{M : Mesh}.

Lemma bt_mesh_app_key_update_unfold idx net key st app a sub id1 :
  app_get st idx = Some app ->
  apps st !! app = Some a ->
  net = BT_MESH_KEY_UNUSED \/ net = net_idx a ->
  bt_mesh_subnet_get (net_idx a) = Some sub ->
  kr_phase sub = BT_MESH_KR_PHASE_1 ->
  updated a = false ->
  bt_mesh_app_id key (cred_id (keys1 a)) = (0, id1) ->
  bt_mesh_app_key_update idx net key st =
    (STATUS_SUCCESS,
     emit (key_evts_of a BT_MESH_KEY_UPDATED)
       (let st3 := with_apps (<[app := updated_slot id1 key a]> (apps st)) st in
        if CONFIG_BT_SETTINGS
        then update_app_key_settings (app_idx a) true st3 else st3)).
Proof.
  intros Hget Ha Hnet Hsub Hph Hup Hid. unfold bt_mesh_app_key_update.
  rewrite Hget, Ha, Hsub, Hph, Z.eqb_refl, Hup, Hid.
  assert (Hb : negb (net =? BT_MESH_KEY_UNUSED) && negb (net_idx a =? net) = false).
  { destruct Hnet as [->| ->]; rewrite Z.eqb_refl; [reflexivity|].
    apply andb_false_r. }
  rewrite Hb. cbn [negb Z.eqb].
  assert (Hlt : (app < length (apps st))%nat) by (apply lookup_lt_is_Some; eauto).
  assert (H3 : store_app app
             (fun x => set_keys1 (set_cred_val (memcpy (cred_val (keys1 x)) key 16) (keys1 x)) x)
             (store_app app (set_updated true)
                (store_app app (fun x => set_keys1 (set_cred_id id1 (keys1 x)) x) st)) =
           with_apps (<[app := updated_slot id1 key a]> (apps st)) st).
  { unfold store_app, with_apps. cbn [apps app_key_updates subnet_cb_0 trace].
    rewrite !list_alter_alter_eq. rewrite (alter_at _ _ _ a Ha). reflexivity. }
  rewrite H3. cbv zeta. f_equal.
  set (st3 := with_apps (<[app := updated_slot id1 key a]> (apps st)) st).
  destruct (settings_if_frame (app_idx a) true st3) as (Ha4 & _ & _).
  rewrite (app_key_evt_spec app _ _ (updated_slot id1 key a)); [reflexivity|].
  rewrite Ha4. cbn [apps st3 with_apps]. apply list_lookup_insert_eq. exact Hlt.
Qed.

(** X5. Update of a record that is not updated, while its subnet is in
    Phase 1, with [net] unused or the bound NetKey index and a successful
    AID derivation: the status is success, the record gets the key and its
    AID as generation 1 and [updated] on, generation 0 and the binding stay,
    no other slot changes, and the listeners get UPDATED once. *)
Theorem update_new_generation idx net key st app a sub id1 :
  app_get st idx = Some app ->
  apps st !! app = Some a ->
  net = BT_MESH_KEY_UNUSED \/ net = net_idx a ->
  bt_mesh_subnet_get (net_idx a) = Some sub ->
  kr_phase sub = BT_MESH_KR_PHASE_1 ->
  updated a = false ->
  bt_mesh_app_id key (cred_id (keys1 a)) = (0, id1) ->
  fst (bt_mesh_app_key_update idx net key st) = STATUS_SUCCESS /\
  apps (snd (bt_mesh_app_key_update idx net key st)) =
    <[app := updated_slot id1 key a]> (apps st) /\
  key_evts (trace (snd (bt_mesh_app_key_update idx net key st))) =
    key_evts (trace st) ++ key_evts_of a BT_MESH_KEY_UPDATED.
Proof.
  intros Hget Ha Hnet Hsub Hph Hup Hid.
  rewrite (bt_mesh_app_key_update_unfold idx net key st app a sub id1) by assumption.
  cbv zeta. cbn [fst snd apps trace emit].
  set (st3 := with_apps (<[app := updated_slot id1 key a]> (apps st)) st).
  destruct (settings_if_frame (app_idx a) true st3) as (Ha4 & _ & es & He & Hk).
  split; [reflexivity|]. split; [rewrite Ha4; reflexivity|].
  rewrite He, !key_evts_app, Hk, app_nil_r, key_evts_of_all. reflexivity.
Qed.

(** X6. A second Update with the same arguments, after an accepted Update
    with a 16-byte key of a record with 16-byte keys, answers success and
    leaves the state exactly as the first Update left it; with another
    16-byte key it answers already-stored and leaves that state too. *)
Theorem update_twice idx net key key' st app a sub id1 :
  app_get st idx = Some app ->
  apps st !! app = Some a ->
  net = BT_MESH_KEY_UNUSED \/ net = net_idx a ->
  bt_mesh_subnet_get (net_idx a) = Some sub ->
  kr_phase sub = BT_MESH_KR_PHASE_1 ->
  updated a = false ->
  bt_mesh_app_id key (cred_id (keys1 a)) = (0, id1) ->
  length key = 16%nat ->
  length (cred_val (keys1 a)) = 16%nat ->
  bt_mesh_app_key_update idx net key (snd (bt_mesh_app_key_update idx net key st)) =
    (STATUS_SUCCESS, snd (bt_mesh_app_key_update idx net key st)) /\
  (length key' = 16%nat -> key' <> key ->
   bt_mesh_app_key_update idx net key' (snd (bt_mesh_app_key_update idx net key st)) =
     (STATUS_IDX_ALREADY_STORED, snd (bt_mesh_app_key_update idx net key st))).
Proof.
  intros Hget Ha Hnet Hsub Hph Hup Hid Hk Hk1.
  rewrite (bt_mesh_app_key_update_unfold idx net key st app a sub id1) by assumption.
  cbv zeta. cbn [snd].
  set (st3 := with_apps (<[app := updated_slot id1 key a]> (apps st)) st).
  set (st5 := emit _ _).
  destruct (settings_if_frame (app_idx a) true st3) as (Ha4 & _ & _).
  assert (Hap5 : apps st5 = <[app := updated_slot id1 key a]> (apps st))
    by (unfold st5; cbn [apps emit]; rewrite Ha4; reflexivity).
  assert (Hget5 : app_get st5 idx = Some app).
  { unfold app_get in *. rewrite Hap5, <- Hget. apply app_get_loop_ext.
    apply (map_insert_same _ _ _ a); auto. }
  assert (Ha5 : apps st5 !! app = Some (updated_slot id1 key a)).
  { rewrite Hap5. apply list_lookup_insert_eq. apply lookup_lt_is_Some. eauto. }
  assert (Hb : negb (net =? BT_MESH_KEY_UNUSED) && negb (net_idx a =? net) = false).
  { destruct Hnet as [->| ->]; rewrite Z.eqb_refl; [reflexivity|].
    apply andb_false_r. }
  assert (Hhead : forall k,
            bt_mesh_app_key_update idx net k st5 =
              if negb (memcmp key k 16 =? 0)
              then (STATUS_IDX_ALREADY_STORED, st5) else (STATUS_SUCCESS, st5)).
  { intros k. unfold bt_mesh_app_key_update. rewrite Hget5, Ha5.
    cbn [net_idx updated keys1 cred_val updated_slot].
    rewrite Hb, Hsub, Hph, Z.eqb_refl. cbn [negb].
    rewrite (memcpy_16 _ key Hk Hk1). reflexivity. }
  split.
  - rewrite Hhead, memcmp_refl. reflexivity.
  - intros Hk' Hne. rewrite Hhead.
    destruct (Z.eqb_spec (memcmp key key' 16) 0) as [E|E]; [|reflexivity].
    exfalso. apply Hne. symmetry. apply (memcmp_eq key key' 16 Hk Hk'). exact E.
Qed.

(** X7. An Update that does not answer success calls no listener,
    requests no store, leaves the tracker alone, and leaves in every slot
    the binding, the index, the [updated] flag, generation 0 and the key
    value of generation 1 as they were. *)
Theorem update_rejected_keeps_keys idx net key st :
  fst (bt_mesh_app_key_update idx net key st) <> STATUS_SUCCESS ->
  trace (snd (bt_mesh_app_key_update idx net key st)) = trace st /\
  app_key_updates (snd (bt_mesh_app_key_update idx net key st)) = app_key_updates st /\
  map (fun a => (net_idx a, app_idx a, updated a, keys0 a, cred_val (keys1 a)))
      (apps (snd (bt_mesh_app_key_update idx net key st))) =
  map (fun a => (net_idx a, app_idx a, updated a, keys0 a, cred_val (keys1 a)))
      (apps st).
Proof.
  unfold bt_mesh_app_key_update.
  destruct (app_get st idx) as [app|]; [|auto].
  destruct (apps st !! app) as [a|]; [|auto].
  destruct (negb (net =? BT_MESH_KEY_UNUSED) && negb (net_idx a =? net)); [auto|].
  destruct (bt_mesh_subnet_get (net_idx a)) as [sub|]; [|auto].
  destruct (negb (kr_phase sub =? BT_MESH_KR_PHASE_1)); [auto|].
  destruct (updated a).
  { destruct (negb (memcmp (cred_val (keys1 a)) key 16 =? 0)); auto. }
  destruct (bt_mesh_app_id key (cred_id (keys1 a))) as [err id1].
  destruct (negb (err =? 0)); cbn [fst snd]; [intros _|congruence].
  unfold store_app. cbn [apps app_key_updates trace with_apps].
  repeat split. apply map_alter_preserve. reflexivity.
Qed.

(** X8. Update answers invalid-appkey exactly when the index is not in
    the table. *)
Theorem update_invalid_appkey_iff idx net key st :
  fst (bt_mesh_app_key_update idx net key st) = STATUS_INVALID_APPKEY <->
  bt_mesh_app_key_exists st idx = false.
Proof.
  rewrite exists_false_app_get. unfold bt_mesh_app_key_update.
  destruct (app_get st idx) as [app|] eqn:Hget; [|split; reflexivity].
  destruct (app_get_Some st idx app Hget) as (a & Ha & _). rewrite Ha.
  split; [|discriminate]. intros H. exfalso. revert H.
  destruct (negb (net =? BT_MESH_KEY_UNUSED) && negb (net_idx a =? net)); [discriminate|].
  destruct (bt_mesh_subnet_get (net_idx a)) as [sub|]; [|discriminate].
  destruct (negb (kr_phase sub =? BT_MESH_KR_PHASE_1)); [discriminate|].
  destruct (updated a).
  { destruct (negb (memcmp (cred_val (keys1 a)) key 16 =? 0)); discriminate. }
  destruct (bt_mesh_app_id key (cred_id (keys1 a))) as [err id1].
  destruct (negb (err =? 0)); discriminate.
Qed.

End UpdateMore.

(** ** Delete of an existing index, and how the operations compose *)

Section DeleteMore.
Context `{M : Mesh}.

(** X9. Delete of an index found in the table, with [net] unused or an
    existing subnet that is the bound one: the status is success, the slot
    is emptied, no other slot changes and the listeners get DELETED once,
    with the index and the binding the record had; in a table with at most
    one record per index, the index (one in use) does not exist
    afterwards. *)
Theorem del_existing idx net st app a :
  app_get st idx = Some app ->
  apps st !! app = Some a ->
  net = BT_MESH_KEY_UNUSED \/ (is_Some (bt_mesh_subnet_get net) /\ net = net_idx a) ->
  fst (bt_mesh_app_key_del idx net st) = STATUS_SUCCESS /\
  apps (snd (bt_mesh_app_key_del idx net st)) = <[app := deleted_slot a]> (apps st) /\
  key_evts (trace (snd (bt_mesh_app_key_del idx net st))) =
    key_evts (trace st) ++ key_evts_of a BT_MESH_KEY_DELETED /\
  (in_use a = true -> unique_app_idx (apps st) ->
   bt_mesh_app_key_exists (snd (bt_mesh_app_key_del idx net st)) idx = false).
Proof.
  intros Hget Ha Hnet.
  assert (Heq : bt_mesh_app_key_del idx net st = (STATUS_SUCCESS, app_key_del app st)).
  { unfold bt_mesh_app_key_del. rewrite Hget, Ha.
    destruct Hnet as [->|[Hs ->]].
    - rewrite Z.eqb_refl. reflexivity.
    - rewrite (bool_decide_eq_true_2 _ Hs), Z.eqb_refl.
      rewrite !andb_false_r. reflexivity. }
  rewrite Heq. cbn [fst snd].
  split; [reflexivity|]. split; [apply (app_key_del_apps app a st Ha)|].
  split; [apply (app_key_del_key_evts app a st Ha)|].
  intros Hin Hu. unfold bt_mesh_app_key_exists.
  rewrite (app_key_del_apps app a st Ha).
  apply exists_loop_false. intros k b Hk.
  destruct (app_get_Some st idx app Hget) as (a' & Ha' & Hidx & _).
  assert (a' = a) by congruence. subst a'.
  assert (Hne : idx <> BT_MESH_KEY_UNUSED).
  { unfold in_use in Hin. rewrite Hidx in Hin.
    apply negb_true_iff, Z.eqb_neq in Hin. exact Hin. }
  destruct (decide (app = k)) as [<-|Hd].
  - rewrite list_lookup_insert_eq in Hk by (apply lookup_lt_is_Some; eauto).
    injection Hk as <-. cbn [app_idx deleted_slot]. congruence.
  - rewrite list_lookup_insert_ne in Hk by exact Hd.
    intros Hb. apply Hd. apply (Hu app k a b); auto. congruence.
Qed.

(** X10. Delete answers success, invalid-netkey or invalid-binding, and
    unless it answers success it leaves the state as it was. *)
Theorem del_rejected_changes_nothing idx net st :
  (fst (bt_mesh_app_key_del idx net st) = STATUS_SUCCESS \/
   fst (bt_mesh_app_key_del idx net st) = STATUS_INVALID_NETKEY \/
   fst (bt_mesh_app_key_del idx net st) = STATUS_INVALID_BINDING) /\
  (fst (bt_mesh_app_key_del idx net st) <> STATUS_SUCCESS ->
   snd (bt_mesh_app_key_del idx net st) = st).
Proof.
  unfold bt_mesh_app_key_del.
  destruct (negb (net =? BT_MESH_KEY_UNUSED)
            && negb (bool_decide (is_Some (bt_mesh_subnet_get net)))); [auto|].
  destruct (app_get st idx) as [app|]; [|auto].
  destruct (apps st !! app) as [a|]; [|auto].
  destruct (negb (net =? BT_MESH_KEY_UNUSED) && negb (net =? net_idx a)); [auto|].
  cbn [fst snd]. split; [auto|congruence].
Qed.

Lemma add_new_record_aux idx net key st sub app a id0 :
  bt_mesh_subnet_get net = Some sub ->
  bt_mesh_app_key_exists st idx = false ->
  app_key_alloc st idx = Some app ->
  apps st !! app = Some a ->
  bt_mesh_app_id key (cred_id (keys0 a)) = (0, id0) ->
  fst (bt_mesh_app_key_add idx net key st) = STATUS_SUCCESS /\
  apps (snd (bt_mesh_app_key_add idx net key st)) =
    <[app := added_slot idx net id0 key a]> (apps st).
Proof.
  intros Hsub Hex Hal Ha Hid. apply exists_false_app_get in Hex.
  rewrite (bt_mesh_app_key_add_new_unfold idx net key st sub app a id0) by assumption.
  cbv zeta. cbn [fst snd apps emit]. split; [reflexivity|].
  match goal with
  | |- context [update_app_key_settings ?i ?b ?s] =>
      destruct (settings_if_frame i b s) as (Ha6 & _ & _); rewrite Ha6
  end.
  reflexivity.
Qed.

(** X11. Add of a new index followed by Delete of that index (on the same
    subnet) answers success twice and leaves the table as it was, but for
    the slot that was taken, which is as the program starts with it; the
    index does not exist afterwards. *)
Theorem add_then_del idx net key st sub app a id0 :
  bt_mesh_subnet_get net = Some sub ->
  bt_mesh_app_key_exists st idx = false ->
  app_key_alloc st idx = Some app ->
  apps st !! app = Some a ->
  bt_mesh_app_id key (cred_id (keys0 a)) = (0, id0) ->
  fst (bt_mesh_app_key_add idx net key st) = STATUS_SUCCESS /\
  fst (bt_mesh_app_key_del idx net (snd (bt_mesh_app_key_add idx net key st)))
    = STATUS_SUCCESS /\
  apps (snd (bt_mesh_app_key_del idx net (snd (bt_mesh_app_key_add idx net key st))))
    = <[app := apps_init_slot]> (apps st) /\
  bt_mesh_app_key_exists
    (snd (bt_mesh_app_key_del idx net (snd (bt_mesh_app_key_add idx net key st)))) idx
    = false.
Proof.
  intros Hsub Hex Hal Ha Hid.
  destruct (add_new_record_aux idx net key st sub app a id0) as (Hs & Hap); try assumption.
  pose proof (proj1 (exists_false_app_get st idx) Hex) as Hget.
  set (st' := snd (bt_mesh_app_key_add idx net key st)) in *.
  assert (Hfresh : forall k c, apps st !! k = Some c -> app_idx c <> idx).
  { intros k c Hc. unfold app_get in Hget.
    apply app_get_loop_None with (k := k) (b := c) in Hget; auto. }
  assert (Hget' : app_get st' idx = Some app).
  { unfold app_get. rewrite Hap.
    apply (app_get_loop_insert_fresh _ app a (added_slot idx net id0 key a) Ha Hfresh). }
  assert (Ha' : apps st' !! app = Some (added_slot idx net id0 key a)).
  { rewrite Hap. apply list_lookup_insert_eq. apply lookup_lt_is_Some. eauto. }
  assert (Heq : bt_mesh_app_key_del idx net st' = (STATUS_SUCCESS, app_key_del app st')).
  { unfold bt_mesh_app_key_del. rewrite Hget', Ha'.
    assert (Hsome : is_Some (bt_mesh_subnet_get net)) by eauto.
    rewrite (bool_decide_eq_true_2 _ Hsome).
    cbn [net_idx added_slot]. rewrite Z.eqb_refl, !andb_false_r. reflexivity. }
  rewrite Heq. cbn [fst snd].
  assert (Hfin : apps (app_key_del app st') = <[app := apps_init_slot]> (apps st)).
  { rewrite (app_key_del_apps app _ st' Ha'), Hap.
    rewrite list_insert_insert_eq. reflexivity. }
  split; [exact Hs|]. split; [reflexivity|]. split; [exact Hfin|].
  unfold bt_mesh_app_key_exists. rewrite Hfin.
  apply exists_loop_false. intros k c Hk.
  destruct (app_key_alloc_fresh st idx app Hget Hal) as (a0 & Ha0 & Hun & Hni).
  destruct (decide (app = k)) as [<-|Hd].
  - rewrite list_lookup_insert_eq in Hk by (apply lookup_lt_is_Some; eauto).
    injection Hk as <-. cbn [app_idx apps_init_slot]. congruence.
  - rewrite list_lookup_insert_ne in Hk by exact Hd. eauto.
Qed.

End DeleteMore.

(** ** Rounds over the table *)

Section Rounds.
Context `{M : Mesh}.

(** A loop over the slots whose body rewrites the slot it is at with [g]
    and calls the listeners of [e]. *)
Lemma slot_loop_spec (step : mesh_state -> nat -> mesh_state)
    (g : app_key -> app_key) (e : app_key -> list effect) :
  (forall st pre a l, apps st = pre ++ a :: l ->
     apps (step st (length pre)) = (pre ++ [g a]) ++ l /\
     key_evts (trace (step st (length pre))) = key_evts (trace st) ++ e a) ->
  forall l st pre, apps st = pre ++ l ->
    apps (fold_left step (seq (length pre) (length l)) st) = pre ++ map g l /\
    key_evts (trace (fold_left step (seq (length pre) (length l)) st)) =
      key_evts (trace st) ++ flat_map e l.
Proof.
  intros Hstep. induction l as [|a l IH]; intros st pre Hap; simpl.
  - rewrite !app_nil_r. rewrite app_nil_r in Hap. auto.
  - destruct (Hstep st pre a l Hap) as [H1 H2].
    specialize (IH _ _ H1). rewrite length_app in IH. simpl in IH.
    rewrite Nat.add_1_r in IH. destruct IH as [IH1 IH2].
    rewrite IH1, IH2, H2. rewrite <- !app_assoc. auto.
Qed.

Lemma app_key_revoke_apps_evts app a st :
  apps st !! app = Some a ->
  apps (app_key_revoke app st) =
    <[app := if updated a then revoked_slot a else a]> (apps st) /\
  key_evts (trace (app_key_revoke app st)) =
    key_evts (trace st) ++
    (if updated a then key_evts_of a BT_MESH_KEY_REVOKED else []).
Proof.
  intros Ha. destruct (updated a) eqn:Hup.
  - rewrite (app_key_revoke_unfold app a st Ha Hup). cbv zeta. cbn [apps trace emit].
    match goal with
    | |- context [update_app_key_settings ?i ?b ?s] =>
        destruct (settings_if_frame i b s) as (Ha4 & _ & es & He & Hk)
    end.
    rewrite Ha4, He, !key_evts_app, Hk, app_nil_r, key_evts_of_all. auto.
  - unfold app_key_revoke. rewrite Ha, Hup. cbn [negb].
    rewrite list_insert_id by exact Ha. rewrite app_nil_r. auto.
Qed.

Lemma subnet_evt_step_revoked sub st pre a l :
  apps st = pre ++ a :: l ->
  apps (subnet_evt_step sub BT_MESH_KEY_REVOKED st (length pre)) =
    (pre ++ [revoke_round_slot (sub_net_idx sub) a]) ++ l /\
  key_evts (trace (subnet_evt_step sub BT_MESH_KEY_REVOKED st (length pre))) =
    key_evts (trace st) ++ revoke_round_evts (sub_net_idx sub) a.
Proof.
  intros Hap.
  assert (Ha : apps st !! length pre = Some a)
    by (rewrite Hap; apply list_lookup_middle; reflexivity).
  unfold subnet_evt_step, revoke_round_slot, revoke_round_evts, bound_to, in_use.
  rewrite Ha. rewrite <- app_assoc. cbn [app].
  destruct (app_idx a =? BT_MESH_KEY_UNUSED); cbn [negb andb].
  { rewrite app_nil_r. auto. }
  destruct (net_idx a =? sub_net_idx sub); cbn [negb andb].
  2:{ rewrite app_nil_r. auto. }
  destruct (app_key_revoke_apps_evts _ a st Ha) as [H1 H2].
  rewrite H1, H2. split; [|reflexivity].
  rewrite Hap. rewrite insert_app_r_alt by lia. rewrite Nat.sub_diag. reflexivity.
Qed.

(** X12. The REVOKED event of the subnet [sub] revokes every updated
    record in use that is bound to [sub] (generation 1 becomes generation
    0, generation 1 is zero, [updated] is off), leaves every other slot
    alone, and calls the listeners with REVOKED once per revoked record,
    in slot order; afterwards no record bound to [sub] is updated. *)
Theorem subnet_revoked_round sub st :
  apps (subnet_evt sub BT_MESH_KEY_REVOKED st) =
    map (revoke_round_slot (sub_net_idx sub)) (apps st) /\
  key_evts (trace (subnet_evt sub BT_MESH_KEY_REVOKED st)) =
    key_evts (trace st) ++ flat_map (revoke_round_evts (sub_net_idx sub)) (apps st) /\
  (forall i a, apps (subnet_evt sub BT_MESH_KEY_REVOKED st) !! i = Some a ->
     bound_to (sub_net_idx sub) a = true -> updated a = false).
Proof.
  destruct (slot_loop_spec (subnet_evt_step sub BT_MESH_KEY_REVOKED)
              (revoke_round_slot (sub_net_idx sub)) (revoke_round_evts (sub_net_idx sub))
              (subnet_evt_step_revoked sub) (apps st) st [] eq_refl) as [Hap Hev].
  simpl in Hap, Hev. unfold subnet_evt.
  split; [exact Hap|]. split; [exact Hev|].
  intros i a' Hi Hb. rewrite Hap in Hi.
  change (map (revoke_round_slot (sub_net_idx sub)) (apps st))
    with (revoke_round_slot (sub_net_idx sub) <$> apps st) in Hi.
  rewrite list_lookup_fmap in Hi.
  destruct (apps st !! i) as [a|]; [|discriminate].
  simpl in Hi. injection Hi as <-. unfold revoke_round_slot in *.
  destruct (bound_to (sub_net_idx sub) a) eqn:Hba; cbn [andb] in *.
  - destruct (updated a) eqn:Hup; [reflexivity|exact Hup].
  - congruence.
Qed.

Lemma subnet_evt_step_swapped sub st i :
  exists a_evts,
    subnet_evt_step sub BT_MESH_KEY_SWAPPED st i = emit a_evts st /\
    a_evts = match apps st !! i with
             | Some a => swap_round_evts (sub_net_idx sub) a
             | None => []
             end.
Proof.
  assert (Hnil : st = emit [] st).
  { destruct st. unfold emit. cbn. rewrite app_nil_r. reflexivity. }
  unfold subnet_evt_step, swap_round_evts, bound_to, in_use.
  destruct (apps st !! i) as [a|] eqn:Ha; [|exists []; auto].
  destruct (app_idx a =? BT_MESH_KEY_UNUSED); cbn [negb andb]; [exists []; auto|].
  destruct (net_idx a =? sub_net_idx sub); cbn [negb andb]; [|exists []; auto].
  destruct (updated a); [|exists []; auto].
  eexists. split; [|reflexivity]. apply app_key_evt_spec. exact Ha.
Qed.

Lemma subnet_evt_loop_swapped sub l : forall st pre,
  apps st = pre ++ l ->
  fold_left (subnet_evt_step sub BT_MESH_KEY_SWAPPED) (seq (length pre) (length l)) st =
    emit (flat_map (swap_round_evts (sub_net_idx sub)) l) st.
Proof.
  induction l as [|a l IH]; intros st pre Hap; simpl.
  - destruct st. unfold emit. cbn. rewrite app_nil_r. reflexivity.
  - destruct (subnet_evt_step_swapped sub st (length pre)) as (es & -> & Hes).
    assert (Ha : apps st !! length pre = Some a)
      by (rewrite Hap; apply list_lookup_middle; reflexivity).
    rewrite Ha in Hes. subst es.
    replace (S (length pre)) with (length (pre ++ [a]))
      by (rewrite length_app; simpl; lia).
    rewrite (IH _ (pre ++ [a])).
    + unfold emit. cbn. rewrite <- app_assoc. reflexivity.
    + cbn [apps emit]. rewrite Hap, <- app_assoc. reflexivity.
Qed.

(** X13. The SWAPPED event of the subnet [sub] changes no slot and no
    tracker entry and makes no settings call: all it does is call the
    listeners with SWAPPED once per updated record in use bound to [sub],
    in slot order. *)
Theorem subnet_swapped_round sub st :
  subnet_evt sub BT_MESH_KEY_SWAPPED st =
    emit (flat_map (swap_round_evts (sub_net_idx sub)) (apps st)) st.
Proof.
  unfold subnet_evt. apply (subnet_evt_loop_swapped sub (apps st) st []). reflexivity.
Qed.

(** X14. No subnet event touches a slot that is not a record in use bound
    to that subnet, and the ADDED and UPDATED events change nothing at
    all. *)
Theorem subnet_evt_frame sub evt st :
  (forall i a, apps st !! i = Some a -> bound_to (sub_net_idx sub) a = false ->
     apps (subnet_evt sub evt st) !! i = Some a) /\
  (evt = BT_MESH_KEY_ADDED \/ evt = BT_MESH_KEY_UPDATED -> subnet_evt sub evt st = st).
Proof.
  split.
  - intros i a Hi Hb.
    assert (Hmap : forall g : app_key -> app_key,
              (forall x, bound_to (sub_net_idx sub) x = false -> g x = x) ->
              map g (apps st) !! i = Some a).
    { intros g Hg. change (map g (apps st)) with (g <$> apps st).
      rewrite list_lookup_fmap, Hi. simpl. rewrite (Hg a Hb). reflexivity. }
    destruct evt; try exact Hi.
    + destruct (subnet_evt_loop_deleted sub (apps st) st [] eq_refl) as [Hap _].
      simpl in Hap. unfold subnet_evt. rewrite Hap. apply Hmap.
      intros x Hx. unfold cascade_slot. rewrite Hx. reflexivity.
    + pose proof (subnet_evt_loop_swapped sub (apps st) st [] eq_refl) as Hsw.
      simpl in Hsw. unfold subnet_evt. rewrite Hsw. exact Hi.
    + destruct (slot_loop_spec (subnet_evt_step sub BT_MESH_KEY_REVOKED)
                  (revoke_round_slot (sub_net_idx sub))
                  (revoke_round_evts (sub_net_idx sub))
                  (subnet_evt_step_revoked sub) (apps st) st [] eq_refl) as [Hap _].
      simpl in Hap. unfold subnet_evt. rewrite Hap. apply Hmap.
      intros x Hx. unfold revoke_round_slot. rewrite Hx. reflexivity.
  - intros [->| ->]; reflexivity.
Qed.

End Rounds.

(** ** Reset *)

Section Reset.
Context `{M : Mesh}.

Lemma bt_mesh_app_keys_reset_step_spec st pre a l :
  apps st = pre ++ a :: l ->
  apps (bt_mesh_app_keys_reset_step st (length pre)) = (pre ++ [reset_slot a]) ++ l /\
  key_evts (trace (bt_mesh_app_keys_reset_step st (length pre))) =
    key_evts (trace st) ++ reset_evts a.
Proof.
  intros Hap.
  assert (Ha : apps st !! length pre = Some a)
    by (rewrite Hap; apply list_lookup_middle; reflexivity).
  unfold bt_mesh_app_keys_reset_step, reset_slot, reset_evts, in_use.
  rewrite Ha. rewrite <- app_assoc. cbn [app].
  destruct (negb (app_idx a =? BT_MESH_KEY_UNUSED)).
  - rewrite (app_key_del_apps _ a st Ha), (app_key_del_key_evts _ a st Ha).
    split; [|reflexivity].
    rewrite Hap. rewrite insert_app_r_alt by lia. rewrite Nat.sub_diag. reflexivity.
  - rewrite app_nil_r. auto.
Qed.

Lemma keys_get_loop_none_listed l net buf max skip count :
  (forall a, In a l -> in_use a = false) ->
  bt_mesh_app_keys_get_loop l net buf max skip count = (count, buf).
Proof.
  induction l as [|a l IH]; intros Hl; [reflexivity|].
  rewrite bt_mesh_app_keys_get_loop_cons. unfold listed.
  rewrite (Hl a (or_introl eq_refl)). cbn [andb].
  apply IH. intros b Hb. apply Hl. right. exact Hb.
Qed.

(** X15. The reset empties every slot in use and calls the listeners with
    DELETED once per record that was in use, in slot order; afterwards no
    slot is in use, no index in use exists, and the enumeration finds
    nothing, whatever the filter. *)
Theorem reset_empties_table st :
  apps (bt_mesh_app_keys_reset st) = map reset_slot (apps st) /\
  key_evts (trace (bt_mesh_app_keys_reset st)) =
    key_evts (trace st) ++ flat_map reset_evts (apps st) /\
  (forall i a, apps (bt_mesh_app_keys_reset st) !! i = Some a -> in_use a = false) /\
  (forall idx, idx <> BT_MESH_KEY_UNUSED ->
     bt_mesh_app_key_exists (bt_mesh_app_keys_reset st) idx = false) /\
  (forall net buf max skip,
     bt_mesh_app_keys_get (bt_mesh_app_keys_reset st) net buf max skip = (0, buf)).
Proof.
  destruct (slot_loop_spec bt_mesh_app_keys_reset_step reset_slot reset_evts
              bt_mesh_app_keys_reset_step_spec (apps st) st [] eq_refl) as [Hap Hev].
  simpl in Hap, Hev. unfold bt_mesh_app_keys_reset.
  assert (Hfree : forall i a,
            map reset_slot (apps st) !! i = Some a -> in_use a = false).
  { intros i a' Hi.
    change (map reset_slot (apps st)) with (reset_slot <$> apps st) in Hi.
    rewrite list_lookup_fmap in Hi.
    destruct (apps st !! i) as [a|]; [|discriminate].
    simpl in Hi. injection Hi as <-. unfold reset_slot.
    destruct (in_use a) eqn:E; [|exact E].
    unfold in_use. cbn [app_idx deleted_slot]. rewrite Z.eqb_refl. reflexivity. }
  split; [exact Hap|]. split; [exact Hev|]. split; [rewrite Hap; exact Hfree|]. split.
  - intros idx Hne. unfold bt_mesh_app_key_exists. rewrite Hap.
    apply exists_loop_false. intros k b Hk Hb.
    pose proof (Hfree k b Hk) as Hf. unfold in_use in Hf.
    apply negb_false_iff, Z.eqb_eq in Hf. congruence.
  - intros net buf max skip. unfold bt_mesh_app_keys_get. rewrite Hap.
    apply keys_get_loop_none_listed. intros a Ha.
    apply list_elem_of_In, list_elem_of_lookup in Ha as [i Hi]. eapply Hfree; eauto.
Qed.

End Reset.

(** ** Key refresh from Update to REVOKED *)

Section KeyRefresh.
Context `{M : Mesh}.

(** X16. An accepted Update with a 16-byte key followed by the REVOKED
    event of the bound subnet, the record having 16-byte keys: the record
    ends with the new key and its AID as generation 0, a zero generation 1
    and [updated] off, and outbound resolution of the index then hands
    back that key and AID whatever phase the subnet is in: the resolution
    runs in any environment [M'], whose subnet table may hold the subnet
    in any phase. *)
Theorem update_then_revoked idx net key st app a sub id1 :
  app_get st idx = Some app ->
  apps st !! app = Some a ->
  net = BT_MESH_KEY_UNUSED \/ net = net_idx a ->
  bt_mesh_subnet_get (net_idx a) = Some sub ->
  sub_net_idx sub = net_idx a ->
  kr_phase sub = BT_MESH_KR_PHASE_1 ->
  updated a = false ->
  in_use a = true ->
  bt_mesh_app_id key (cred_id (keys1 a)) = (0, id1) ->
  length key = 16%nat ->
  length (cred_val (keys1 a)) = 16%nat ->
  let st2 := subnet_evt sub BT_MESH_KEY_REVOKED
               (snd (bt_mesh_app_key_update idx net key st)) in
  apps st2 !! app =
    Some {| net_idx := net_idx a; app_idx := app_idx a; updated := false;
            keys0 := {| cred_id := id1; cred_val := key |};
            keys1 := cred_zero |} /\
  forall (M' : Mesh) (sub' : bt_mesh_subnet) ctx o,
    ctx_app_idx ctx = idx ->
    @BT_MESH_IS_DEV_KEY M' idx = false ->
    @bt_mesh_subnet_get M' (net_idx a) = Some sub' ->
    @bt_mesh_keys_resolve M' st2 ctx o =
      (0, {| out_sub := Some sub';
             out_app_key := Some (ptr_app_key_val app 0);
             out_aid := id1 |}) /\
    @key_at M' st2 (ptr_app_key_val app 0) = Some key.
Proof.
  intros Hget Ha Hnet Hsub Hsn Hph Hup Hin Hid Hk Hk1 st2.
  assert (Hlt : (app < length (apps st))%nat) by (apply lookup_lt_is_Some; eauto).
  assert (Hap1 : apps (snd (bt_mesh_app_key_update idx net key st)) =
                 <[app := updated_slot id1 key a]> (apps st)).
  { rewrite (bt_mesh_app_key_update_unfold idx net key st app a sub id1) by assumption.
    cbv zeta. cbn [snd apps emit].
    match goal with
    | |- context [update_app_key_settings ?i ?b ?s] =>
        destruct (settings_if_frame i b s) as (Ha4 & _ & _); rewrite Ha4
    end. reflexivity. }
  destruct (slot_loop_spec (subnet_evt_step sub BT_MESH_KEY_REVOKED)
              (revoke_round_slot (sub_net_idx sub)) (revoke_round_evts (sub_net_idx sub))
              (subnet_evt_step_revoked sub)
              (apps (snd (bt_mesh_app_key_update idx net key st)))
              (snd (bt_mesh_app_key_update idx net key st)) [] eq_refl) as [Hap2 _].
  simpl in Hap2.
  assert (Hmap : forall k, apps st2 !! k =
            revoke_round_slot (net_idx a) <$> (<[app := updated_slot id1 key a]> (apps st) !! k)).
  { intros k. unfold st2, subnet_evt. rewrite Hap2, Hap1, Hsn.
    change (map (revoke_round_slot (net_idx a)) (<[app := updated_slot id1 key a]> (apps st)))
      with (revoke_round_slot (net_idx a) <$> <[app := updated_slot id1 key a]> (apps st)).
    apply list_lookup_fmap. }
  assert (Ha2 : apps st2 !! app =
            Some {| net_idx := net_idx a; app_idx := app_idx a; updated := false;
                    keys0 := {| cred_id := id1; cred_val := key |};
                    keys1 := cred_zero |}).
  { rewrite Hmap, list_lookup_insert_eq by exact Hlt. simpl. f_equal.
    unfold revoke_round_slot, bound_to, in_use in *.
    cbn [app_idx net_idx updated updated_slot]. rewrite Hin, Z.eqb_refl. cbn [andb].
    unfold revoked_slot. cbn [net_idx app_idx keys1 updated_slot].
    rewrite (memcpy_16 _ key Hk Hk1). reflexivity. }
  split; [exact Ha2|].
  intros M' sub' ctx o Hctx Hdev Hsub'.
  assert (Hget2 : app_get st2 idx = Some app).
  { destruct (app_get_Some st idx app Hget) as (a' & Ha' & Hidx & Hmin).
    assert (a' = a) by congruence. subst a'.
    apply (app_get_first st2 idx app _ Ha2); [exact Hidx|].
    intros k b Hkl Hb Hbi. rewrite Hmap in Hb.
    rewrite list_lookup_insert_ne in Hb by lia.
    destruct (apps st !! k) as [b0|] eqn:Hb0; [|discriminate].
    simpl in Hb. injection Hb as <-.
    apply (Hmin k b0 Hkl Hb0).
    unfold revoke_round_slot in Hbi.
    destruct (bound_to (net_idx a) b0 && updated b0); [|exact Hbi]. exact Hbi. }
  split.
  - unfold bt_mesh_keys_resolve. rewrite Hctx, Hdev, Hget2, Ha2.
    cbn [net_idx updated keys0 cred_id]. rewrite Hsub', andb_false_r. reflexivity.
  - unfold key_at, app_cred. rewrite Ha2. reflexivity.
Qed.

End KeyRefresh.

(** ** Flush of the tracker *)

Section Flush.
Context `{M : Mesh}.

Lemma flushed_invalid u : valid u = false -> flushed u = u.
Proof. intros H. destruct u. simpl in H. subst. reflexivity. Qed.

Lemma emit_nil st : emit [] st = st.
Proof. destruct st. unfold emit. cbn. rewrite app_nil_r. reflexivity. Qed.

Lemma bt_mesh_app_key_pending_store_step_spec st pre u l :
  BLE_MESH_SETTINGS = true ->
  app_key_updates st = pre ++ u :: l ->
  bt_mesh_app_key_pending_store_step st (length pre) =
    with_updates ((pre ++ [flushed u]) ++ l) (emit (flush_call (apps st) u) st).
Proof.
  intros Hcfg Hup.
  assert (Hu : app_key_updates st !! length pre = Some u)
    by (rewrite Hup; apply list_lookup_middle; reflexivity).
  unfold bt_mesh_app_key_pending_store_step, flush_call. rewrite Hu.
  destruct (valid u) eqn:Hv; cbn [negb].
  - assert (Halt : forall s, app_key_updates s = app_key_updates st ->
              alter (fun u0 => {| key_idx := key_idx u0; valid := false; clear := clear u0 |})
                (length pre) (app_key_updates s) = (pre ++ [flushed u]) ++ l).
    { intros s ->. rewrite (alter_at _ _ _ u Hu), Hup.
      rewrite insert_app_r_alt by lia. rewrite Nat.sub_diag, <- app_assoc. reflexivity. }
    destruct (clear u).
    + unfold clear_app_key. rewrite Hcfg. rewrite Halt by reflexivity. reflexivity.
    + unfold store_app_key. rewrite Hcfg. fold (app_get st (key_idx u)).
      destruct (app_get st (key_idx u)) as [i|].
      * destruct (apps st !! i) as [a|]; rewrite Halt by reflexivity;
          [reflexivity|rewrite emit_nil; reflexivity].
      * rewrite Halt by reflexivity. rewrite emit_nil. reflexivity.
  - rewrite emit_nil, (flushed_invalid u Hv), <- app_assoc. cbn [app].
    rewrite <- Hup. destruct st. reflexivity.
Qed.

Lemma bt_mesh_app_key_pending_store_loop l :
  BLE_MESH_SETTINGS = true ->
  forall st pre, app_key_updates st = pre ++ l ->
    fold_left bt_mesh_app_key_pending_store_step (seq (length pre) (length l)) st =
      with_updates (pre ++ map flushed l)
        (emit (flat_map (flush_call (apps st)) l) st).
Proof.
  intros Hcfg. induction l as [|u l IH]; intros st pre Hup; simpl.
  - rewrite emit_nil, app_nil_r. rewrite app_nil_r in Hup. rewrite <- Hup.
    destruct st. reflexivity.
  - rewrite (bt_mesh_app_key_pending_store_step_spec st pre u l Hcfg Hup).
    replace (S (length pre)) with (length (pre ++ [flushed u]))
      by (rewrite length_app; simpl; lia).
    rewrite (IH _ (pre ++ [flushed u])) by reflexivity.
    unfold with_updates, emit. cbn. rewrite <- !app_assoc. reflexivity.
Qed.

(** X17. In a build with the settings store, the flush makes one settings
    call per valid tracker entry, in slot order (the clear of the key for
    an entry with [clear] on, else the store of the record found under the
    key, if there is one), turns every entry invalid and leaves the table
    alone; a second flush right after it makes no call. *)
Theorem pending_store_drains st :
  BLE_MESH_SETTINGS = true ->
  bt_mesh_app_key_pending_store st =
    with_updates (map flushed (app_key_updates st))
      (emit (flat_map (flush_call (apps st)) (app_key_updates st)) st) /\
  (forall i u, app_key_updates (bt_mesh_app_key_pending_store st) !! i = Some u ->
     valid u = false) /\
  trace (bt_mesh_app_key_pending_store (bt_mesh_app_key_pending_store st)) =
    trace (bt_mesh_app_key_pending_store st).
Proof.
  intros Hcfg.
  assert (Hall : forall s, bt_mesh_app_key_pending_store s =
            with_updates (map flushed (app_key_updates s))
              (emit (flat_map (flush_call (apps s)) (app_key_updates s)) s)).
  { intros s. unfold bt_mesh_app_key_pending_store.
    apply (bt_mesh_app_key_pending_store_loop (app_key_updates s) Hcfg s []). reflexivity. }
  split; [apply Hall|].
  assert (Hinv : forall i u,
            map flushed (app_key_updates st) !! i = Some u -> valid u = false).
  { intros i u Hi.
    change (map flushed (app_key_updates st)) with (flushed <$> app_key_updates st) in Hi.
    rewrite list_lookup_fmap in Hi.
    destruct (app_key_updates st !! i); [|discriminate].
    simpl in Hi. injection Hi as <-. reflexivity. }
  split.
  - rewrite Hall. exact Hinv.
  - rewrite (Hall (bt_mesh_app_key_pending_store st)). rewrite (Hall st).
    cbn [trace with_updates emit app_key_updates apps].
    assert (Hno : forall l' (l : list app_key_update),
              (forall u, In u l -> valid u = false) -> flat_map (flush_call l') l = []).
    { intros l' l Hl. induction l as [|u l IH]; [reflexivity|]. simpl.
      unfold flush_call at 1. rewrite (Hl u (or_introl eq_refl)). simpl.
      apply IH. intros v Hv. apply Hl. right. exact Hv. }
    rewrite (Hno (apps st) (map flushed (app_key_updates st))); [apply app_nil_r|].
    intros u Hu. apply list_elem_of_In, list_elem_of_lookup in Hu as [i Hi].
    eapply Hinv; eauto.
Qed.

(** A dirty mark keeps the tracker entries apart (12-bit index). *)
Lemma update_app_key_settings_unique idx store st :
  0 <= idx < 4096 ->
  unique_key_idx (app_key_updates st) ->
  unique_key_idx (app_key_updates (update_app_key_settings idx store st)).
Proof.
  intros Hidx Huniq. unfold update_app_key_settings.
  destruct BLE_MESH_SETTINGS; [|exact Huniq].
  destruct (app_key_update_find st idx) as [m f] eqn:Hfind.
  apply app_key_update_find_spec in Hfind as [Hm Hf].
  destruct m as [j|]; cbn [app_key_updates emit with_updates].
  { apply unique_key_idx_set_clear. exact Huniq. }
  destruct f as [j|]; cbn [app_key_updates emit with_updates].
  2:{ destruct store.
      - destruct (store_app_key_frame idx st) as (_ & Hu & _). rewrite Hu. exact Huniq.
      - destruct (clear_app_key_frame idx st) as (_ & Hu & _). rewrite Hu. exact Huniq. }
  destruct Hf as (w & Hj & Hvw).
  intros a b u v Ha Hb Hvu Hvv Hkey.
  destruct (decide (j = a)) as [<-|Hja]; destruct (decide (j = b)) as [<-|Hjb].
  - reflexivity.
  - exfalso. rewrite list_lookup_alter_eq, Hj in Ha. simpl in Ha. injection Ha as <-.
    rewrite list_lookup_alter_ne in Hb by exact Hjb. simpl in Hkey.
    rewrite land_4095 in Hkey by exact Hidx. apply (Hm b v Hb Hvv). congruence.
  - exfalso. rewrite list_lookup_alter_eq, Hj in Hb. simpl in Hb. injection Hb as <-.
    rewrite list_lookup_alter_ne in Ha by exact Hja. simpl in Hkey.
    rewrite land_4095 in Hkey by exact Hidx. apply (Hm a u Ha Hvu). congruence.
  - rewrite list_lookup_alter_ne in Ha by exact Hja.
    rewrite list_lookup_alter_ne in Hb by exact Hjb.
    apply (Huniq a b u v); auto.
Qed.

(** What a dirty mark leaves in the tracker when it does not fall back to
    the immediate call. *)
Lemma update_app_key_settings_entry idx store st :
  BLE_MESH_SETTINGS = true ->
  0 <= idx < 4096 ->
  (exists k u, app_key_updates st !! k = Some u /\
     (valid u = false \/ key_idx u = idx)) ->
  trace (update_app_key_settings idx store st) = trace st ++ [SettingsStoreSchedule] /\
  apps (update_app_key_settings idx store st) = apps st /\
  exists k u,
    app_key_updates (update_app_key_settings idx store st) !! k = Some u /\
    valid u = true /\ key_idx u = idx /\ clear u = negb store.
Proof.
  intros Hcfg Hidx (k0 & u0 & Hk0 & Hu0).
  destruct (update_app_key_settings_cases idx store st Hcfg)
    as [(k & u & Hk & Hv & Hi & ->)|[(k & u & Hk & Hv & ->)|(Hfull & _)]].
  - cbn [trace apps app_key_updates emit with_updates]. repeat split.
    exists k, (set_clear (negb store) u).
    rewrite list_lookup_alter_eq, Hk. auto.
  - cbn [trace apps app_key_updates emit with_updates]. repeat split.
    eexists k, _. rewrite list_lookup_insert_eq by (apply lookup_lt_is_Some; eauto).
    split; [reflexivity|]. cbn [valid key_idx clear].
    rewrite land_4095 by exact Hidx. auto.
  - exfalso. destruct (Hfull k0 u0 Hk0) as [Hv Hne].
    destruct Hu0 as [Hu0|Hu0]; congruence.
Qed.

(** X18. Two dirty marks for the same 12-bit key index, in a build with
    the settings store, on a tracker with at most one valid entry per key
    index that has an entry for the index or a slot that is not valid:
    neither mark calls the settings store, both schedule the flush, and
    afterwards the tracker holds exactly one valid entry for the index,
    whose [clear] flag is that of the second mark; the second mark
    changes no [valid] flag. *)
Theorem dirty_mark_twice idx s1 s2 st :
  BLE_MESH_SETTINGS = true ->
  0 <= idx < 4096 ->
  unique_key_idx (app_key_updates st) ->
  (exists k u, app_key_updates st !! k = Some u /\
     (valid u = false \/ key_idx u = idx)) ->
  let st1 := update_app_key_settings idx s1 st in
  let st2 := update_app_key_settings idx s2 st1 in
  trace st2 = trace st ++ [SettingsStoreSchedule; SettingsStoreSchedule] /\
  map valid (app_key_updates st2) = map valid (app_key_updates st1) /\
  exists k u,
    app_key_updates st2 !! k = Some u /\
    valid u = true /\ key_idx u = idx /\ clear u = negb s2 /\
    forall j v, app_key_updates st2 !! j = Some v ->
      valid v = true -> key_idx v = idx -> j = k.
Proof.
  intros Hcfg Hidx Hu Hroom st1 st2.
  destruct (update_app_key_settings_entry idx s1 st Hcfg Hidx Hroom)
    as (Ht1 & _ & k1 & u1 & Hk1 & Hv1 & Hi1 & _).
  assert (Hroom1 : exists k u, app_key_updates st1 !! k = Some u /\
                     (valid u = false \/ key_idx u = idx)) by eauto.
  destruct (update_app_key_settings_entry idx s2 st1 Hcfg Hidx Hroom1)
    as (Ht2 & _ & k2 & u2 & Hk2 & Hv2 & Hi2 & Hc2).
  pose proof (update_app_key_settings_unique idx s1 st Hidx Hu) as Hu1.
  pose proof (update_app_key_settings_unique idx s2 st1 Hidx Hu1) as Hu2.
  fold st1 in Hu1, Hu2. fold st2 in Hu2, Ht2, Hk2. fold st1 in Ht1.
  split; [rewrite Ht2, Ht1, <- app_assoc; reflexivity|]. split.
  - unfold st2.
    destruct (update_app_key_settings_cases idx s2 st1 Hcfg)
      as [(k & u & Hk & Hv & Hi & ->)|[(k & u & Hk & Hv & Heq)|(Hfull & _)]].
    + cbn [app_key_updates emit with_updates]. apply map_alter_preserve. reflexivity.
    + exfalso. unfold update_app_key_settings in Heq. rewrite Hcfg in Heq.
      destruct (app_key_update_find st1 idx) as [m f] eqn:Hfind.
      apply app_key_update_find_spec in Hfind as [Hm Hf].
      destruct m as [j|]; [|apply (Hm k1 u1 Hk1 Hv1 Hi1)].
      destruct Hm as (w & Hj & Hvw & Hkw).
      apply (f_equal app_key_updates) in Heq.
      cbn [app_key_updates emit with_updates] in Heq.
      apply (f_equal (fun l => valid <$> l !! k)) in Heq.
      rewrite list_lookup_insert_eq in Heq by (apply lookup_lt_is_Some; eauto).
      destruct (decide (j = k)) as [->|Hd].
      * congruence.
      * rewrite list_lookup_alter_ne, Hk in Heq by exact Hd. simpl in Heq. congruence.
    + exfalso. destruct (Hfull k1 u1 Hk1) as [_ Hne]. contradiction.
  - exists k2, u2. repeat split; auto.
    intros j v Hj Hvv Hkv. apply (Hu2 j k2 v u2); auto. congruence.
Qed.

End Flush.

(** ** Fixed capacity *)

Section Capacity.
Context `{M : Mesh}.

Lemma same_size_refl st : same_size st st.
Proof. split; reflexivity. Qed.

Lemma same_size_trans st1 st2 st3 :
  same_size st1 st2 -> same_size st2 st3 -> same_size st1 st3.
Proof. intros [H1 H2] [H3 H4]. split; congruence. Qed.

Lemma same_size_store_app app f st : same_size st (store_app app f st).
Proof. split; [apply length_alter|reflexivity]. Qed.

Lemma same_size_emit e st : same_size st (emit e st).
Proof. split; reflexivity. Qed.

Lemma same_size_app_key_evt app evt st : same_size st (app_key_evt app evt st).
Proof. unfold app_key_evt. destruct (apps st !! app); split; reflexivity. Qed.

Lemma same_size_store_app_key idx st : same_size st (store_app_key idx st).
Proof.
  destruct (store_app_key_frame idx st) as (Ha & Hu & _). split; congruence.
Qed.

Lemma same_size_clear_app_key idx st : same_size st (clear_app_key idx st).
Proof.
  destruct (clear_app_key_frame idx st) as (Ha & Hu & _). split; congruence.
Qed.

Lemma same_size_update_app_key_settings idx store st :
  same_size st (update_app_key_settings idx store st).
Proof.
  unfold update_app_key_settings. destruct BLE_MESH_SETTINGS; [|apply same_size_refl].
  destruct (app_key_update_find st idx) as [[u|] [f|]];
    try (split; [reflexivity|apply length_alter]).
  destruct store; [apply same_size_store_app_key|apply same_size_clear_app_key].
Qed.

Lemma same_size_settings_if idx store st :
  same_size st (if CONFIG_BT_SETTINGS
                then update_app_key_settings idx store st else st).
Proof.
  destruct CONFIG_BT_SETTINGS;
    [apply same_size_update_app_key_settings|apply same_size_refl].
Qed.

Lemma same_size_app_key_del app st : same_size st (app_key_del app st).
Proof.
  unfold app_key_del. destruct (apps st !! app) as [a|]; [|apply same_size_refl].
  cbv zeta.
  repeat (eapply same_size_trans; [|apply same_size_store_app]).
  eapply same_size_trans; [|apply same_size_app_key_evt].
  apply same_size_settings_if.
Qed.

Lemma same_size_app_key_revoke app st : same_size st (app_key_revoke app st).
Proof.
  unfold app_key_revoke. destruct (apps st !! app) as [a|]; [|apply same_size_refl].
  destruct (negb (updated a)); [apply same_size_refl|]. cbv zeta.
  eapply same_size_trans; [|apply same_size_app_key_evt].
  eapply same_size_trans; [|apply same_size_settings_if].
  repeat (eapply same_size_trans; [|apply same_size_store_app]).
  apply same_size_refl.
Qed.

Lemma same_size_fold (step : mesh_state -> nat -> mesh_state) :
  (forall s i, same_size s (step s i)) ->
  forall idxs st, same_size st (fold_left step idxs st).
Proof.
  intros Hstep. induction idxs as [|i idxs IH]; intros st; simpl.
  - apply same_size_refl.
  - eapply same_size_trans; [apply Hstep|apply IH].
Qed.

(** No operation changes the number of slots of the table or of the
    tracker: Add, Update, Delete, the restore operation, every subnet
    event, the reset and the flush leave both arrays at their size. *)
Lemma capacity_fixed st :
  (forall idx net key, same_size st (snd (bt_mesh_app_key_add idx net key st))) /\
  (forall idx net key, same_size st (snd (bt_mesh_app_key_update idx net key st))) /\
  (forall idx net, same_size st (snd (bt_mesh_app_key_del idx net st))) /\
  (forall idx net old_key new_key,
     same_size st (snd (bt_mesh_app_key_set idx net old_key new_key st))) /\
  (forall sub evt, same_size st (subnet_evt sub evt st)) /\
  same_size st (bt_mesh_app_keys_reset st) /\
  same_size st (bt_mesh_app_key_pending_store st).
Proof.
  repeat split_and.
  - intros idx net key. unfold bt_mesh_app_key_add.
    set (st1 := match subnet_cb_0 st with
                | None => with_subnet_cb (Some cb_subnet_evt) st
                | Some _ => st
                end).
    assert (H1 : same_size st st1)
      by (unfold st1; destruct (subnet_cb_0 st); split; reflexivity).
    clearbody st1.
    destruct (bt_mesh_subnet_get net); [|exact H1].
    destruct (app_key_alloc st1 idx) as [app|]; [|exact H1].
    destruct (apps st1 !! app) as [a|]; [|exact H1].
    destruct (app_idx a =? idx).
    { destruct (negb (net_idx a =? net)); [exact H1|].
      destruct (negb (memcmp key (cred_val (keys0 a)) 16 =? 0)); exact H1. }
    destruct (bt_mesh_app_id key (cred_id (keys0 a))) as [err id0].
    apply (same_size_trans _ _ _ H1).
    destruct (negb (err =? 0)); cbn [snd]; [apply same_size_store_app|].
    eapply same_size_trans; [|apply same_size_app_key_evt].
    eapply same_size_trans; [|apply same_size_settings_if].
    repeat (eapply same_size_trans; [|apply same_size_store_app]).
    apply same_size_refl.
  - intros idx net key. unfold bt_mesh_app_key_update.
    destruct (app_get st idx) as [app|]; [|apply same_size_refl].
    destruct (apps st !! app) as [a|]; [|apply same_size_refl].
    destruct (negb (net =? BT_MESH_KEY_UNUSED) && negb (net_idx a =? net));
      [apply same_size_refl|].
    destruct (bt_mesh_subnet_get (net_idx a)) as [sub|]; [|apply same_size_refl].
    destruct (negb (kr_phase sub =? BT_MESH_KR_PHASE_1)); [apply same_size_refl|].
    destruct (updated a).
    { destruct (negb (memcmp (cred_val (keys1 a)) key 16 =? 0)); apply same_size_refl. }
    destruct (bt_mesh_app_id key (cred_id (keys1 a))) as [err id1].
    destruct (negb (err =? 0)); cbn [snd]; [apply same_size_store_app|].
    eapply same_size_trans; [|apply same_size_app_key_evt].
    eapply same_size_trans; [|apply same_size_settings_if].
    repeat (eapply same_size_trans; [|apply same_size_store_app]).
    apply same_size_refl.
  - intros idx net. unfold bt_mesh_app_key_del.
    destruct (negb (net =? BT_MESH_KEY_UNUSED)
              && negb (bool_decide (is_Some (bt_mesh_subnet_get net))));
      [apply same_size_refl|].
    destruct (app_get st idx) as [app|]; [|apply same_size_refl].
    destruct (apps st !! app) as [a|]; [|apply same_size_refl].
    destruct (negb (net =? BT_MESH_KEY_UNUSED) && negb (net =? net_idx a));
      [apply same_size_refl|apply same_size_app_key_del].
  - intros idx net old_key new_key. unfold bt_mesh_app_key_set.
    destruct (app_key_alloc st idx) as [app|]; [|apply same_size_refl].
    destruct (apps st !! app) as [a|]; [|apply same_size_refl].
    destruct (app_idx a =? idx); [apply same_size_refl|].
    destruct (bt_mesh_app_id old_key (cred_id (keys0 a))) as [err0 id0].
    destruct (negb (err0 =? 0)); cbn [snd].
    { repeat (eapply same_size_trans; [|apply same_size_store_app]).
      apply same_size_refl. }
    destruct new_key as [nk|].
    + destruct (bt_mesh_app_id nk (cred_id (keys1 a))) as [err1 id1].
      destruct (negb (err1 =? 0)); cbn [snd];
        repeat (eapply same_size_trans; [|apply same_size_store_app]);
        apply same_size_refl.
    + cbn [snd]. repeat (eapply same_size_trans; [|apply same_size_store_app]).
      apply same_size_refl.
  - intros sub evt. unfold subnet_evt.
    assert (Hstep : forall s i, same_size s (subnet_evt_step sub evt s i)).
    { intros s i. unfold subnet_evt_step.
      destruct (apps s !! i) as [a|]; [|apply same_size_refl].
      destruct (app_idx a =? BT_MESH_KEY_UNUSED); [apply same_size_refl|].
      destruct (negb (net_idx a =? sub_net_idx sub)); [apply same_size_refl|].
      destruct evt; try apply same_size_refl.
      - apply same_size_app_key_del.
      - destruct (updated a); [apply same_size_app_key_evt|apply same_size_refl].
      - apply same_size_app_key_revoke. }
    destruct evt; try apply same_size_refl; apply same_size_fold, Hstep.
  - unfold bt_mesh_app_keys_reset. apply same_size_fold. intros s i.
    unfold bt_mesh_app_keys_reset_step.
    destruct (apps s !! i) as [a|]; [|apply same_size_refl].
    destruct (negb (app_idx a =? BT_MESH_KEY_UNUSED));
      [apply same_size_app_key_del|apply same_size_refl].
  - unfold bt_mesh_app_key_pending_store. apply same_size_fold. intros s i.
    unfold bt_mesh_app_key_pending_store_step.
    destruct (app_key_updates s !! i) as [u|]; [|apply same_size_refl].
    destruct (negb (valid u)); [apply same_size_refl|].
    cbv zeta.
    match goal with
    | |- same_size s (with_updates (alter ?f i (app_key_updates ?s1)) ?s1) =>
        assert (H1 : same_size s s1)
          by (destruct (clear u);
              [apply same_size_clear_app_key|apply same_size_store_app_key]);
        apply (same_size_trans _ _ _ H1); split; [reflexivity|apply length_alter]
    end.
Qed.

End Capacity.

(** ** Invariants of the table over all operations *)

Section TableInvariants.
Context `{M : Mesh}.

(** X19. A table with at most one record per index keeps at most one
    record per index under Add, Update, Delete, the restore operation,
    every subnet event and the reset. *)
Theorem unique_app_idx_preserved st :
  unique_app_idx (apps st) ->
  (forall idx net key,
     unique_app_idx (apps (snd (bt_mesh_app_key_add idx net key st)))) /\
  (forall idx net key,
     unique_app_idx (apps (snd (bt_mesh_app_key_update idx net key st)))) /\
  (forall idx net,
     unique_app_idx (apps (snd (bt_mesh_app_key_del idx net st)))) /\
  (forall idx net old_key new_key,
     unique_app_idx (apps (snd (bt_mesh_app_key_set idx net old_key new_key st)))) /\
  (forall sub evt, unique_app_idx (apps (subnet_evt sub evt st))) /\
  unique_app_idx (apps (bt_mesh_app_keys_reset st)).
Proof.
  intros Hu. repeat split_and; intros.
  - apply bt_mesh_app_key_add_unique, Hu.
  - apply bt_mesh_app_key_update_unique, Hu.
  - apply bt_mesh_app_key_del_unique, Hu.
  - apply bt_mesh_app_key_set_unique, Hu.
  - apply subnet_evt_unique, Hu.
  - apply bt_mesh_app_keys_reset_unique, Hu.
Qed.

Lemma keeps_records_refl l : keeps_records l l.
Proof. intros i a Hi Hin. eauto. Qed.

Lemma keeps_records_trans l1 l2 l3 :
  keeps_records l1 l2 -> keeps_records l2 l3 -> keeps_records l1 l3.
Proof.
  intros H12 H23 i a3 Hi Hin.
  destruct (H23 i a3 Hi Hin) as (a2 & H2 & Hin2 & Hn2).
  destruct (H12 i a2 H2 Hin2) as (a1 & H1 & Hin1 & Hn1).
  exists a1. repeat split; auto. congruence.
Qed.

Lemma keeps_records_insert l i a b :
  l !! i = Some a ->
  in_use b = false \/ (in_use a = true /\ net_idx b = net_idx a) ->
  keeps_records l (<[i := b]> l).
Proof.
  intros Ha Hb k c Hk Hin. destruct (decide (i = k)) as [<-|Hd].
  - rewrite list_lookup_insert_eq in Hk by (apply lookup_lt_is_Some; eauto).
    injection Hk as <-. destruct Hb as [Hb|[Hia Hn]]; [congruence|].
    exists a. auto.
  - rewrite list_lookup_insert_ne in Hk by exact Hd. exists c. auto.
Qed.

Lemma keeps_records_alter l i f :
  (forall x, app_idx (f x) = app_idx x /\ net_idx (f x) = net_idx x) ->
  keeps_records l (alter f i l).
Proof.
  intros Hf. destruct (l !! i) as [a|] eqn:Ha.
  - rewrite (alter_at f i l a Ha). destruct (Hf a) as [Hi Hn].
    destruct (in_use (f a)) eqn:E.
    + apply (keeps_records_insert l i a); auto. right. split; [|exact Hn].
      unfold in_use in *. rewrite <- Hi. exact E.
    + apply (keeps_records_insert l i a); auto.
  - rewrite (alter_out f i l Ha). apply keeps_records_refl.
Qed.

Lemma keeps_records_app_key_del app st :
  keeps_records (apps st) (apps (app_key_del app st)).
Proof.
  destruct (apps st !! app) as [a|] eqn:Ha.
  - rewrite (app_key_del_apps app a st Ha).
    apply (keeps_records_insert _ _ a _ Ha). left.
    unfold in_use. cbn [app_idx deleted_slot]. rewrite Z.eqb_refl. reflexivity.
  - unfold app_key_del. rewrite Ha. apply keeps_records_refl.
Qed.

Lemma keeps_records_app_key_revoke app st :
  keeps_records (apps st) (apps (app_key_revoke app st)).
Proof.
  destruct (apps st !! app) as [a|] eqn:Ha.
  - destruct (app_key_revoke_apps_evts app a st Ha) as [-> _].
    destruct (updated a).
    + destruct (in_use a) eqn:E; apply (keeps_records_insert _ _ a _ Ha); auto.
    + rewrite list_insert_id by exact Ha. apply keeps_records_refl.
  - unfold app_key_revoke. rewrite Ha. apply keeps_records_refl.
Qed.

Lemma keeps_records_fold (step : mesh_state -> nat -> mesh_state) :
  (forall s i, keeps_records (apps s) (apps (step s i))) ->
  forall idxs st, keeps_records (apps st) (apps (fold_left step idxs st)).
Proof.
  intros Hstep. induction idxs as [|i idxs IH]; intros st; simpl.
  - apply keeps_records_refl.
  - eapply keeps_records_trans; [apply Hstep|apply IH].
Qed.

Lemma keeps_records_subnet_evt sub evt st :
  keeps_records (apps st) (apps (subnet_evt sub evt st)).
Proof.
  assert (Hstep : forall s i,
            keeps_records (apps s) (apps (subnet_evt_step sub evt s i))).
  { intros s i. unfold subnet_evt_step.
    destruct (apps s !! i) as [a|]; [|apply keeps_records_refl].
    destruct (app_idx a =? BT_MESH_KEY_UNUSED); [apply keeps_records_refl|].
    destruct (negb (net_idx a =? sub_net_idx sub)); [apply keeps_records_refl|].
    destruct evt; try apply keeps_records_refl.
    - apply keeps_records_app_key_del.
    - destruct (updated a); [rewrite app_key_evt_apps|]; apply keeps_records_refl.
    - apply keeps_records_app_key_revoke. }
  unfold subnet_evt.
  destruct evt; try apply keeps_records_refl; apply keeps_records_fold, Hstep.
Qed.

Lemma bound_subnets_exist_keeps get l l' :
  keeps_records l l' -> bound_subnets_exist get l -> bound_subnets_exist get l'.
Proof.
  intros Hk Hb i a' Hi Hin.
  destruct (Hk i a' Hi Hin) as (a & Ha & Hia & Hn).
  rewrite <- Hn. apply (Hb i a Ha Hia).
Qed.

(** X20. If every record in use is bound to a subnet that the subnet
    table knows, the same holds after Add, Update, Delete, any subnet
    event and the reset (the subnet table being the same before and
    after). *)
Theorem bound_subnets_exist_preserved st :
  bound_subnets_exist bt_mesh_subnet_get (apps st) ->
  (forall idx net key,
     bound_subnets_exist bt_mesh_subnet_get
       (apps (snd (bt_mesh_app_key_add idx net key st)))) /\
  (forall idx net key,
     bound_subnets_exist bt_mesh_subnet_get
       (apps (snd (bt_mesh_app_key_update idx net key st)))) /\
  (forall idx net,
     bound_subnets_exist bt_mesh_subnet_get
       (apps (snd (bt_mesh_app_key_del idx net st)))) /\
  (forall sub evt,
     bound_subnets_exist bt_mesh_subnet_get (apps (subnet_evt sub evt st))) /\
  bound_subnets_exist bt_mesh_subnet_get (apps (bt_mesh_app_keys_reset st)).
Proof.
  intros Hb. repeat split_and.
  - intros idx net key. unfold bt_mesh_app_key_add.
    set (st1 := match subnet_cb_0 st with
                | None => with_subnet_cb (Some cb_subnet_evt) st
                | Some _ => st
                end).
    assert (H1 : bound_subnets_exist bt_mesh_subnet_get (apps st1))
      by (unfold st1; destruct (subnet_cb_0 st); exact Hb).
    clearbody st1.
    destruct (bt_mesh_subnet_get net) as [sub|] eqn:Hsub; [|exact H1].
    destruct (app_key_alloc st1 idx) as [app|]; [|exact H1].
    destruct (apps st1 !! app) as [a|] eqn:Ha; [|exact H1].
    destruct (app_idx a =? idx).
    { destruct (negb (net_idx a =? net)); [exact H1|].
      destruct (negb (memcmp key (cred_val (keys0 a)) 16 =? 0)); exact H1. }
    destruct (bt_mesh_app_id key (cred_id (keys0 a))) as [err id0].
    destruct (negb (err =? 0)); cbn [snd].
    { apply (bound_subnets_exist_keeps _ (apps st1)); [|exact H1].
      apply keeps_records_alter. auto. }
    rewrite app_key_evt_apps.
    match goal with
    | |- context [update_app_key_settings ?i ?b ?s] =>
        destruct (settings_if_frame i b s) as (Ha6 & _ & _); rewrite Ha6
    end.
    unfold store_app. cbn [apps with_apps].
    rewrite !list_alter_alter_eq. rewrite (alter_at _ _ _ a Ha).
    intros i b Hi Hin. destruct (decide (app = i)) as [<-|Hd].
    + rewrite list_lookup_insert_eq in Hi by (apply lookup_lt_is_Some; eauto).
      injection Hi as <-. cbn. rewrite Hsub. eauto.
    + rewrite list_lookup_insert_ne in Hi by exact Hd. apply (H1 i b Hi Hin).
  - intros idx net key.
    apply (bound_subnets_exist_keeps _ (apps st)); [|exact Hb].
    unfold bt_mesh_app_key_update.
    destruct (app_get st idx) as [app|]; [|apply keeps_records_refl].
    destruct (apps st !! app) as [a|]; [|apply keeps_records_refl].
    destruct (negb (net =? BT_MESH_KEY_UNUSED) && negb (net_idx a =? net));
      [apply keeps_records_refl|].
    destruct (bt_mesh_subnet_get (net_idx a)) as [sub|]; [|apply keeps_records_refl].
    destruct (negb (kr_phase sub =? BT_MESH_KR_PHASE_1)); [apply keeps_records_refl|].
    destruct (updated a).
    { destruct (negb (memcmp (cred_val (keys1 a)) key 16 =? 0));
        apply keeps_records_refl. }
    destruct (bt_mesh_app_id key (cred_id (keys1 a))) as [err id1].
    destruct (negb (err =? 0)); cbn [snd].
    { apply keeps_records_alter. auto. }
    rewrite app_key_evt_apps.
    match goal with
    | |- context [update_app_key_settings ?i ?b ?s] =>
        destruct (settings_if_frame i b s) as (Ha4 & _ & _); rewrite Ha4
    end.
    unfold store_app. cbn [apps with_apps].
    rewrite !list_alter_alter_eq. apply keeps_records_alter. auto.
  - intros idx net.
    apply (bound_subnets_exist_keeps _ (apps st)); [|exact Hb].
    unfold bt_mesh_app_key_del.
    destruct (negb (net =? BT_MESH_KEY_UNUSED)
              && negb (bool_decide (is_Some (bt_mesh_subnet_get net))));
      [apply keeps_records_refl|].
    destruct (app_get st idx) as [app|]; [|apply keeps_records_refl].
    destruct (apps st !! app) as [a|]; [|apply keeps_records_refl].
    destruct (negb (net =? BT_MESH_KEY_UNUSED) && negb (net =? net_idx a));
      [apply keeps_records_refl|apply keeps_records_app_key_del].
  - intros sub evt.
    apply (bound_subnets_exist_keeps _ (apps st)); [|exact Hb].
    apply keeps_records_subnet_evt.
  - apply (bound_subnets_exist_keeps _ (apps st)); [|exact Hb].
    unfold bt_mesh_app_keys_reset. apply keeps_records_fold. intros s i.
    unfold bt_mesh_app_keys_reset_step.
    destruct (apps s !! i) as [a|]; [|apply keeps_records_refl].
    destruct (negb (app_idx a =? BT_MESH_KEY_UNUSED));
      [apply keeps_records_app_key_del|apply keeps_records_refl].
Qed.

End TableInvariants.

(** ** Outcomes of the resolvers *)

Section ResolverOutcomes.
Context `{M : Mesh}.

(** X21. [bt_mesh_keys_resolve] returns 0 or [-EINVAL]. When it returns
    0 it has set the subnet and a key pointer that can be read, and for a
    device-key index the subnet is that of [ctx->net_idx] and the AID is
    0. When it fails it has touched neither [*app_key] nor [*aid]. *)
Theorem keys_resolve_outcomes st ctx o :
  (fst (bt_mesh_keys_resolve st ctx o) = 0 \/
   fst (bt_mesh_keys_resolve st ctx o) = - EINVAL) /\
  (fst (bt_mesh_keys_resolve st ctx o) = 0 ->
     exists sub p key,
       out_sub (snd (bt_mesh_keys_resolve st ctx o)) = Some sub /\
       out_app_key (snd (bt_mesh_keys_resolve st ctx o)) = Some p /\
       key_at st p = Some key /\
       (BT_MESH_IS_DEV_KEY (ctx_app_idx ctx) = true ->
          bt_mesh_subnet_get (ctx_net_idx ctx) = Some sub /\
          out_aid (snd (bt_mesh_keys_resolve st ctx o)) = 0)) /\
  (fst (bt_mesh_keys_resolve st ctx o) <> 0 ->
     out_app_key (snd (bt_mesh_keys_resolve st ctx o)) = out_app_key o /\
     out_aid (snd (bt_mesh_keys_resolve st ctx o)) = out_aid o).
Proof.
  unfold bt_mesh_keys_resolve.
  destruct (BT_MESH_IS_DEV_KEY (ctx_app_idx ctx)) eqn:Hdev.
  - destruct (bt_mesh_subnet_get (ctx_net_idx ctx)) as [sub|] eqn:Hsub.
    2:{ cbn. repeat split; auto; intros H; discriminate H. }
    destruct ((ctx_app_idx ctx =? BT_MESH_KEY_DEV_REMOTE)
              && negb (bt_mesh_has_addr (ctx_addr ctx))).
    + destruct CONFIG_BT_MESH_CDB; cbn [negb].
      2:{ cbn. repeat split; auto; intros H; discriminate H. }
      destruct (bt_mesh_cdb_node_get (ctx_addr ctx)) as [node|] eqn:Hnode.
      2:{ cbn. repeat split; auto; intros H; discriminate H. }
      cbn. split; [auto|]. split; [|intros H; contradiction].
      intros _. exists sub, (ptr_cdb_dev_key (ctx_addr ctx)), (dev_key node).
      cbn. rewrite Hnode. auto.
    + cbn. split; [auto|]. split; [|intros H; contradiction].
      intros _. exists sub, ptr_local_dev_key, bt_mesh_dev_key. auto.
  - destruct (app_get st (ctx_app_idx ctx)) as [app|].
    2:{ cbn. repeat split; auto; intros H; discriminate H. }
    destruct (apps st !! app) as [a|] eqn:Ha.
    2:{ cbn. repeat split; auto; intros H; discriminate H. }
    destruct (bt_mesh_subnet_get (net_idx a)) as [sub|].
    2:{ cbn. repeat split; auto; intros H; discriminate H. }
    destruct ((kr_phase sub =? BT_MESH_KR_PHASE_2) && updated a);
      cbn [fst snd out_sub out_app_key out_aid].
    + split; [auto|]. split; [|intros H; contradiction].
      intros _. exists sub, (ptr_app_key_val app 1), (cred_val (keys1 a)).
      unfold key_at, app_cred. rewrite Ha.
      repeat split; auto; discriminate.
    + split; [auto|]. split; [|intros H; contradiction].
      intros _. exists sub, (ptr_app_key_val app 0), (cred_val (keys0 a)).
      unfold key_at, app_cred. rewrite Ha.
      repeat split; auto; discriminate.
Qed.

Context {D : Type} (cb : D -> list Z -> Z * D).

(** X22. With [dev_key] set, [bt_mesh_app_key_find] returns the remote
    device-key index, the local one or the unused index, whatever the
    table holds. For a destination that is not a unicast address, when no
    node key is tried (the node database is compiled out, or the message
    came in on the local interface, or the database has no node for the
    source), it returns the unused index without calling the callback.
    When the callback accepts the key of the node found in the database,
    the remote index is returned and the callback is not called again. *)
Theorem app_key_find_dev_key st aid rx s :
  (fst (bt_mesh_app_key_find cb st true aid rx s) = BT_MESH_KEY_DEV_REMOTE \/
   fst (bt_mesh_app_key_find cb st true aid rx s) = BT_MESH_KEY_DEV_LOCAL \/
   fst (bt_mesh_app_key_find cb st true aid rx s) = BT_MESH_KEY_UNUSED) /\
  (BT_MESH_ADDR_IS_UNICAST (ctx_recv_dst (rx_ctx rx)) = false ->
   CONFIG_BT_MESH_CDB = false \/ rx_net_if rx = BT_MESH_NET_IF_LOCAL \/
     bt_mesh_cdb_node_get (ctx_addr (rx_ctx rx)) = None ->
   bt_mesh_app_key_find cb st true aid rx s = (BT_MESH_KEY_UNUSED, s)) /\
  (forall node,
     CONFIG_BT_MESH_CDB = true -> rx_net_if rx <> BT_MESH_NET_IF_LOCAL ->
     bt_mesh_cdb_node_get (ctx_addr (rx_ctx rx)) = Some node ->
     fst (cb s (dev_key node)) = 0 ->
     bt_mesh_app_key_find cb st true aid rx s =
       (BT_MESH_KEY_DEV_REMOTE, snd (cb s (dev_key node)))).
Proof.
  unfold bt_mesh_app_key_find.
  set (local := fun s1 : D =>
         if BT_MESH_ADDR_IS_UNICAST (ctx_recv_dst (rx_ctx rx))
         then let (err, s2) := cb s1 bt_mesh_dev_key in
              if negb (err =? 0) then (BT_MESH_KEY_UNUSED, s2)
              else (BT_MESH_KEY_DEV_LOCAL, s2)
         else (BT_MESH_KEY_UNUSED, s1)).
  assert (Hlocal : forall s1, fst (local s1) = BT_MESH_KEY_DEV_LOCAL \/
                              fst (local s1) = BT_MESH_KEY_UNUSED).
  { intros s1. unfold local.
    destruct (BT_MESH_ADDR_IS_UNICAST (ctx_recv_dst (rx_ctx rx))); [|auto].
    destruct (cb s1 bt_mesh_dev_key) as [err s2].
    destruct (negb (err =? 0)); auto. }
  assert (Hnon : BT_MESH_ADDR_IS_UNICAST (ctx_recv_dst (rx_ctx rx)) = false ->
                 forall s1, local s1 = (BT_MESH_KEY_UNUSED, s1)).
  { intros Hu s1. unfold local. rewrite Hu. reflexivity. }
  split; [|split].
  - destruct (CONFIG_BT_MESH_CDB && negb (is_net_if_local (rx_net_if rx)));
      [|destruct (Hlocal s); auto].
    destruct (bt_mesh_cdb_node_get (ctx_addr (rx_ctx rx))) as [node|];
      [|destruct (Hlocal s); auto].
    destruct (cb s (dev_key node)) as [err s1].
    destruct (negb (err =? 0)); [destruct (Hlocal s1); auto|auto].
  - intros Hu Hno.
    destruct Hno as [Hc|[Hi|Hn]].
    + rewrite Hc. cbn [andb]. apply Hnon, Hu.
    + rewrite Hi. cbn [is_net_if_local negb]. rewrite andb_false_r. apply Hnon, Hu.
    + rewrite Hn. destruct (CONFIG_BT_MESH_CDB && negb (is_net_if_local (rx_net_if rx)));
        apply Hnon, Hu.
  - intros node Hc Hi Hn Hok. rewrite Hc, Hn. cbn [andb].
    assert (Hl : is_net_if_local (rx_net_if rx) = false)
      by (destruct (rx_net_if rx); try reflexivity; contradiction).
    rewrite Hl. cbn [negb].
    destruct (cb s (dev_key node)) as [err s1]. cbn [fst snd] in *.
    rewrite Hok. reflexivity.
Qed.

(** The trial of a list of candidates ends with the unused index or with
    the index of a candidate whose key the callback accepted. *)
Lemma try_candidates_sound rx cands : forall s,
  fst (try_candidates cb cands rx s) = BT_MESH_KEY_UNUSED \/
  exists a s0, In a cands /\
    fst (try_candidates cb cands rx s) = app_idx a /\
    fst (cb s0 (cred_val (rx_cred rx a))) = 0.
Proof.
  induction cands as [|a cands IH]; intros s; cbn [try_candidates]; [left; reflexivity|].
  destruct (cb s (cred_val (rx_cred rx a))) as [err s'] eqn:Hcb.
  destruct (Z.eqb_spec err 0) as [He|He].
  - right. exists a, s. rewrite Hcb. cbn. auto.
  - destruct (IH s') as [H|(b & s0 & Hb & Hr & Hok)]; [left; exact H|].
    right. exists b, s0. cbn. auto.
Qed.

(** X23. Without [dev_key], [bt_mesh_app_key_find] returns the unused
    index or the index of a record in use that is bound to the receiving
    subnet, whose selected credential has the given AID and whose selected
    key the callback accepted; when no record in use bound to the subnet
    has a selected credential with the AID, it returns the unused index
    without calling the callback. *)
Theorem app_key_find_sound st aid rx s :
  (fst (bt_mesh_app_key_find cb st false aid rx s) = BT_MESH_KEY_UNUSED \/
   exists i a s0,
     apps st !! i = Some a /\ rx_candidate aid rx a = true /\
     fst (bt_mesh_app_key_find cb st false aid rx s) = app_idx a /\
     fst (cb s0 (cred_val (rx_cred rx a))) = 0) /\
  ((forall i a, apps st !! i = Some a -> rx_candidate aid rx a = false) ->
   bt_mesh_app_key_find cb st false aid rx s = (BT_MESH_KEY_UNUSED, s)).
Proof.
  assert (H : bt_mesh_app_key_find cb st false aid rx s =
              try_candidates cb (List.filter (rx_candidate aid rx) (apps st)) rx s)
    by apply bt_mesh_app_key_find_loop_spec.
  rewrite H. split.
  - destruct (try_candidates_sound rx (List.filter (rx_candidate aid rx) (apps st)) s)
      as [Hu|(a & s0 & Ha & Hr & Hok)]; [left; exact Hu|].
    right. apply List.filter_In in Ha as [Hin Hc].
    apply list_elem_of_In, list_elem_of_lookup in Hin as [i Hi].
    exists i, a, s0. auto.
  - intros Hnone.
    assert (Hf : forall l : list app_key,
              (forall i a, l !! i = Some a -> rx_candidate aid rx a = false) ->
              List.filter (rx_candidate aid rx) l = []).
    { induction l as [|a l IH]; intros Hl; [reflexivity|]. cbn [List.filter].
      rewrite (Hl 0%nat a eq_refl). apply IH.
      intros i b Hb. apply (Hl (S i) b). exact Hb. }
    rewrite (Hf (apps st) Hnone). reflexivity.
Qed.

End ResolverOutcomes.

(** ** Enumeration: bounds *)

Section EnumerateBounds.
Context `{M : Mesh}.

Lemma bt_mesh_app_keys_get_loop_bounds l net max : forall buf skip count,
  0 <= count <= max ->
  let r := bt_mesh_app_keys_get_loop l net buf max skip count in
  (fst r = - ENOMEM \/ count <= fst r <= max) /\
  length (snd r) = length buf /\
  take (Z.to_nat count) (snd r) = take (Z.to_nat count) buf /\
  drop (Z.to_nat max) (snd r) = drop (Z.to_nat max) buf.
Proof.
  induction l as [|a l IH]; intros buf skip count Hc; cbv zeta.
  - cbn. repeat split; auto. right. lia.
  - rewrite bt_mesh_app_keys_get_loop_cons.
    destruct (listed net a); [|apply IH; exact Hc].
    destruct (negb (skip =? 0)); [apply IH; exact Hc|].
    destruct (Z.geb_spec count max) as [Hge|Hlt].
    { cbn. repeat split; auto. }
    destruct (IH (<[Z.to_nat count := app_idx a]> buf) skip (count + 1))
      as (Hr & Hlen & Htake & Hdrop); [lia|].
    cbv zeta in Hr, Hlen, Htake, Hdrop.
    split; [destruct Hr as [Hr|Hr]; [left; exact Hr|right; lia]|].
    split; [rewrite Hlen; apply length_insert|]. split.
    + replace (Z.to_nat (count + 1)) with (S (Z.to_nat count)) in Htake by lia.
      apply (f_equal (take (Z.to_nat count))) in Htake.
      rewrite !take_take in Htake.
      rewrite !Nat.min_l in Htake by lia. rewrite Htake.
      apply take_insert_ge. lia.
    + rewrite Hdrop. apply drop_insert_lt. lia.
Qed.

Lemma bt_mesh_app_keys_get_loop_negative_skip l net max : forall buf skip count,
  skip < 0 ->
  bt_mesh_app_keys_get_loop l net buf max skip count = (count, buf).
Proof.
  induction l as [|a l IH]; intros buf skip count Hs; [reflexivity|].
  rewrite bt_mesh_app_keys_get_loop_cons.
  destruct (listed net a); [|apply IH; exact Hs].
  destruct (Z.eqb_spec skip 0) as [E|E]; [lia|]. cbn [negb]. apply IH. lia.
Qed.

(** X24. Whatever the table and the arguments with [0 <= max],
    [bt_mesh_app_keys_get] returns [-ENOMEM] or a count between 0 and
    [max]; it leaves the buffer at its length and never writes at an
    offset of [max] or more, even when it fails. With a negative [skip] it
    returns 0 and leaves the buffer as it was. *)
Theorem app_keys_get_bounds st net buf max skip :
  0 <= max ->
  (fst (bt_mesh_app_keys_get st net buf max skip) = - ENOMEM \/
   0 <= fst (bt_mesh_app_keys_get st net buf max skip) <= max) /\
  length (snd (bt_mesh_app_keys_get st net buf max skip)) = length buf /\
  drop (Z.to_nat max) (snd (bt_mesh_app_keys_get st net buf max skip)) =
    drop (Z.to_nat max) buf /\
  (skip < 0 -> bt_mesh_app_keys_get st net buf max skip = (0, buf)).
Proof.
  intros Hm. unfold bt_mesh_app_keys_get.
  destruct (bt_mesh_app_keys_get_loop_bounds (apps st) net max buf skip 0)
    as (Hr & Hlen & _ & Hdrop); [lia|].
  cbv zeta in Hr, Hlen, Hdrop. repeat split_and; auto.
  apply bt_mesh_app_keys_get_loop_negative_skip.
Qed.

End EnumerateBounds.

(** ** Restore *)

Section RestoreMore.
Context `{M : Mesh}.

Lemma bt_mesh_app_key_set_new_unfold idx net old_key new_key st app a id0 new :
  bt_mesh_app_key_exists st idx = false ->
  app_key_alloc st idx = Some app ->
  apps st !! app = Some a ->
  bt_mesh_app_id old_key (cred_id (keys0 a)) = (0, id0) ->
  match new_key with
  | None => new = None
  | Some nk => exists id1,
      bt_mesh_app_id nk (cred_id (keys1 a)) = (0, id1) /\ new = Some (id1, nk)
  end ->
  bt_mesh_app_key_set idx net old_key new_key st =
    (0, with_apps (<[app := restored_slot idx net id0 old_key new a]> (apps st)) st).
Proof.
  intros Hex Hal Ha Hid Hnew. apply exists_false_app_get in Hex.
  assert (Hne : app_idx a <> idx).
  { unfold app_get in Hex.
    apply app_get_loop_None with (k := app) (b := a) in Hex; auto. }
  unfold bt_mesh_app_key_set. rewrite Hal, Ha, (proj2 (Z.eqb_neq _ _) Hne), Hid.
  cbn [Z.eqb negb].
  destruct new_key as [nk|].
  - destruct Hnew as (id1 & Hid1 & ->). rewrite Hid1. cbn [Z.eqb negb].
    f_equal. unfold store_app, with_apps. cbn [apps app_key_updates subnet_cb_0 trace].
    rewrite !list_alter_alter_eq. rewrite (alter_at _ _ _ a Ha).
    unfold restored_slot. cbn. reflexivity.
  - subst new. f_equal. unfold store_app, with_apps.
    cbn [apps app_key_updates subnet_cb_0 trace].
    rewrite !list_alter_alter_eq. rewrite (alter_at _ _ _ a Ha).
    unfold restored_slot. cbn. reflexivity.
Qed.

(** X25. The restore operation on an index that is not in the table, with
    a slot to take and successful AID derivations: it returns 0 and writes
    the binding, the index, the old key with its AID as generation 0 and,
    when a new key is given, the new key with its AID as generation 1 with
    [updated] on (else [updated] off and generation 1 untouched); nothing
    else changes: no other slot, no tracker entry, no listener call, no
    settings call. The index exists afterwards. *)
Theorem set_restores_record idx net old_key new_key st app a id0 new :
  bt_mesh_app_key_exists st idx = false ->
  app_key_alloc st idx = Some app ->
  apps st !! app = Some a ->
  bt_mesh_app_id old_key (cred_id (keys0 a)) = (0, id0) ->
  match new_key with
  | None => new = None
  | Some nk => exists id1,
      bt_mesh_app_id nk (cred_id (keys1 a)) = (0, id1) /\ new = Some (id1, nk)
  end ->
  bt_mesh_app_key_set idx net old_key new_key st =
    (0, with_apps (<[app := restored_slot idx net id0 old_key new a]> (apps st)) st) /\
  bt_mesh_app_key_exists (snd (bt_mesh_app_key_set idx net old_key new_key st)) idx
    = true.
Proof.
  intros Hex Hal Ha Hid Hnew.
  pose proof (bt_mesh_app_key_set_new_unfold idx net old_key new_key st app a id0 new
                Hex Hal Ha Hid Hnew) as Heq.
  assert (Hlt : (app < length (apps st))%nat) by (apply lookup_lt_is_Some; eauto).
  split; [exact Heq|]. rewrite Heq. cbn [snd].
  unfold bt_mesh_app_key_exists. cbn [apps with_apps].
  destruct (bt_mesh_app_key_exists_loop _ idx) eqn:E; [reflexivity|].
  exfalso.
  apply exists_loop_false
    with (k := app) (b := restored_slot idx net id0 old_key new a) in E.
  - apply E. reflexivity.
  - apply list_lookup_insert_eq. exact Hlt.
Qed.

(** X26. The restore operation never calls a listener or the settings
    store and never touches the tracker or the listener list, whatever it
    returns; on an index that is in the table it returns 0 and changes
    nothing at all, whatever key it is given. *)
Theorem set_is_silent idx net old_key new_key st :
  trace (snd (bt_mesh_app_key_set idx net old_key new_key st)) = trace st /\
  app_key_updates (snd (bt_mesh_app_key_set idx net old_key new_key st)) =
    app_key_updates st /\
  subnet_cb_0 (snd (bt_mesh_app_key_set idx net old_key new_key st)) = subnet_cb_0 st /\
  (bt_mesh_app_key_exists st idx = true ->
   bt_mesh_app_key_set idx net old_key new_key st = (0, st)).
Proof.
  repeat split_and.
  1-3: unfold bt_mesh_app_key_set;
    destruct (app_key_alloc st idx) as [app|]; [|reflexivity];
    destruct (apps st !! app) as [a|]; [|reflexivity];
    destruct (app_idx a =? idx); [reflexivity|];
    destruct (bt_mesh_app_id old_key (cred_id (keys0 a))) as [err0 id0];
    destruct (negb (err0 =? 0)); [reflexivity|];
    destruct new_key as [nk|]; [|reflexivity];
    destruct (bt_mesh_app_id nk (cred_id (keys1 a))) as [err1 id1];
    destruct (negb (err1 =? 0)); reflexivity.
  intros Hex. destruct (app_get st idx) as [app|] eqn:Hget.
  - destruct (app_get_Some st idx app Hget) as (a & Ha & Hidx & _).
    unfold bt_mesh_app_key_set.
    rewrite (app_key_alloc_found st idx app Hget), Ha, (proj2 (Z.eqb_eq _ _) Hidx).
    reflexivity.
  - apply exists_false_app_get in Hget. congruence.
Qed.

(** X27. What [store_app_key] writes for a record with 16-byte keys is
    enough to get the record back: the restore operation, given the fields
    of that value the way the settings handler passes them (the new key
    only when the value says updated), on a table without the index, with
    a slot with 16-byte keys to take and successful AID derivations,
    leaves a record with the same binding, the same [updated] flag, the
    same key of generation 0 and, if updated, the same key of generation
    1; storing this record again writes the same value when the record was
    updated. *)
Theorem store_then_restore idx (r : app_key) st app a id0 id1 :
  length (cred_val (keys0 r)) = 16%nat ->
  length (cred_val (keys1 r)) = 16%nat ->
  bt_mesh_app_key_exists st idx = false ->
  app_key_alloc st idx = Some app ->
  apps st !! app = Some a ->
  length (cred_val (keys0 a)) = 16%nat ->
  length (cred_val (keys1 a)) = 16%nat ->
  bt_mesh_app_id (val_0 (app_key_val_of r)) (cred_id (keys0 a)) = (0, id0) ->
  (updated r = true ->
   bt_mesh_app_id (val_1 (app_key_val_of r)) (cred_id (keys1 a)) = (0, id1)) ->
  let v := app_key_val_of r in
  let res := bt_mesh_app_key_set idx (val_net_idx v) (val_0 v)
               (if val_updated v then Some (val_1 v) else None) st in
  fst res = 0 /\
  exists r', apps (snd res) !! app = Some r' /\
    app_idx r' = idx /\ net_idx r' = net_idx r /\ updated r' = updated r /\
    cred_val (keys0 r') = cred_val (keys0 r) /\
    (updated r = true -> cred_val (keys1 r') = cred_val (keys1 r) /\
                         app_key_val_of r' = app_key_val_of r).
Proof.
  intros Hr0 Hr1 Hex Hal Ha Ha0 Ha1 Hid0 Hid1 v res.
  assert (Hv0 : val_0 v = cred_val (keys0 r))
    by (apply memcpy_16; [exact Hr0|apply length_replicate]).
  assert (Hv1 : val_1 v = cred_val (keys1 r))
    by (apply memcpy_16; [exact Hr1|apply length_replicate]).
  fold v in Hid0, Hid1.
  assert (Hlt : (app < length (apps st))%nat) by (apply lookup_lt_is_Some; eauto).
  assert (Hval : forall r' : app_key,
            net_idx r' = net_idx r -> updated r' = updated r ->
            cred_val (keys0 r') = cred_val (keys0 r) ->
            cred_val (keys1 r') = cred_val (keys1 r) ->
            app_key_val_of r' = app_key_val_of r).
  { intros r' Hn Hu H0 H1. unfold app_key_val_of. rewrite Hn, Hu, H0, H1. reflexivity. }
  unfold res. change (val_net_idx v) with (net_idx r).
  change (val_updated v) with (updated r).
  destruct (updated r) eqn:Hup.
  - rewrite (bt_mesh_app_key_set_new_unfold idx (net_idx r) (val_0 v) (Some (val_1 v))
               st app a id0 (Some (id1, val_1 v)) Hex Hal Ha Hid0) by eauto.
    cbn [fst snd apps with_apps]. split; [reflexivity|].
    eexists. split; [apply list_lookup_insert_eq; exact Hlt|].
    unfold restored_slot. cbn [app_idx net_idx updated keys0 keys1 cred_val].
    rewrite Hv0, Hv1, !memcpy_16 by assumption.
    repeat split_and; try reflexivity.
    intros _. split; [reflexivity|]. apply Hval; reflexivity.
  - rewrite (bt_mesh_app_key_set_new_unfold idx (net_idx r) (val_0 v) None
               st app a id0 None Hex Hal Ha Hid0) by reflexivity.
    cbn [fst snd apps with_apps]. split; [reflexivity|].
    eexists. split; [apply list_lookup_insert_eq; exact Hlt|].
    unfold restored_slot. cbn [app_idx net_idx updated keys0 keys1 cred_val].
    rewrite Hv0, !memcpy_16 by assumption.
    repeat split_and; try reflexivity. discriminate.
Qed.

End RestoreMore.

(** ** The further properties on concrete tables *)

Lemma add_new_record_witness :
  let st := sample_state [sample_key 1 0 false 7 0; unused_slot] [free_update] in
  apps (snd (@bt_mesh_app_key_add sample_mesh 2 0 (key_of 9) st)) =
    [sample_key 1 0 false 7 0; sample_key 2 0 false 9 0] /\
  bt_mesh_app_key_exists (snd (@bt_mesh_app_key_add sample_mesh 2 0 (key_of 9) st)) 2
    = true.
Proof.
  intros st.
  destruct (@add_new_record sample_mesh 2 0 (key_of 9) st
              {| sub_net_idx := 0; kr_phase := 0 |} 1%nat unused_slot 9
              eq_refl eq_refl eq_refl eq_refl eq_refl) as (_ & Hap & Hex & _).
  split; [rewrite Hap; reflexivity|exact Hex].
Defined.

Lemma add_rejected_changes_nothing_witness :
  let st := sample_state [sample_key 1 0 false 7 0; unused_slot] [free_update] in
  fst (@bt_mesh_app_key_add sample_mesh 2 0 (key_of 255) st) = STATUS_CANNOT_SET /\
  trace (snd (@bt_mesh_app_key_add sample_mesh 2 0 (key_of 255) st)) = [] /\
  bt_mesh_app_key_exists (snd (@bt_mesh_app_key_add sample_mesh 2 0 (key_of 255) st)) 2
    = false.
Proof.
  intros st. split; [reflexivity|].
  destruct (@add_rejected_changes_nothing sample_mesh 2 0 (key_of 255) st)
    as (Htr & _ & _ & Hex & _); [vm_compute; discriminate|].
  split; [exact Htr|]. rewrite Hex. reflexivity.
Defined.

Lemma add_insufficient_resources_iff_witness :
  let st := sample_state [sample_key 1 0 false 7 0; sample_key 3 1 false 8 0] [free_update] in
  fst (@bt_mesh_app_key_add sample_mesh 2 0 (key_of 9) st) = STATUS_INSUFF_RESOURCES.
Proof.
  intros st.
  apply (@add_insufficient_resources_iff sample_mesh 2 0 (key_of 9) st
           {| sub_net_idx := 0; kr_phase := 0 |} eq_refl).
  intros [|[|k]] b Hb; simpl in Hb; try discriminate;
    injection Hb as <-; split; simpl; lia.
Defined.

Lemma add_twice_witness :
  let st := sample_state [sample_key 1 0 false 7 0; unused_slot] [free_update] in
  let st' := snd (@bt_mesh_app_key_add sample_mesh 2 0 (key_of 9) st) in
  @bt_mesh_app_key_add sample_mesh 2 0 (key_of 9) st' = (STATUS_SUCCESS, st').
Proof.
  intros st st'.
  apply (@add_twice sample_mesh 2 0 (key_of 9) st
           {| sub_net_idx := 0; kr_phase := 0 |} 1%nat unused_slot 9);
    reflexivity.
Defined.

Lemma update_new_generation_witness :
  let st := sample_state [sample_key 1 1 false 7 0; unused_slot] [free_update] in
  apps (snd (@bt_mesh_app_key_update sample_mesh 1 1 (key_of 9) st)) =
    [sample_key 1 1 true 7 9; unused_slot] /\
  key_evts (trace (snd (@bt_mesh_app_key_update sample_mesh 1 1 (key_of 9) st))) =
    [KeyEvt 0 1 1 BT_MESH_KEY_UPDATED].
Proof.
  intros st.
  destruct (@update_new_generation sample_mesh 1 1 (key_of 9) st 0%nat
              (sample_key 1 1 false 7 0) {| sub_net_idx := 1; kr_phase := 1 |} 9
              eq_refl eq_refl (or_intror eq_refl) eq_refl eq_refl eq_refl eq_refl)
    as (_ & Hap & Hev).
  split; [rewrite Hap; reflexivity|rewrite Hev; reflexivity].
Defined.

Lemma update_twice_witness :
  let st := sample_state [sample_key 1 1 false 7 0; unused_slot] [free_update] in
  let st' := snd (@bt_mesh_app_key_update sample_mesh 1 1 (key_of 9) st) in
  @bt_mesh_app_key_update sample_mesh 1 1 (key_of 9) st' = (STATUS_SUCCESS, st') /\
  @bt_mesh_app_key_update sample_mesh 1 1 (key_of 5) st' =
    (STATUS_IDX_ALREADY_STORED, st').
Proof.
  intros st st'.
  destruct (@update_twice sample_mesh 1 1 (key_of 9) (key_of 5) st 0%nat
              (sample_key 1 1 false 7 0) {| sub_net_idx := 1; kr_phase := 1 |} 9
              eq_refl eq_refl (or_intror eq_refl) eq_refl eq_refl eq_refl eq_refl
              eq_refl eq_refl) as [H1 H2].
  split; [exact H1|]. apply H2; [reflexivity|discriminate].
Defined.

Lemma update_rejected_keeps_keys_witness :
  let st := sample_state [sample_key 1 1 false 7 0; unused_slot] [free_update] in
  fst (@bt_mesh_app_key_update sample_mesh 1 1 (key_of 255) st) = STATUS_CANNOT_UPDATE /\
  trace (snd (@bt_mesh_app_key_update sample_mesh 1 1 (key_of 255) st)) = [] /\
  map (fun a => cred_val (keys1 a))
      (apps (snd (@bt_mesh_app_key_update sample_mesh 1 1 (key_of 255) st))) =
    [replicate 16 0; replicate 16 0].
Proof.
  intros st. split; [reflexivity|].
  destruct (@update_rejected_keeps_keys sample_mesh 1 1 (key_of 255) st)
    as (Htr & _ & Hmap); [vm_compute; discriminate|].
  split; [exact Htr|].
  apply (f_equal (map (fun t : Z * Z * bool * bt_mesh_app_cred * list Z => snd t))) in Hmap.
  rewrite !map_map in Hmap. exact Hmap.
Defined.

Lemma del_existing_witness :
  let st := sample_state [sample_key 1 0 false 7 0; sample_key 3 1 false 8 0] [free_update] in
  apps (snd (@bt_mesh_app_key_del sample_mesh 3 1 st)) =
    [sample_key 1 0 false 7 0; unused_slot] /\
  bt_mesh_app_key_exists (snd (@bt_mesh_app_key_del sample_mesh 3 1 st)) 3 = false.
Proof.
  intros st.
  destruct (@del_existing sample_mesh 3 1 st 1%nat (sample_key 3 1 false 8 0)
              eq_refl eq_refl) as (_ & Hap & _ & Hex).
  { right. split; [eexists; reflexivity|reflexivity]. }
  split; [rewrite Hap; reflexivity|].
  apply Hex; [reflexivity|].
  intros i j a b Hi Hj Hin Heq.
  destruct i as [|[|i]]; simpl in Hi; try discriminate; injection Hi as <-;
    destruct j as [|[|j]]; simpl in Hj; try discriminate; injection Hj as <-;
    try reflexivity; discriminate Heq.
Defined.

Lemma del_rejected_changes_nothing_witness :
  let st := sample_state [sample_key 1 0 false 7 0; sample_key 3 1 false 8 0] [free_update] in
  @bt_mesh_app_key_del sample_mesh 3 0 st = (STATUS_INVALID_BINDING, st).
Proof.
  intros st.
  destruct (@del_rejected_changes_nothing sample_mesh 3 0 st) as [_ H].
  rewrite (surjective_pairing (bt_mesh_app_key_del 3 0 st)).
  rewrite H; [reflexivity|vm_compute; discriminate].
Defined.

Lemma add_then_del_witness :
  let st := sample_state [sample_key 1 0 false 7 0; unused_slot] [free_update] in
  apps (snd (@bt_mesh_app_key_del sample_mesh 2 0
               (snd (@bt_mesh_app_key_add sample_mesh 2 0 (key_of 9) st)))) = apps st.
Proof.
  intros st.
  destruct (@add_then_del sample_mesh 2 0 (key_of 9) st
              {| sub_net_idx := 0; kr_phase := 0 |} 1%nat unused_slot 9
              eq_refl eq_refl eq_refl eq_refl eq_refl) as (_ & _ & Hap & _).
  rewrite Hap. reflexivity.
Defined.

Lemma subnet_revoked_round_witness :
  let st := sample_state
              [sample_key 1 2 true 7 9; sample_key 2 0 true 8 5; sample_key 3 2 false 6 0]
              [free_update; free_update; free_update] in
  let st' := @subnet_evt sample_mesh {| sub_net_idx := 2; kr_phase := 2 |}
               BT_MESH_KEY_REVOKED st in
  apps st' = [sample_key 1 2 false 9 0; sample_key 2 0 true 8 5; sample_key 3 2 false 6 0] /\
  (updated <$> apps st' !! 0%nat) = Some false.
Proof.
  intros st st'.
  destruct (@subnet_revoked_round sample_mesh {| sub_net_idx := 2; kr_phase := 2 |} st)
    as (Hap & _ & Hno).
  fold st' in Hap, Hno.
  split; [rewrite Hap; reflexivity|].
  destruct (apps st' !! 0%nat) as [a|] eqn:Ha; [|vm_compute in Ha; discriminate Ha].
  simpl. f_equal. apply (Hno 0%nat a Ha).
  vm_compute in Ha. injection Ha as <-. reflexivity.
Defined.

Lemma subnet_evt_frame_witness :
  let st := sample_state
              [sample_key 1 2 true 7 9; sample_key 2 0 true 8 5; unused_slot]
              [free_update; free_update; free_update] in
  apps (@subnet_evt sample_mesh {| sub_net_idx := 2; kr_phase := 2 |}
          BT_MESH_KEY_DELETED st) !! 1%nat = Some (sample_key 2 0 true 8 5) /\
  @subnet_evt sample_mesh {| sub_net_idx := 2; kr_phase := 2 |} BT_MESH_KEY_ADDED st = st.
Proof.
  intros st.
  destruct (@subnet_evt_frame sample_mesh {| sub_net_idx := 2; kr_phase := 2 |}
              BT_MESH_KEY_DELETED st) as [H _].
  destruct (@subnet_evt_frame sample_mesh {| sub_net_idx := 2; kr_phase := 2 |}
              BT_MESH_KEY_ADDED st) as [_ H'].
  split; [apply H; reflexivity|apply H'; left; reflexivity].
Defined.

Lemma reset_empties_table_witness :
  let st := sample_state [sample_key 1 2 true 7 9; unused_slot; sample_key 2 0 false 8 0]
              [free_update; free_update; free_update] in
  bt_mesh_app_key_exists (@bt_mesh_app_keys_reset sample_mesh st) 1 = false /\
  key_evts (trace (@bt_mesh_app_keys_reset sample_mesh st)) =
    [KeyEvt 0 1 2 BT_MESH_KEY_DELETED; KeyEvt 0 2 0 BT_MESH_KEY_DELETED].
Proof.
  intros st.
  destruct (@reset_empties_table sample_mesh st) as (_ & Hev & _ & Hex & _).
  split; [apply Hex; simpl; lia|rewrite Hev; reflexivity].
Defined.

Lemma update_then_revoked_witness :
  let st := sample_state [sample_key 1 1 false 7 0; unused_slot] [free_update] in
  let st2 := @subnet_evt sample_mesh {| sub_net_idx := 1; kr_phase := 1 |}
               BT_MESH_KEY_REVOKED
               (snd (@bt_mesh_app_key_update sample_mesh 1 1 (key_of 9) st)) in
  let later := sample_mesh_subnets [ {| sub_net_idx := 1; kr_phase := 2 |} ] in
  let ctx := {| ctx_net_idx := 0; ctx_app_idx := 1; ctx_addr := 5; ctx_recv_dst := 0 |} in
  let o := {| out_sub := None; out_app_key := None; out_aid := 3 |} in
  apps st2 !! 0%nat = Some (sample_key 1 1 false 9 0) /\
  @bt_mesh_keys_resolve later st2 ctx o =
    (0, {| out_sub := Some {| sub_net_idx := 1; kr_phase := 2 |};
           out_app_key := Some (ptr_app_key_val 0 0);
           out_aid := 9 |}) /\
  @key_at later st2 (ptr_app_key_val 0 0) = Some (key_of 9).
Proof.
  intros st st2 later ctx o.
  destruct (@update_then_revoked sample_mesh 1 1 (key_of 9) st 0%nat
              (sample_key 1 1 false 7 0) {| sub_net_idx := 1; kr_phase := 1 |} 9
              eq_refl eq_refl (or_intror eq_refl) eq_refl eq_refl eq_refl eq_refl
              eq_refl eq_refl eq_refl eq_refl) as [H Hres].
  split; [exact H|].
  apply (Hres later {| sub_net_idx := 1; kr_phase := 2 |} ctx o eq_refl eq_refl eq_refl).
Defined.

Lemma pending_store_drains_witness :
  let st := sample_state [sample_key 1 2 true 7 9; unused_slot]
              [ {| key_idx := 5; valid := true; clear := true |};
                {| key_idx := 1; valid := true; clear := false |};
                free_update ] in
  trace (@bt_mesh_app_key_pending_store sample_mesh st) =
    [ SettingsSaveOne 5 None;
      SettingsSaveOne 1 (Some (app_key_val_of (sample_key 1 2 true 7 9))) ] /\
  map valid (app_key_updates (@bt_mesh_app_key_pending_store sample_mesh st)) =
    [false; false; false].
Proof.
  intros st.
  destruct (@pending_store_drains sample_mesh st eq_refl) as (Heq & _ & _).
  rewrite Heq. split; reflexivity.
Defined.

Lemma dirty_mark_twice_witness :
  let st := sample_state [sample_key 1 2 true 7 9]
              [ {| key_idx := 5; valid := true; clear := false |}; free_update ] in
  let st2 := @update_app_key_settings sample_mesh 1 false
               (@update_app_key_settings sample_mesh 1 true st) in
  app_key_updates st2 =
    [ {| key_idx := 5; valid := true; clear := false |};
      {| key_idx := 1; valid := true; clear := true |} ] /\
  trace st2 = [SettingsStoreSchedule; SettingsStoreSchedule].
Proof.
  intros st st2. split; [reflexivity|].
  destruct (@dirty_mark_twice sample_mesh 1 true false st eq_refl) as (Htr & _).
  - lia.
  - intros i j u v Hi Hj Hvu Hvv Hk.
    destruct i as [|[|i]]; simpl in Hi; try discriminate; injection Hi as <-;
      destruct j as [|[|j]]; simpl in Hj; try discriminate; injection Hj as <-;
      try reflexivity; discriminate.
  - exists 1%nat, free_update. split; [reflexivity|left; reflexivity].
  - exact Htr.
Defined.

Lemma unique_app_idx_preserved_witness :
  let st := sample_state [sample_key 1 0 false 7 0; unused_slot] [free_update] in
  @unique_app_idx sample_mesh
    (apps (snd (@bt_mesh_app_key_add sample_mesh 2 0 (key_of 9) st))).
Proof.
  intros st.
  destruct (@unique_app_idx_preserved sample_mesh st) as (H & _).
  - intros i j a b Hi Hj Hin Heq.
    destruct i as [|[|i]]; simpl in Hi; try discriminate; injection Hi as <-;
      destruct j as [|[|j]]; simpl in Hj; try discriminate; injection Hj as <-;
      try reflexivity; try discriminate Heq; discriminate Hin.
  - apply H.
Defined.

Lemma bound_subnets_exist_preserved_witness :
  let st := sample_state [sample_key 1 0 false 7 0; unused_slot] [free_update] in
  @bound_subnets_exist sample_mesh (@bt_mesh_subnet_get sample_mesh)
    (apps (snd (@bt_mesh_app_key_add sample_mesh 2 1 (key_of 9) st))).
Proof.
  intros st.
  destruct (@bound_subnets_exist_preserved sample_mesh st) as (H & _).
  - intros i a Hi Hin.
    destruct i as [|[|i]]; simpl in Hi; try discriminate; injection Hi as <-;
      [eexists; reflexivity|discriminate Hin].
  - apply H.
Defined.

Lemma keys_resolve_outcomes_witness :
  let st := sample_state [sample_key 1 2 true 7 9] [free_update] in
  let ctx := {| ctx_net_idx := 0; ctx_app_idx := 65534; ctx_addr := 5; ctx_recv_dst := 0 |} in
  let o := {| out_sub := None; out_app_key := None; out_aid := 3 |} in
  out_aid (snd (@bt_mesh_keys_resolve sample_mesh st ctx o)) = 0.
Proof.
  intros st ctx o.
  destruct (@keys_resolve_outcomes sample_mesh st ctx o) as (_ & H & _).
  destruct (H eq_refl) as (sub & p & key & _ & _ & _ & Hdev).
  apply (Hdev eq_refl).
Defined.

Lemma app_key_find_dev_key_witness :
  let st := sample_state [sample_key 1 2 true 7 9] [free_update] in
  let rx := {| rx_sub := {| sub_net_idx := 0; kr_phase := 0 |};
               rx_ctx := {| ctx_net_idx := 0; ctx_app_idx := 0; ctx_addr := 5;
                            ctx_recv_dst := 49152 |};
               rx_new_key := false; rx_net_if := BT_MESH_NET_IF_ADV |} in
  @bt_mesh_app_key_find sample_mesh nat (sample_cb (replicate 16 0)) st true 0 rx 0%nat
    = (65535, 0%nat).
Proof.
  intros st rx.
  destruct (@app_key_find_dev_key sample_mesh nat (sample_cb (replicate 16 0)) st 0 rx 0%nat)
    as (_ & H & _).
  apply H; [reflexivity|left; reflexivity].
Defined.

Lemma app_key_find_sound_witness :
  let st := sample_state [sample_key 1 0 false 7 0; sample_key 2 0 false 71 0] [] in
  @bt_mesh_app_key_find sample_mesh nat (sample_cb (key_of 71)) st false 9
    (sample_rx 0 false) 0%nat = (65535, 0%nat).
Proof.
  intros st.
  destruct (@app_key_find_sound sample_mesh nat (sample_cb (key_of 71)) st 9
              (sample_rx 0 false) 0%nat) as [_ H].
  apply H. intros i a Hi.
  destruct i as [|[|i]]; simpl in Hi; try discriminate; injection Hi as <-; reflexivity.
Defined.

Lemma app_keys_get_bounds_witness :
  let st := sample_state [sample_key 1 1 false 7 0; sample_key 2 0 false 8 0] [] in
  snd (@bt_mesh_app_keys_get sample_mesh st 65535 [4; 5; 6] 1 0) !! 1%nat = Some 5 /\
  @bt_mesh_app_keys_get sample_mesh st 65535 [4; 5; 6] 1 (-1) = (0, [4; 5; 6]).
Proof.
  intros st.
  destruct (@app_keys_get_bounds sample_mesh st 65535 [4; 5; 6] 1 0) as (_ & _ & Hd & _);
    [lia|].
  destruct (@app_keys_get_bounds sample_mesh st 65535 [4; 5; 6] 1 (-1)) as (_ & _ & _ & Hn);
    [lia|].
  split; [|apply Hn; lia].
  apply (f_equal (fun l => l !! 0%nat)) in Hd. rewrite lookup_drop in Hd. exact Hd.
Defined.

Lemma set_restores_record_witness :
  let st := sample_state [sample_key 1 0 false 7 0; unused_slot] [free_update] in
  @bt_mesh_app_key_set sample_mesh 4 2 (key_of 8) (Some (key_of 6)) st =
    (0, sample_state [sample_key 1 0 false 7 0; sample_key 4 2 true 8 6] [free_update]).
Proof.
  intros st.
  destruct (@set_restores_record sample_mesh 4 2 (key_of 8) (Some (key_of 6)) st
              1%nat unused_slot 8 (Some (6, key_of 6)) eq_refl eq_refl eq_refl eq_refl)
    as [H _].
  - exists 6. split; reflexivity.
  - rewrite H. reflexivity.
Defined.

Lemma set_is_silent_witness :
  let st := sample_state [sample_key 1 0 false 7 0; unused_slot] [free_update] in
  @bt_mesh_app_key_set sample_mesh 1 2 (key_of 8) (Some (key_of 6)) st = (0, st).
Proof.
  intros st.
  destruct (@set_is_silent sample_mesh 1 2 (key_of 8) (Some (key_of 6)) st)
    as (_ & _ & _ & H).
  apply H. reflexivity.
Defined.

Lemma store_then_restore_witness :
  let st := sample_state [unused_slot; unused_slot] [free_update] in
  let r := sample_key 3 2 true 7 9 in
  let v := app_key_val_of r in
  apps (snd (@bt_mesh_app_key_set sample_mesh 3 (val_net_idx v) (val_0 v)
               (if val_updated v then Some (val_1 v) else None) st)) !! 0%nat = Some r.
Proof.
  intros st r v.
  destruct (@store_then_restore sample_mesh 3 r st 0%nat unused_slot 7 9
              eq_refl eq_refl eq_refl eq_refl eq_refl eq_refl eq_refl eq_refl
              (fun _ => eq_refl)) as (_ & r' & Hr' & _).
  unfold v. rewrite Hr'. vm_compute in Hr'. injection Hr' as <-. reflexivity.
Defined.

(** * Hex digits of the UUID parser *)

Section HexFacts.
Variable BLE_HS_EINVAL : Z.

Lemma hex2val_hex_digit d v :
  0 <= d < 16 -> hex2val BLE_HS_EINVAL (hex_digit d) v = (0, d).
Proof.
  intros Hd. unfold hex2val, hex_digit.
  destruct (Z.ltb_spec d 10) as [Hlt|Hge].
  - replace ((48 + d >=? 48) && (48 + d <=? 57)) with true
      by (symmetry; apply andb_true_iff; split; lia).
    f_equal. lia.
  - replace ((87 + d >=? 48) && (87 + d <=? 57)) with false
      by (symmetry; apply andb_false_iff; right; lia).
    replace ((87 + d >=? 97) && (87 + d <=? 102)) with true
      by (symmetry; apply andb_true_iff; split; lia).
    f_equal. lia.
Qed.

Lemma hex2val_not_digit c v :
  is_hex_digit c = false -> hex2val BLE_HS_EINVAL c v = (BLE_HS_EINVAL, v).
Proof.
  unfold hex2val, is_hex_digit.
  destruct (Z.geb_spec c 48), (Z.leb_spec c 57), (Z.geb_spec c 97),
    (Z.leb_spec c 102), (Z.geb_spec c 65), (Z.leb_spec c 70);
    cbn; intros Hdig; try discriminate Hdig; reflexivity.
Qed.

(** X28. [hex2val] returns 0 with a value from 0 to 15 on a hexadecimal
    digit, and the error code with [*value] untouched on any other
    character; upper and lower case letters give the same value, and the
    digit printed for a value below 16 is read back as that value. *)
Theorem hex2val_digits c v :
  (is_hex_digit c = true ->
     fst (hex2val BLE_HS_EINVAL c v) = 0 /\
     0 <= snd (hex2val BLE_HS_EINVAL c v) < 16) /\
  (is_hex_digit c = false -> hex2val BLE_HS_EINVAL c v = (BLE_HS_EINVAL, v)) /\
  (65 <= c <= 70 ->
     hex2val BLE_HS_EINVAL (c + 32) v = hex2val BLE_HS_EINVAL c v) /\
  (0 <= c < 16 -> hex2val BLE_HS_EINVAL (hex_digit c) v = (0, c)).
Proof.
  unfold hex2val, is_hex_digit. repeat split_and.
  - destruct (Z.geb_spec c 48), (Z.leb_spec c 57), (Z.geb_spec c 97),
      (Z.leb_spec c 102), (Z.geb_spec c 65), (Z.leb_spec c 70);
      cbn; intros Hdig; try discriminate Hdig; split; lia.
  - apply hex2val_not_digit.
  - intros Hc.
    destruct (Z.geb_spec c 48), (Z.leb_spec c 57), (Z.geb_spec c 97),
      (Z.leb_spec c 102), (Z.geb_spec c 65), (Z.leb_spec c 70);
      destruct (Z.geb_spec (c + 32) 48), (Z.leb_spec (c + 32) 57),
        (Z.geb_spec (c + 32) 97), (Z.leb_spec (c + 32) 102);
      cbn; try lia; f_equal; lia.
  - apply hex2val_hex_digit.
Qed.

Lemma byte_nibbles b :
  0 <= b < 256 ->
  Z.lor (Z.land (Z.shiftl (b / 16) 4) 255) (b mod 16) = b.
Proof.
  intros Hb.
  assert (Hall : forallb (fun n => Z.lor (Z.land (Z.shiftl (Z.of_nat n / 16) 4) 255)
                                    (Z.of_nat n mod 16) =? Z.of_nat n)
                   (seq 0 256) = true) by (vm_compute; reflexivity).
  rewrite forallb_forall in Hall.
  specialize (Hall (Z.to_nat b)). rewrite Z2Nat.id in Hall by lia.
  apply Z.eqb_eq, Hall. apply in_seq. lia.
Qed.

Lemma hex2bin_loop_print bs : forall bin bin_len tmp len,
  Forall (fun b => 0 <= b < 256) bs ->
  0 <= len ->
  len + Z.of_nat (length bs) <= bin_len ->
  (Z.to_nat len + length bs <= length bin)%nat ->
  hex2bin_loop BLE_HS_EINVAL (flat_map print_02x bs) bin bin_len tmp len =
    (len + Z.of_nat (length bs),
     take (Z.to_nat len) bin ++ bs ++ drop (Z.to_nat len + length bs) bin).
Proof.
  induction bs as [|b bs IH]; intros bin bin_len tmp len Hbs Hlen Hfit Hbuf.
  - cbn. rewrite Z.add_0_r, Nat.add_0_r, take_drop. reflexivity.
  - inversion Hbs as [|? ? Hb Hbs']; subst.
    cbn [flat_map print_02x app length] in *.
    assert (Hhi : 0 <= b / 16 < 16) by (split; [apply Z.div_pos; lia|apply Z.div_lt_upper_bound; lia]).
    assert (Hlo : 0 <= b mod 16 < 16) by (apply Z.mod_pos_bound; lia).
    assert (Hnz : forall d, 0 <= d < 16 -> (hex_digit d =? 0) = false).
    { intros d Hd. apply Z.eqb_neq. unfold hex_digit. destruct (d <? 10); lia. }
    cbn [hex2bin_loop]. rewrite (Hnz _ Hhi).
    replace (len <? bin_len) with true by (symmetry; apply Z.ltb_lt; lia).
    cbn [negb orb]. rewrite (hex2val_hex_digit _ tmp Hhi). cbn [Z.eqb negb].
    rewrite (Hnz _ Hlo), (hex2val_hex_digit _ (b / 16) Hlo). cbn [Z.eqb negb].
    assert (Hl : (Z.to_nat len < length bin)%nat) by lia.
    rewrite list_lookup_insert_eq by exact Hl. cbn [from_option id].
    rewrite list_insert_insert_eq, (byte_nibbles b Hb).
    rewrite IH; try assumption; try lia.
    2:{ rewrite length_insert. lia. }
    f_equal; [lia|].
    replace (Z.to_nat (len + 1)) with (S (Z.to_nat len)) by lia.
    rewrite (take_S_r _ _ b) by (apply list_lookup_insert_eq; exact Hl).
    rewrite take_insert_ge by lia. rewrite drop_insert_lt by lia.
    rewrite <- app_assoc. cbn [app]. rewrite Nat.add_succ_r. reflexivity.
Qed.

(** X29. [hex2bin] reads back what ["%02x"] prints: on the two-digit
    lower-case rendering of the bytes [bs], with room for them
    ([bin_len] and the buffer at least as long as [bs]), it returns the
    number of bytes and leaves [bs] at the start of the buffer, the rest
    of the buffer being untouched. *)
Theorem hex2bin_print_02x bs bin bin_len :
  Forall (fun b => 0 <= b < 256) bs ->
  Z.of_nat (length bs) <= bin_len ->
  (length bs <= length bin)%nat ->
  hex2bin BLE_HS_EINVAL (flat_map print_02x bs) bin bin_len =
    (Z.of_nat (length bs), bs ++ drop (length bs) bin).
Proof.
  intros Hbs Hfit Hbuf. unfold hex2bin.
  rewrite (hex2bin_loop_print bs bin bin_len 0 0); try assumption; try lia.
  reflexivity.
Qed.

Lemma hex2bin_loop_bounds_fuel (n : nat) : forall hex bin bin_len tmp len,
  (length hex <= n)%nat ->
  0 <= len <= bin_len ->
  let r := hex2bin_loop BLE_HS_EINVAL hex bin bin_len tmp len in
  0 <= fst r <= bin_len /\
  length (snd r) = length bin /\
  drop (Z.to_nat bin_len) (snd r) = drop (Z.to_nat bin_len) bin.
Proof.
  induction n as [|n IHn]; intros hex bin bin_len tmp len Hn Hlen; cbv zeta.
  { destruct hex; [cbn; repeat split; auto; lia|cbn in Hn; lia]. }
  assert (IH : forall hex2 : list Z, (length hex2 <= n)%nat ->
            forall bin bin_len tmp len, 0 <= len <= bin_len ->
            let r := hex2bin_loop BLE_HS_EINVAL hex2 bin bin_len tmp len in
            0 <= fst r <= bin_len /\
            length (snd r) = length bin /\
            drop (Z.to_nat bin_len) (snd r) = drop (Z.to_nat bin_len) bin)
    by (intros; apply IHn; assumption).
  clear IHn.
  destruct hex as [|c1 hex1]; [cbn; repeat split; auto; lia|].
  cbn [hex2bin_loop].
  destruct ((c1 =? 0) || negb (len <? bin_len)) eqn:Hstop;
    [cbn; repeat split; auto; lia|].
  apply orb_false_iff in Hstop as [_ Hlt].
  apply negb_false_iff, Z.ltb_lt in Hlt.
  destruct (hex2val BLE_HS_EINVAL c1 tmp) as [rc1 tmp1].
  destruct (negb (rc1 =? 0)); [cbn; repeat split; auto; lia|].
  assert (H1 : forall x, length (<[Z.to_nat len := x]> bin) = length bin /\
             drop (Z.to_nat bin_len) (<[Z.to_nat len := x]> bin) =
               drop (Z.to_nat bin_len) bin).
  { intros x. split; [apply length_insert|apply drop_insert_lt; lia]. }
  destruct hex1 as [|c2 hex2].
  { cbn [fst snd]. destruct (H1 (Z.land (Z.shiftl tmp1 4) 255)). repeat split; auto; lia. }
  destruct (c2 =? 0).
  { cbn [fst snd]. destruct (H1 (Z.land (Z.shiftl tmp1 4) 255)). repeat split; auto; lia. }
  destruct (hex2val BLE_HS_EINVAL c2 tmp1) as [rc2 tmp2].
  destruct (negb (rc2 =? 0)).
  { cbn [fst snd]. destruct (H1 (Z.land (Z.shiftl tmp1 4) 255)). repeat split; auto; lia. }
  match goal with
  | |- context [hex2bin_loop _ hex2 ?b bin_len tmp2 (len + 1)] =>
      destruct (IH hex2 ltac:(cbn in Hn; lia) b bin_len tmp2 (len + 1)) as (Hr & Hl & Hd);
        [lia|]; cbv zeta in Hr, Hl, Hd;
        assert (Hb : length b = length bin /\
                     drop (Z.to_nat bin_len) b = drop (Z.to_nat bin_len) bin)
  end.
  { rewrite list_insert_insert_eq. apply H1. }
  destruct Hb as [Hb1 Hb2]. repeat split; try lia; congruence.
Qed.

Lemma hex2bin_loop_reject bs : forall c rest bin bin_len tmp len,
  BLE_HS_EINVAL <> 0 ->
  Forall (fun b => 0 <= b < 256) bs ->
  is_hex_digit c = false -> c <> 0 ->
  0 <= len ->
  len + Z.of_nat (length bs) < bin_len ->
  fst (hex2bin_loop BLE_HS_EINVAL (flat_map print_02x bs ++ c :: rest)
         bin bin_len tmp len) = 0.
Proof.
  induction bs as [|b bs IH]; intros c rest bin bin_len tmp len He Hbs Hc Hnz Hlen Hfit.
  - cbn [flat_map app hex2bin_loop length] in *.
    rewrite (proj2 (Z.eqb_neq _ _) Hnz).
    replace (len <? bin_len) with true by (symmetry; apply Z.ltb_lt; lia).
    cbn [negb orb].
    rewrite (hex2val_not_digit c tmp Hc).
    rewrite (proj2 (Z.eqb_neq _ _) He). reflexivity.
  - inversion Hbs as [|? ? Hb Hbs']; subst.
    cbn [flat_map print_02x app length] in *.
    assert (Hhi : 0 <= b / 16 < 16) by (split; [apply Z.div_pos; lia|apply Z.div_lt_upper_bound; lia]).
    assert (Hlo : 0 <= b mod 16 < 16) by (apply Z.mod_pos_bound; lia).
    assert (Hdz : forall d, 0 <= d < 16 -> (hex_digit d =? 0) = false).
    { intros d Hd. apply Z.eqb_neq. unfold hex_digit. destruct (d <? 10); lia. }
    cbn [hex2bin_loop]. rewrite (Hdz _ Hhi).
    replace (len <? bin_len) with true by (symmetry; apply Z.ltb_lt; lia).
    cbn [negb orb]. rewrite (hex2val_hex_digit _ tmp Hhi). cbn [Z.eqb negb].
    rewrite (Hdz _ Hlo), (hex2val_hex_digit _ (b / 16) Hlo). cbn [Z.eqb negb].
    apply IH; try assumption; lia.
Qed.

(** X30. [hex2bin] returns a count between 0 and [bin_len], leaves the
    buffer at its length and never writes at an offset of [bin_len] or
    more; and, the error code being nonzero, it returns 0 when a character
    that is not a hexadecimal digit follows the two-digit rendering of
    fewer than [bin_len] bytes. *)
Theorem hex2bin_bounds hex bin bin_len :
  0 <= bin_len ->
  0 <= fst (hex2bin BLE_HS_EINVAL hex bin bin_len) <= bin_len /\
  length (snd (hex2bin BLE_HS_EINVAL hex bin bin_len)) = length bin /\
  drop (Z.to_nat bin_len) (snd (hex2bin BLE_HS_EINVAL hex bin bin_len)) =
    drop (Z.to_nat bin_len) bin /\
  (BLE_HS_EINVAL <> 0 ->
   forall bs c rest,
     hex = flat_map print_02x bs ++ c :: rest ->
     Forall (fun b => 0 <= b < 256) bs ->
     is_hex_digit c = false -> c <> 0 ->
     Z.of_nat (length bs) < bin_len ->
     fst (hex2bin BLE_HS_EINVAL hex bin bin_len) = 0).
Proof.
  intros Hlen. unfold hex2bin.
  destruct (hex2bin_loop_bounds_fuel (length hex) hex bin bin_len 0 0)
    as (Hr & Hl & Hd); [lia|lia|].
  cbv zeta in Hr, Hl, Hd. repeat split_and; auto; try lia.
  intros He bs c rest -> Hbs Hc Hnz Hfit.
  apply hex2bin_loop_reject; auto; lia.
Qed.

End HexFacts.

Lemma hex2val_digits_witness :
  (fst (hex2val 3 70 9) = 0 /\ 0 <= snd (hex2val 3 70 9) < 16) /\
  hex2val 3 103 9 = (3, 9) /\
  hex2val 3 102 9 = hex2val 3 70 9 /\
  hex2val 3 (hex_digit 11) 9 = (0, 11).
Proof.
  destruct (hex2val_digits 3 70 9) as (H1 & _ & H3 & _).
  destruct (hex2val_digits 3 103 9) as (_ & H2 & _ & _).
  destruct (hex2val_digits 3 11 9) as (_ & _ & _ & H4).
  split; [apply H1; reflexivity|].
  split; [apply H2; reflexivity|].
  split; [apply H3; lia|apply H4; lia].
Defined.

Lemma hex2bin_print_02x_witness :
  hex2bin 3 [49; 50; 97; 98] [7; 7; 7] 2 = (2, [18; 171; 7]).
Proof.
  apply (hex2bin_print_02x 3 [18; 171] [7; 7; 7] 2).
  - repeat constructor; lia.
  - simpl; lia.
  - simpl; lia.
Defined.

Lemma hex2bin_bounds_witness :
  fst (hex2bin 3 [49; 50; 103; 51] [7; 7] 2) = 0.
Proof.
  destruct (hex2bin_bounds 3 [49; 50; 103; 51] [7; 7] 2) as (_ & _ & _ & H); [lia|].
  apply (H ltac:(lia) [18] 103 [51]).
  - reflexivity.
  - repeat constructor; lia.
  - reflexivity.
  - lia.
  - simpl; lia.
Defined.
